(** * MissionCommander: wire codec, connection handler, client and server

    A shallow embedding of [missioncommander/connection.py],
    [missioncommander/client.py] and [missioncommander/server.py], and the
    properties of the messaging layer stated over it.

    Conventions.
    - A Python [str] is a list of Unicode code points ([text]); a [bytes]
      object is a list of [byte].
    - Python values that travel in messages are the values [json.loads] can
      build ([json]); [JNull] is Python's [None].
    - The [json] module is embedded as CPython runs it by default
      ([ensure_ascii=True], separators [", "] and [": "], strict scanning).
      Integers are unbounded; the interpreter's optional limit on the number
      of digits of an integer literal and its recursion limit are not part of
      the model.
    - Threads are sequentialised: what another thread or the peer does is an
      explicit input (a script of socket events, the list of messages that
      arrived). *)

From Stdlib Require Import Strings.String Strings.Ascii Strings.Byte.
From Stdlib Require Import Floats.SpecFloat.
From Stdlib Require Import DecimalFacts DecimalN.
From Stdlib Require Import NArith ZArith QArith Qminmax Lia Lqa Bool List.
Import ListNotations.
Local Open Scope list_scope.

Set Implicit Arguments.
Set Warnings "-register-all".

(* ================================================================== *)
(** * Text and bytes *)

Module Text.

(** A code point; a Python [str] holds values below [0x110000],
    surrogates included. *)
Abbreviation codepoint := N (only parsing).
Abbreviation text := (list N) (only parsing).

Definition of_string (s : string) : text :=
  List.map N_of_ascii (list_ascii_of_string s).

Definition valid_codepoint (c : codepoint) : Prop := (c < 0x110000)%N.
Definition valid_text (s : text) : Prop := Forall valid_codepoint s.

Definition is_high_surrogate (c : codepoint) : bool :=
  ((0xD800 <=? c) && (c <=? 0xDBFF))%N.
Definition is_low_surrogate (c : codepoint) : bool :=
  ((0xDC00 <=? c) && (c <=? 0xDFFF))%N.
Definition is_surrogate (c : codepoint) : bool :=
  ((0xD800 <=? c) && (c <=? 0xDFFF))%N.

(** The strings [json] reads back as written: no high surrogate is directly
    followed by a low surrogate.  Every well-formed Unicode string (no
    surrogate at all) is of this kind. *)
Fixpoint no_surrogate_pair (s : text) : Prop :=
  match s with
  | [] => True
  | c :: r =>
      match r with
      | [] => True
      | d :: _ => is_high_surrogate c && is_low_surrogate d = false
      end /\ no_surrogate_pair r
  end.

Definition is_ascii (s : text) : Prop := Forall (fun c => (c < 128)%N) s.

Definition text_eqb (a b : text) : bool :=
  if list_eq_dec N.eq_dec a b then true else false.

(** [bytes.ljust(width, fill)] *)
Definition ljust {A} (width : nat) (fill : A) (l : list A) : list A :=
  l ++ repeat fill (width - length l).

(** [str.replace(c, '')] for a one-character [c] *)
Definition remove_char (c : codepoint) (s : text) : text :=
  filter (fun d => negb (d =? c)%N) s.

End Text.
Import Text.

(* ================================================================== *)
(** * UTF-8 *)

Module Utf8.

Definition b (n : N) : byte :=
  match Byte.of_N n with Some x => x | None => x00 end.

Definition cont (n : N) : byte := b (0x80 + N.land n 0x3F).

(** [str.encode('utf-8')] of one code point; [None] is
    [UnicodeEncodeError] (surrogates, out of range). *)
Definition encode_codepoint (c : codepoint) : option (list byte) :=
  if (c <? 0x80)%N then Some [b c]
  else if (c <? 0x800)%N then
    Some [b (0xC0 + N.shiftr c 6); cont c]
  else if (c <? 0x10000)%N then
    if is_surrogate c then None
    else Some [b (0xE0 + N.shiftr c 12); cont (N.shiftr c 6); cont c]
  else if (c <? 0x110000)%N then
    Some [b (0xF0 + N.shiftr c 18); cont (N.shiftr c 12);
          cont (N.shiftr c 6); cont c]
  else None.

Fixpoint encode (s : text) : option (list byte) :=
  match s with
  | [] => Some []
  | c :: r =>
      match encode_codepoint c, encode r with
      | Some x, Some y => Some (x ++ y)
      | _, _ => None
      end
  end.

Definition is_cont (x : N) : bool := ((0x80 <=? x) && (x <=? 0xBF))%N.
Definition in_range (lo hi x : N) : bool := ((lo <=? x) && (x <=? hi))%N.
Definition low6 (x : N) : N := N.land x 0x3F.

(** [bytes.decode('utf-8')], strict: overlong forms, surrogates, values
    above [0x10FFFF] and truncated sequences are refused ([None] is
    [UnicodeDecodeError]). *)
Fixpoint decode (bs : list byte) : option text :=
  match bs with
  | [] => Some []
  | x0 :: r0 =>
      let n0 := Byte.to_N x0 in
      if (n0 <? 0x80)%N then option_map (cons n0) (decode r0)
      else if in_range 0xC2 0xDF n0 then
        match r0 with
        | x1 :: r1 =>
            let n1 := Byte.to_N x1 in
            if is_cont n1
            then option_map (cons (N.shiftl (N.land n0 0x1F) 6 + low6 n1)%N)
                            (decode r1)
            else None
        | _ => None
        end
      else if in_range 0xE0 0xEF n0 then
        match r0 with
        | x1 :: x2 :: r2 =>
            let n1 := Byte.to_N x1 in
            let n2 := Byte.to_N x2 in
            let lo := if (n0 =? 0xE0)%N then 0xA0%N else 0x80%N in
            let hi := if (n0 =? 0xED)%N then 0x9F%N else 0xBF%N in
            if in_range lo hi n1 && is_cont n2
            then option_map
                   (cons (N.shiftl (N.land n0 0x0F) 12
                          + N.shiftl (low6 n1) 6 + low6 n2)%N)
                   (decode r2)
            else None
        | _ => None
        end
      else if in_range 0xF0 0xF4 n0 then
        match r0 with
        | x1 :: x2 :: x3 :: r3 =>
            let n1 := Byte.to_N x1 in
            let n2 := Byte.to_N x2 in
            let n3 := Byte.to_N x3 in
            let lo := if (n0 =? 0xF0)%N then 0x90%N else 0x80%N in
            let hi := if (n0 =? 0xF4)%N then 0x8F%N else 0xBF%N in
            if in_range lo hi n1 && is_cont n2 && is_cont n3
            then option_map
                   (cons (N.shiftl (N.land n0 0x07) 18
                          + N.shiftl (low6 n1) 12
                          + N.shiftl (low6 n2) 6 + low6 n3)%N)
                   (decode r3)
            else None
        | _ => None
        end
      else None
  end.

End Utf8.

Local Close Scope Q_scope.

(* ================================================================== *)
(** * The [json] module: values and the encoder *)

Module Json.

(** A Python [float] is its binary64 value. *)
Definition pyfloat := spec_float.

(** The values [json.loads] builds.  A [dict] is kept as the list of its
    items in insertion order; its keys are strings. *)
Inductive json : Type :=
| JNull
| JBool (b : bool)
| JInt (z : Z)
| JFloat (f : pyfloat)
| JStr (s : text)
| JArr (l : list json)
| JObj (l : list (text * json)).

(** ** Strings: [py_encode_basestring_ascii] *)

Definition hexdigit (d : N) : codepoint :=
  (if d <? 10 then 48 + d else 87 + d)%N.

(** ['{0:04x}'.format(n)] for [n < 0x10000] *)
Definition hex4 (n : N) : text :=
  [hexdigit (N.shiftr n 12 mod 16); hexdigit (N.shiftr n 8 mod 16);
   hexdigit (N.shiftr n 4 mod 16); hexdigit (n mod 16)]%N.

Definition u_escape (n : N) : text := 92%N :: 117%N :: hex4 n.

Definition escape_char (c : codepoint) : text :=
  (if c =? 34 then [92; 34]               (* quote *)
   else if c =? 92 then [92; 92]          (* backslash *)
   else if c =? 8 then [92; 98]           (* backspace *)
   else if c =? 12 then [92; 102]         (* form feed *)
   else if c =? 10 then [92; 110]         (* newline *)
   else if c =? 13 then [92; 114]         (* carriage return *)
   else if c =? 9 then [92; 116]          (* tab *)
   else if (32 <=? c) && (c <=? 126) then [c]
   else if c <? 0x10000 then u_escape c
   else
     let n := c - 0x10000 in
     let s1 := N.lor 0xD800 (N.land (N.shiftr n 10) 0x3FF) in
     let s2 := N.lor 0xDC00 (N.land n 0x3FF) in
     u_escape s1 ++ u_escape s2)%N.

Definition encode_basestring_ascii (s : text) : text :=
  34%N :: flat_map escape_char s ++ [34%N].

(** ** Integers: [int.__repr__] *)

Fixpoint digits_of_uint (u : Decimal.uint) : text :=
  match u with
  | Decimal.Nil => []
  | Decimal.D0 r => 48%N :: digits_of_uint r
  | Decimal.D1 r => 49%N :: digits_of_uint r
  | Decimal.D2 r => 50%N :: digits_of_uint r
  | Decimal.D3 r => 51%N :: digits_of_uint r
  | Decimal.D4 r => 52%N :: digits_of_uint r
  | Decimal.D5 r => 53%N :: digits_of_uint r
  | Decimal.D6 r => 54%N :: digits_of_uint r
  | Decimal.D7 r => 55%N :: digits_of_uint r
  | Decimal.D8 r => 56%N :: digits_of_uint r
  | Decimal.D9 r => 57%N :: digits_of_uint r
  end.

Definition nat_repr (n : N) : text := digits_of_uint (N.to_uint n).

Definition int_repr (z : Z) : text :=
  match z with
  | Zneg p => 45%N :: nat_repr (Npos p)
  | _ => nat_repr (Z.to_N z)
  end.

(** ** [json.dumps(o, indent=None)] *)

Section Dumps.

(** [float.__repr__] for a finite float: the shortest decimal numeral
    that reads back as the same binary64 value.  It is not embedded; the
    encoder takes it as a parameter. *)
Variable float_repr : pyfloat -> text.

Definition floatstr (f : pyfloat) : text :=
  match f with
  | S754_nan => of_string "NaN"
  | S754_infinity false => of_string "Infinity"
  | S754_infinity true => of_string "-Infinity"
  | _ => float_repr f
  end.

Definition item_separator : text := of_string ", ".
Definition key_separator : text := of_string ": ".

Fixpoint dumps (v : json) : text :=
  match v with
  | JNull => of_string "null"
  | JBool true => of_string "true"
  | JBool false => of_string "false"
  | JInt z => int_repr z
  | JFloat f => floatstr f
  | JStr s => encode_basestring_ascii s
  | JArr l =>
      91%N ::
      (fix items (l : list json) : text :=
         match l with
         | [] => []
         | [x] => dumps x
         | x :: r => dumps x ++ item_separator ++ items r
         end) l ++ [93%N]
  | JObj l =>
      123%N ::
      (fix items (l : list (text * json)) : text :=
         match l with
         | [] => []
         | [(k, x)] =>
             encode_basestring_ascii k ++ key_separator ++ dumps x
         | (k, x) :: r =>
             encode_basestring_ascii k ++ key_separator ++ dumps x
             ++ item_separator ++ items r
         end) l ++ [125%N]
  end.

End Dumps.

End Json.

(* ================================================================== *)
(** * The [json] module: the decoder *)

Module JsonDecoder.
Import Json.

(** Outcome of a scanner: a value and the unread text, a
    [JSONDecodeError], or an exhausted recursion budget. *)
Inductive scan (A : Type) : Type :=
| Scanned (a : A) (rest : text)
| Fail
| Starved.
Arguments Fail {A}.
Arguments Starved {A}.

(** [WHITESPACE = [ \t\n\r]*] *)
Definition is_ws (c : codepoint) : bool :=
  ((c =? 32) || (c =? 9) || (c =? 10) || (c =? 13))%N.

Fixpoint skip_ws (s : text) : text :=
  match s with
  | c :: r => if is_ws c then skip_ws r else s
  | [] => []
  end.

(** ** Strings: [scanstring], strict *)

Definition hexval (c : codepoint) : option N :=
  (if (48 <=? c) && (c <=? 57) then Some (c - 48)
   else if (97 <=? c) && (c <=? 102) then Some (c - 87)
   else if (65 <=? c) && (c <=? 70) then Some (c - 55)
   else None)%N.

Definition decode_hex4 (h1 h2 h3 h4 : codepoint) : option N :=
  match hexval h1, hexval h2, hexval h3, hexval h4 with
  | Some a, Some b, Some c, Some d =>
      Some (((a * 16 + b) * 16 + c) * 16 + d)%N
  | _, _, _, _ => None
  end.

(** [BACKSLASH]: the one-letter escapes *)
Definition backslash (c : codepoint) : option codepoint :=
  (if c =? 34 then Some 34
   else if c =? 92 then Some 92
   else if c =? 47 then Some 47
   else if c =? 98 then Some 8
   else if c =? 102 then Some 12
   else if c =? 110 then Some 10
   else if c =? 114 then Some 13
   else if c =? 116 then Some 9
   else None)%N.

Definition join_surrogates (hi lo : N) : N :=
  (0x10000 + N.lor (N.shiftl (hi - 0xD800) 10) (lo - 0xDC00))%N.

Definition prepend (c : codepoint) (r : option (text * text))
  : option (text * text) :=
  match r with
  | Some (t, rest) => Some (c :: t, rest)
  | None => None
  end.

(** [scanstring s] reads from just after the opening quote; it returns the
    decoded string and the text after the closing quote. *)
Fixpoint scanstring (s : text) : option (text * text) :=
  match s with
  | [] => None                                   (* unterminated *)
  | c :: r =>
      if (c =? 34)%N then Some ([], r)
      else if (c <? 32)%N then None              (* control character *)
      else if (c =? 92)%N then
        match r with
        | [] => None
        | e :: r1 =>
            if (e =? 117)%N then
              match r1 with
              | h1 :: h2 :: h3 :: h4 :: r2 =>
                  match decode_hex4 h1 h2 h3 h4 with
                  | None => None
                  | Some uni =>
                      if is_high_surrogate uni then
                        match r2 with
                        | b1 :: u1 :: r3 =>
                            if ((b1 =? 92) && (u1 =? 117))%N then
                              match r3 with
                              | g1 :: g2 :: g3 :: g4 :: r4 =>
                                  match decode_hex4 g1 g2 g3 g4 with
                                  | None => None
                                  | Some uni2 =>
                                      if is_low_surrogate uni2
                                      then prepend
                                             (join_surrogates uni uni2)
                                             (scanstring r4)
                                      else prepend uni (scanstring r2)
                                  end
                              | _ => None
                              end
                            else prepend uni (scanstring r2)
                        | _ => prepend uni (scanstring r2)
                        end
                      else prepend uni (scanstring r2)
                  end
              | _ => None
              end
            else
              match backslash e with
              | Some ch => prepend ch (scanstring r1)
              | None => None
              end
        end
      else prepend c (scanstring r)
  end.

(** ** Numbers: [NUMBER_RE], [int] and [float] *)

Definition is_digit (c : codepoint) : bool := ((48 <=? c) && (c <=? 57))%N.

Fixpoint span_digits (s : text) : text * text :=
  match s with
  | c :: r =>
      if is_digit c
      then let (ds, rest) := span_digits r in (c :: ds, rest)
      else ([], s)
  | [] => ([], [])
  end.

Fixpoint uint_of_digits (ds : text) : Decimal.uint :=
  match ds with
  | [] => Decimal.Nil
  | c :: r =>
      let u := uint_of_digits r in
      (if c =? 48 then Decimal.D0 u else if c =? 49 then Decimal.D1 u
       else if c =? 50 then Decimal.D2 u else if c =? 51 then Decimal.D3 u
       else if c =? 52 then Decimal.D4 u else if c =? 53 then Decimal.D5 u
       else if c =? 54 then Decimal.D6 u else if c =? 55 then Decimal.D7 u
       else if c =? 56 then Decimal.D8 u else Decimal.D9 u)%N
  end.

Definition nat_of_digits (ds : text) : N := N.of_uint (uint_of_digits ds).

(** [int(literal)] *)
Definition parse_int (neg : bool) (ds : text) : Z :=
  let n := Z.of_N (nat_of_digits ds) in
  if neg then (- n)%Z else n.

(** [float(literal)]: the numeral [ids.fds e x], that is the integer
    [ids ++ fds] times ten to the [x - length fds], rounded to the nearest
    binary64 value (ties to even). *)
Definition parse_float (neg : bool) (ids fds : text) (x : Z) : pyfloat :=
  let d := Z.of_N (nat_of_digits (ids ++ fds)) in
  let e10 := (x - Z.of_nat (length fds))%Z in
  match d with
  | Zpos p =>
      if (0 <=? e10)%Z
      then binary_round 53 1024 neg (p * Z.to_pos (10 ^ e10))%positive 0
      else
        let '(q, e2, loc) :=
          SFdiv_core_binary 53 1024 d 0 (10 ^ (- e10))%Z 0 in
        binary_round_aux 53 1024 neg q e2 loc
  | _ => S754_zero neg
  end.

Definition match_sign (s : text) : bool * text :=
  match s with
  | c :: r => if (c =? 45)%N then (true, r) else (false, s)
  | [] => (false, s)
  end.

(** The integer part [0|[1-9]\d*] *)
Definition match_int_part (s : text) : option (text * text) :=
  match s with
  | c :: r =>
      if (c =? 48)%N then Some ([c], r)
      else if is_digit c
           then let (ds, rest) := span_digits r in Some (c :: ds, rest)
           else None
  | [] => None
  end.

(** The optional fraction [(\.\d+)?] *)
Definition match_frac (s : text) : option text * text :=
  match s with
  | p :: d :: r =>
      if ((p =? 46)%N && is_digit d)
      then let (ds, rest) := span_digits r in (Some (d :: ds), rest)
      else (None, s)
  | _ => (None, s)
  end.

(** The optional exponent [([eE][-+]?\d+)?], as a signed integer *)
Definition match_exp (s : text) : option Z * text :=
  match s with
  | e :: r =>
      if ((e =? 101) || (e =? 69))%N then
        let '(eneg, r1) :=
          match r with
          | c :: r' =>
              if (c =? 45)%N then (true, r')
              else if (c =? 43)%N then (false, r')
              else (false, r)
          | [] => (false, r)
          end in
        match r1 with
        | d :: _ =>
            if is_digit d
            then let (ds, rest) := span_digits r1 in
                 (Some (parse_int eneg ds), rest)
            else (None, s)
        | [] => (None, s)
        end
      else (None, s)
  | [] => (None, s)
  end.

Definition match_number (s : text) : option (json * text) :=
  let (neg, s1) := match_sign s in
  match match_int_part s1 with
  | None => None
  | Some (ids, r1) =>
      let (frac, r2) := match_frac r1 in
      let (ex, r3) := match_exp r2 in
      match frac, ex with
      | None, None => Some (JInt (parse_int neg ids), r3)
      | _, _ =>
          let fds := match frac with Some ds => ds | None => [] end in
          let x := match ex with Some z => z | None => 0%Z end in
          Some (JFloat (parse_float neg ids fds x), r3)
      end
  end.

(** ** Dictionaries: [dict(pairs)] *)

Fixpoint dict_set (k : text) (v : json) (d : list (text * json))
  : list (text * json) :=
  match d with
  | [] => [(k, v)]
  | (k', v') :: r =>
      if text_eqb k' k then (k', v) :: r else (k', v') :: dict_set k v r
  end.

Definition dict_of_pairs (l : list (text * json)) : list (text * json) :=
  fold_left (fun d kv => dict_set (fst kv) (snd kv) d) l [].

Fixpoint dict_get (k : text) (d : list (text * json)) : option json :=
  match d with
  | [] => None
  | (k', v) :: r => if text_eqb k' k then Some v else dict_get k r
  end.

(** ** Values: [scan_once], [JSONObject], [JSONArray] *)

Fixpoint starts_with (p s : text) : option text :=
  match p, s with
  | [], _ => Some s
  | a :: p', c :: s' => if (a =? c)%N then starts_with p' s' else None
  | _ :: _, [] => None
  end.

Definition scan_constant (s : text) : scan json :=
  match starts_with (of_string "NaN") s with
  | Some r => Scanned (JFloat S754_nan) r
  | None =>
      match starts_with (of_string "Infinity") s with
      | Some r => Scanned (JFloat (S754_infinity false)) r
      | None =>
          match starts_with (of_string "-Infinity") s with
          | Some r => Scanned (JFloat (S754_infinity true)) r
          | None => Fail
          end
      end
  end.

Definition scan_atom (s : text) : scan json :=
  match starts_with (of_string "null") s with
  | Some r => Scanned JNull r
  | None =>
      match starts_with (of_string "true") s with
      | Some r => Scanned (JBool true) r
      | None =>
          match starts_with (of_string "false") s with
          | Some r => Scanned (JBool false) r
          | None =>
              match match_number s with
              | Some (v, r) => Scanned v r
              | None => scan_constant s
              end
          end
      end
  end.

Fixpoint scan_once (fuel : nat) (s : text) {struct fuel} : scan json :=
  match fuel with
  | O => Starved
  | S fuel' =>
      match s with
      | [] => Fail
      | c :: r =>
          if (c =? 34)%N then
            match scanstring r with
            | Some (t, rest) => Scanned (JStr t) rest
            | None => Fail
            end
          else if (c =? 123)%N then
            match skip_ws r with
            | q :: r1 =>
                if (q =? 125)%N then Scanned (JObj []) r1
                else if (q =? 34)%N then
                  match object_items fuel' r1 with
                  | Scanned kvs rest => Scanned (JObj (dict_of_pairs kvs)) rest
                  | Fail => Fail
                  | Starved => Starved
                  end
                else Fail
            | [] => Fail
            end
          else if (c =? 91)%N then
            match skip_ws r with
            | q :: r1 =>
                if (q =? 93)%N then Scanned (JArr []) r1
                else
                  match array_items fuel' (q :: r1) with
                  | Scanned vs rest => Scanned (JArr vs) rest
                  | Fail => Fail
                  | Starved => Starved
                  end
            | [] => Fail
            end
          else scan_atom s
      end
  end

(** the loop of [JSONObject]; [s] starts just after the opening quote of
    a key *)
with object_items (fuel : nat) (s : text) {struct fuel}
  : scan (list (text * json)) :=
  match fuel with
  | O => Starved
  | S fuel' =>
      match scanstring s with
      | None => Fail
      | Some (key, r) =>
          match skip_ws r with
          | colon :: r1 =>
              if (colon =? 58)%N then
                match scan_once fuel' (skip_ws r1) with
                | Scanned v r2 =>
                    match skip_ws r2 with
                    | d :: r3 =>
                        if (d =? 125)%N then Scanned [(key, v)] r3
                        else if (d =? 44)%N then
                          match skip_ws r3 with
                          | q :: r4 =>
                              if (q =? 34)%N then
                                match object_items fuel' r4 with
                                | Scanned kvs rest =>
                                    Scanned ((key, v) :: kvs) rest
                                | Fail => Fail
                                | Starved => Starved
                                end
                              else Fail
                          | [] => Fail
                          end
                        else Fail
                    | [] => Fail
                    end
                | Fail => Fail
                | Starved => Starved
                end
              else Fail
          | [] => Fail
          end
      end
  end

(** the loop of [JSONArray]; [s] starts at a value *)
with array_items (fuel : nat) (s : text) {struct fuel} : scan (list json) :=
  match fuel with
  | O => Starved
  | S fuel' =>
      match scan_once fuel' s with
      | Scanned v r =>
          match skip_ws r with
          | d :: r1 =>
              if (d =? 93)%N then Scanned [v] r1
              else if (d =? 44)%N then
                match array_items fuel' (skip_ws r1) with
                | Scanned vs rest => Scanned (v :: vs) rest
                | Fail => Fail
                | Starved => Starved
                end
              else Fail
          | [] => Fail
          end
      | Fail => Fail
      | Starved => Starved
      end
  end.

(** [json.loads(s)]: one value between optional white space, nothing
    after it.  The budget is enough for any text (see [loads_fed]). *)
Definition loads (s : text) : scan json :=
  match scan_once (2 * length s + 2) (skip_ws s) with
  | Scanned v rest =>
      match skip_ws rest with
      | [] => Scanned v []
      | _ :: _ => Fail
      end
  | Fail => Fail
  | Starved => Starved
  end.

End JsonDecoder.

(* ================================================================== *)
(** * connection.py *)

Module Connection.
Import Json JsonDecoder.

Definition HEADER_LEN_BYTES : nat := 64.
Definition CHUNK_SIZE_BYTES : nat := 2048.

(** The exceptions the embedded code raises or lets through. *)
Inductive exn : Type :=
| AttributeError | ValueError | TypeError | KeyError | OverflowError
| UnicodeError | UnboundLocalError | RuntimeError | PyException
| SocketTimeout | ConnectionRefusedError | OSError.

(** ** [class Message] *)

Record Message : Type := { subject : json; payload : json }.

(** [o[key]] for a string [key]: only a [dict] holding the key answers;
    [None] is the [KeyError] or [TypeError] raised otherwise. *)
Definition subscript (o : json) (key : text) : option json :=
  match o with
  | JObj d => dict_get key d
  | _ => None
  end.

(** [Message.deserialize]; [None] is any exception of the decoding. *)
Definition deserialize (subj : json) (bytes_in : list byte)
  : option Message :=
  match Utf8.decode bytes_in with
  | Some t =>
      match loads t with
      | Scanned data _ => Some {| subject := subj; payload := data |}
      | _ => None
      end
  | None => None
  end.

(** ** Sockets

    A socket is the byte stream the peer sends ([incoming]), the bytes
    written so far ([wire]) and two scripts saying how the next calls of
    [recv] and [send] go.  An exhausted script means that nothing happens
    before the socket timeout. *)

Inductive recv_event : Type :=
| RecvData (k : nat)      (* at most [k + 1] bytes are handed over *)
| RecvTimeout
| RecvClosed              (* the peer closed: [recv] returns [b''] *)
| RecvError.

Inductive send_event : Type :=
| SendAccept (k : nat)    (* at most [k + 1] bytes are taken *)
| SendZero                (* [send] returns 0 *)
| SendError.

Record socket : Type := {
  fd : nat;
  incoming : list byte;
  recv_script : list recv_event;
  send_script : list send_event;
  wire : list byte
}.

Inductive recv_result : Type :=
| Chunk (c : list byte)
| RecvRaised (e : exn).

(** [sock.recv(n)] under one event *)
Definition recv1 (ev : recv_event) (inc : list byte) (n : nat)
  : recv_result * list byte :=
  match ev with
  | RecvData k =>
      match inc with
      | [] => (RecvRaised SocketTimeout, inc)
      | _ :: _ => (Chunk (firstn (Nat.min (S k) n) inc),
                   skipn (Nat.min (S k) n) inc)
      end
  | RecvTimeout => (RecvRaised SocketTimeout, inc)
  | RecvClosed => (Chunk [], inc)
  | RecvError => (RecvRaised OSError, inc)
  end.

Inductive send_result : Type :=
| Sent (n : nat)
| SendRaised (e : exn).

(** [sock.send(data)] under one event: the result and the bytes written *)
Definition send1 (ev : send_event) (data : list byte)
  : send_result * list byte :=
  match ev with
  | SendAccept k => (Sent (Nat.min (S k) (length data)),
                     firstn (Nat.min (S k) (length data)) data)
  | SendZero => (Sent 0, [])
  | SendError => (SendRaised OSError, [])
  end.

(** ** [class ConnectionHandler] *)

Record ConnectionHandler : Type := {
  sock : socket;
  should_run : bool;
  thread_alive : bool;         (* [running] *)
  outbound_message_queue : list Message;
  inbound_message_queue : list Message
}.

Definition set_sock_field (h : ConnectionHandler) (s : socket) :=
  {| sock := s; should_run := should_run h; thread_alive := thread_alive h;
     outbound_message_queue := outbound_message_queue h;
     inbound_message_queue := inbound_message_queue h |}.

Definition set_should_run (h : ConnectionHandler) (v : bool) :=
  {| sock := sock h; should_run := v; thread_alive := thread_alive h;
     outbound_message_queue := outbound_message_queue h;
     inbound_message_queue := inbound_message_queue h |}.

Definition set_thread_alive (h : ConnectionHandler) (v : bool) :=
  {| sock := sock h; should_run := should_run h; thread_alive := v;
     outbound_message_queue := outbound_message_queue h;
     inbound_message_queue := inbound_message_queue h |}.

Definition set_outbound (h : ConnectionHandler) (q : list Message) :=
  {| sock := sock h; should_run := should_run h;
     thread_alive := thread_alive h;
     outbound_message_queue := q;
     inbound_message_queue := inbound_message_queue h |}.

Definition set_inbound (h : ConnectionHandler) (q : list Message) :=
  {| sock := sock h; should_run := should_run h;
     thread_alive := thread_alive h;
     outbound_message_queue := outbound_message_queue h;
     inbound_message_queue := q |}.

(** A fresh TCP socket, as [socket.socket(...)] gives it; what will
    happen on it is the caller's input. *)
Definition ConnectionHandler_init (s : socket) : ConnectionHandler :=
  {| sock := s; should_run := false; thread_alive := false;
     outbound_message_queue := []; inbound_message_queue := [] |}.

Definition running (h : ConnectionHandler) : bool := thread_alive h.

(** The [sock] setter *)
Definition set_sock (h : ConnectionHandler) (s : socket)
  : ConnectionHandler + exn :=
  if should_run h || running h then inr AttributeError
  else inl (set_sock_field h s).

(** [start]: the loop thread is alive from here on *)
Definition start (h : ConnectionHandler) : ConnectionHandler :=
  set_thread_alive (set_should_run h true) true.

(** [stop(blocking)]: a blocking stop returns once the loop has ended *)
Definition stop (blocking : bool) (h : ConnectionHandler)
  : ConnectionHandler :=
  let h1 := set_should_run h false in
  if blocking then set_thread_alive h1 false else h1.

(** [send]: append at the tail of the outbound queue *)
Definition send (h : ConnectionHandler) (m : Message) : ConnectionHandler :=
  set_outbound h (outbound_message_queue h ++ [m]).

(** [recv]: pop the head of the inbound queue *)
Definition recv (h : ConnectionHandler) : option Message * ConnectionHandler :=
  match inbound_message_queue h with
  | [] => (None, h)
  | m :: q => (Some m, set_inbound h q)
  end.

(** What a step of the loop did: it returned, or an exception ended the
    thread. *)
Inductive tick : Type :=
| Return (b : bool)
| Raise (e : exn).

(** ** [__recv_queue_tick] *)

Inductive read_result : Type :=
| ReadDone (data : list byte)
| ReadTimeout
| ReadClosed
| ReadRaised (e : exn).

(** The header loop: [recv] until 64 bytes are there.  A timeout ends the
    step (what was read of the header is dropped with it); an empty read
    means the peer closed; any other exception passes through. *)
Fixpoint recv_header (script : list recv_event) (inc got : list byte)
  : read_result * list recv_event * list byte :=
  if HEADER_LEN_BYTES <=? length got then (ReadDone got, script, inc)
  else
    match script with
    | [] => (ReadTimeout, [], inc)
    | ev :: script' =>
        match recv1 ev inc (HEADER_LEN_BYTES - length got) with
        | (RecvRaised SocketTimeout, inc') => (ReadTimeout, script', inc')
        | (RecvRaised e, inc') => (ReadRaised e, script', inc')
        | (Chunk [], inc') => (ReadClosed, script', inc')
        | (Chunk c, inc') => recv_header script' inc' (got ++ c)
        end
    end.

Inductive header_result : Type :=
| HeaderOk (msglen subj : json)
| HeaderMalformed              (* logged, the frame is dropped *)
| HeaderCrash (e : exn).       (* the handler itself raises *)

(** Lines 122-130: decode as UTF-8, remove the null characters, parse the
    JSON, take ['length'] and ['subject'].  Any exception is caught and the
    header logged; when it was the UTF-8 decoding that failed, [header] is
    not bound yet and the logging raises [UnboundLocalError]. *)
Definition parse_header (raw : list byte) : header_result :=
  match Utf8.decode raw with
  | None => HeaderCrash UnboundLocalError
  | Some header =>
      match loads (remove_char 0%N header) with
      | Scanned hd _ =>
          match subscript hd (of_string "length"),
                subscript hd (of_string "subject") with
          | Some msglen, Some subj => HeaderOk msglen subj
          | _, _ => HeaderMalformed
          end
      | _ => HeaderMalformed
      end
  end.

Definition float_of_nat (n : nat) : pyfloat :=
  binary_normalize 53 1024 (Z.of_nat n) 0 false.

(** One test of the body loop, [bytes_recvd < msglen], and the size it
    asks [recv] for, [min(msglen - bytes_recvd, CHUNK_SIZE_BYTES)].
    [msglen] is whatever the header held: an [int] or [bool] counts bytes;
    a [float] is compared as a float and, once [min] picks it, is refused
    by [recv] with [TypeError]; any other value cannot be compared with
    an [int].  (Byte counts are below [2^53], where [int] and [float]
    compare exactly.) *)
Inductive want : Type :=
| WantMore (n : nat)
| WantDone
| WantTypeError.

Definition want_int (z : Z) (bytes_recvd : nat) : want :=
  if (Z.of_nat bytes_recvd <? z)%Z
  then WantMore (Nat.min (Z.to_nat (z - Z.of_nat bytes_recvd))
                         CHUNK_SIZE_BYTES)
  else WantDone.

Definition body_want (msglen : json) (bytes_recvd : nat) : want :=
  match msglen with
  | JInt z => want_int z bytes_recvd
  | JBool b => want_int (if b then 1 else 0)%Z bytes_recvd
  | JFloat f =>
      if SFltb (float_of_nat bytes_recvd) f then
        if SFltb (float_of_nat CHUNK_SIZE_BYTES)
                 (SFsub 53 1024 f (float_of_nat bytes_recvd))
        then WantMore CHUNK_SIZE_BYTES
        else WantTypeError
      else WantDone
  | _ => WantTypeError
  end.

(** The body loop; here a timeout is not caught. *)
Fixpoint recv_body (script : list recv_event) (inc : list byte)
         (msglen : json) (got : list byte)
  : read_result * list recv_event * list byte :=
  match body_want msglen (length got) with
  | WantDone => (ReadDone got, script, inc)
  | WantTypeError => (ReadRaised TypeError, script, inc)
  | WantMore n =>
      match script with
      | [] => (ReadRaised SocketTimeout, [], inc)
      | ev :: script' =>
          match recv1 ev inc n with
          | (RecvRaised e, inc') => (ReadRaised e, script', inc')
          | (Chunk [], inc') => (ReadClosed, script', inc')
          | (Chunk c, inc') => recv_body script' inc' msglen (got ++ c)
          end
      end
  end.

Definition after_recv (h : ConnectionHandler)
           (script : list recv_event) (inc : list byte) :=
  set_sock_field h
    {| fd := fd (sock h); incoming := inc; recv_script := script;
       send_script := send_script (sock h); wire := wire (sock h) |}.

Definition recv_queue_tick (h : ConnectionHandler)
  : tick * ConnectionHandler :=
  match recv_header (recv_script (sock h)) (incoming (sock h)) [] with
  | (ReadTimeout, sc, inc) => (Return true, after_recv h sc inc)
  | (ReadClosed, sc, inc) => (Return false, after_recv h sc inc)
  | (ReadRaised e, sc, inc) => (Raise e, after_recv h sc inc)
  | (ReadDone raw, sc, inc) =>
      match parse_header raw with
      | HeaderCrash e => (Raise e, after_recv h sc inc)
      | HeaderMalformed => (Return true, after_recv h sc inc)
      | HeaderOk msglen subj =>
          match recv_body sc inc msglen [] with
          | (ReadDone body, sc', inc') =>
              let h' := after_recv h sc' inc' in
              match deserialize subj body with
              | Some msg =>
                  (Return true,
                   set_inbound h' (inbound_message_queue h' ++ [msg]))
              | None => (Return true, h')
              end
          | (ReadClosed, sc', inc') => (Return false, after_recv h sc' inc')
          | (ReadTimeout, sc', inc') =>
              (Raise SocketTimeout, after_recv h sc' inc')
          | (ReadRaised e, sc', inc') => (Raise e, after_recv h sc' inc')
          end
      end
  end.

(** ** [__send_queue_tick] *)

Inductive write_result : Type :=
| WriteDone
| WriteZero
| WriteRaised (e : exn).

(** [while total < len(data): sent = sock.send(data[total:]) ...] *)
Fixpoint send_all (script : list send_event) (data w : list byte)
  : write_result * list send_event * list byte :=
  match data with
  | [] => (WriteDone, script, w)
  | _ :: _ =>
      match script with
      | [] => (WriteRaised SocketTimeout, [], w)
      | ev :: script' =>
          match send1 ev data with
          | (SendRaised e, _) => (WriteRaised e, script', w)
          | (Sent O, _) => (WriteZero, script', w)
          | (Sent n, out) => send_all script' (skipn n data) (w ++ out)
          end
      end
  end.

Definition after_send (h : ConnectionHandler)
           (script : list send_event) (w : list byte) :=
  set_sock_field h
    {| fd := fd (sock h); incoming := incoming (sock h);
       recv_script := recv_script (sock h);
       send_script := script; wire := w |}.

Section Sending.

Variable float_repr : pyfloat -> text.

(** [Message.serialize]; [None] is [UnicodeEncodeError]. *)
Definition serialize (m : Message) : option (list byte) :=
  Utf8.encode (dumps float_repr (payload m)).

Definition header_json (len : nat) (subj : json) : text :=
  dumps float_repr
        (JObj [(of_string "length", JInt (Z.of_nat len));
               (of_string "subject", subj)]).

(** Lines 156-161: build the header, refuse it above 64 bytes, pad it
    with null bytes. *)
Definition pack_header (len : nat) (subj : json) : list byte + exn :=
  match Utf8.encode (header_json len subj) with
  | None => inr UnicodeError
  | Some header =>
      if HEADER_LEN_BYTES <? length header then inr OverflowError
      else inl (ljust HEADER_LEN_BYTES x00 header)
  end.

Definition send_queue_tick (h : ConnectionHandler)
  : tick * ConnectionHandler :=
  match outbound_message_queue h with
  | [] => (Return true, h)
  | m :: q =>
      let h1 := set_outbound h q in
      match serialize m with
      | None => (Raise UnicodeError, h1)
      | Some bytes_out =>
          match pack_header (length bytes_out) (subject m) with
          | inr _ => (Return true, h1)    (* logged, message dropped *)
          | inl header =>
              match send_all (send_script (sock h1)) header
                             (wire (sock h1)) with
              | (WriteRaised e, sc, w) => (Raise e, after_send h1 sc w)
              | (WriteZero, sc, w) =>
                  (Return false, set_outbound (after_send h1 sc w) (m :: q))
              | (WriteDone, sc, w) =>
                  match send_all sc bytes_out w with
                  | (WriteDone, sc', w') =>
                      (Return true, after_send h1 sc' w')
                  | (_, sc', w') =>
                      (Return false,
                       set_outbound (after_send h1 sc' w') (m :: q))
                  end
              end
          end
      end
  end.

(** The frame of a message: padded header, then body. *)
Definition encode (m : Message) : option (list byte) :=
  match serialize m with
  | None => None
  | Some body =>
      match pack_header (length body) (subject m) with
      | inl header => Some (header ++ body)
      | inr _ => None
      end
  end.

End Sending.

End Connection.

(* ================================================================== *)
(** * Python truth value, equality and hashing on message values *)

Module Py.
Import Json.

Definition is_None (v : json) : bool :=
  match v with JNull => true | _ => false end.

(** [bool(v)] *)
Definition truthy (v : json) : bool :=
  match v with
  | JNull => false
  | JBool b => b
  | JInt z => negb (z =? 0)%Z
  | JFloat (S754_zero _) => false
  | JFloat _ => true
  | JStr s => match s with [] => false | _ => true end
  | JArr l => match l with [] => false | _ => true end
  | JObj l => match l with [] => false | _ => true end
  end.

(** [v == s] for a [str] [s] *)
Definition eq_str (v : json) (s : text) : bool :=
  match v with
  | JStr s' => text_eqb s' s
  | _ => false
  end.

(** The value of a float as an integer, when it is one. *)
Definition float_eq_int (f : pyfloat) (z : Z) : bool :=
  match f with
  | S754_zero _ => (z =? 0)%Z
  | S754_finite s m e =>
      let m' := if s then Zneg m else Zpos m in
      if (0 <=? e)%Z then (z =? m' * 2 ^ e)%Z
      else (z * 2 ^ (- e) =? m')%Z
  | _ => false
  end.

Definition as_int (v : json) : option Z :=
  match v with
  | JInt z => Some z
  | JBool b => Some (if b then 1 else 0)%Z
  | _ => None
  end.

(** [hash(v)] is defined: lists and dicts are unhashable. *)
Definition hashable (v : json) : bool :=
  match v with
  | JArr _ | JObj _ => false
  | _ => true
  end.

(** Equality of two hashable values as [dict] keys: numbers compare by
    value across [bool], [int] and [float]; the one [NaN] object the
    decoder hands out is found by identity. *)
Definition key_eq (a b : json) : bool :=
  match a, b with
  | JNull, JNull => true
  | JStr x, JStr y => text_eqb x y
  | JFloat x, JFloat y =>
      match x, y with
      | S754_nan, S754_nan => true
      | _, _ => SFeqb x y
      end
  | JFloat x, _ =>
      match as_int b with Some z => float_eq_int x z | None => false end
  | _, JFloat y =>
      match as_int a with Some z => float_eq_int y z | None => false end
  | _, _ =>
      match as_int a, as_int b with
      | Some x, Some y => (x =? y)%Z
      | _, _ => false
      end
  end.

End Py.

(* ================================================================== *)
(** * server.py *)

Module Server.
Import Json JsonDecoder Connection Py.

Definition address : Type := text * Z.

(** ** [class ClientHandler(ConnectionHandler)] *)

Record ClientHandler : Type := {
  base : ConnectionHandler;
  addr : address;
  client_id : json            (* [JNull]: negotiation failed *)
}.

Definition with_base (c : ClientHandler) (h : ConnectionHandler) :=
  {| base := h; addr := addr c; client_id := client_id c |}.

(** [wait_for_recv(timeout)]: polls [recv] until a message is there or
    the time is over.  [arrived] is what the loop thread has put on the
    inbound queue by then; nothing arrived means the timeout expired. *)
Definition wait_for_recv (h : ConnectionHandler) (arrived : list Message)
  : option Message * ConnectionHandler :=
  recv (set_inbound h (inbound_message_queue h ++ arrived)).

(** The test of [__init__]: a message came, its subject is
    ['negotiation'], and [payload['id']] exists and is true. *)
Definition negotiated_id (msg : option Message) : json :=
  match msg with
  | None => JNull
  | Some m =>
      if eq_str (subject m) (of_string "negotiation") then
        match subscript (payload m) (of_string "id") with
        | Some id => if truthy id then id else JNull
        | None => JNull            (* the exception is swallowed *)
        end
      else JNull
  end.

Definition ClientHandler_init (client_sock : socket) (client_addr : address)
           (arrived : list Message) : ClientHandler :=
  let h := start (ConnectionHandler_init client_sock) in
  let (msg, h') := wait_for_recv h arrived in
  {| base := h'; addr := client_addr; client_id := negotiated_id msg |}.

(** [reopen_with]: the address is stored first, then the socket setter
    runs (and refuses a handler that is running), then the loop starts. *)
Definition reopen_with (c : ClientHandler) (s : socket) (a : address)
  : ClientHandler * option exn :=
  let c1 := {| base := base c; addr := a; client_id := client_id c |} in
  match set_sock (base c1) s with
  | inr e => (c1, Some e)
  | inl h => (with_base c1 (start h), None)
  end.

(** ** [class Server]

    [objects] is the store of handler objects, a reference being an index
    into it; [conns] is the directory, a [dict] kept as the list of its
    items in insertion order.

    A socket object is named by its [fd]: handlers whose [sock] carries
    the same [fd] hold the same socket object, as the handler made for a
    connection and the existing handler that is reopened with that
    connection's socket do.  [closed] lists the socket objects that
    have been shut down and closed. *)

Abbreviation ref := nat (only parsing).

Record Server : Type := {
  interface : json;
  port : json;
  should_run : bool;
  conns : list (json * ref);
  objects : list ClientHandler;
  closed : list nat
}.

Definition Server_init : Server :=
  {| interface := JNull; port := JNull; should_run := false;
     conns := []; objects := []; closed := [] |}.

Definition with_conns (s : Server) (d : list (json * ref)) :=
  {| interface := interface s; port := port s; should_run := should_run s;
     conns := d; objects := objects s; closed := closed s |}.

Definition with_objects (s : Server) (o : list ClientHandler) :=
  {| interface := interface s; port := port s; should_run := should_run s;
     conns := conns s; objects := o; closed := closed s |}.

Definition with_closed (s : Server) (l : list nat) :=
  {| interface := interface s; port := port s; should_run := should_run s;
     conns := conns s; objects := objects s; closed := l |}.

(** The socket object of a handler has been closed. *)
Definition sock_closed (s : Server) (h : ConnectionHandler) : bool :=
  existsb (Nat.eqb (fd (sock h))) (closed s).

(** [key in d] and [d[key]] *)
Fixpoint dir_find (k : json) (d : list (json * ref)) : option ref :=
  match d with
  | [] => None
  | (k', r) :: d' => if key_eq k' k then Some r else dir_find k d'
  end.

(** [d[key] = r] *)
Fixpoint dir_set (k : json) (r : ref) (d : list (json * ref))
  : list (json * ref) :=
  match d with
  | [] => [(k, r)]
  | (k', r') :: d' =>
      if key_eq k' k then (k', r) :: d' else (k', r') :: dir_set k r d'
  end.

Fixpoint update {A} (l : list A) (i : nat) (x : A) : list A :=
  match l, i with
  | [], _ => []
  | _ :: t, O => x :: t
  | a :: t, S j => a :: update t j x
  end.

Inductive outcome : Type :=
| Done (s : Server)
| Raised (e : exn) (s : Server).   (* the accept thread ends *)

Definition server_of (o : outcome) : Server :=
  match o with Done s => s | Raised _ s => s end.

(** [__negotiate_client_id].  [stop(blocking=False)] only clears the run
    flag of the new handler: its loop thread is still alive and still
    holds [client_sock], the socket object that [reopen_with] hands to
    the existing handler; see [loop_exits] for what that thread does
    next. *)
Definition negotiate_client_id (srv : Server) (client_sock : socket)
           (client_addr : address) (arrived : list Message) : outcome :=
  let client := ClientHandler_init client_sock client_addr arrived in
  let r := length (objects srv) in
  let srv1 := with_objects srv (objects srv ++ [client]) in
  if is_None (client_id client) then
    Done (with_objects srv1
            (update (objects srv1) r
                    (with_base client (stop false (base client)))))
  else if negb (hashable (client_id client)) then Raised TypeError srv1
  else
    match dir_find (client_id client) (conns srv1) with
    | Some e =>
        let srv2 :=
          with_objects srv1
            (update (objects srv1) r
                    (with_base client (stop false (base client)))) in
        match nth_error (objects srv2) e with
        | Some existing =>
            let (existing', err) :=
              reopen_with existing client_sock client_addr in
            let srv3 :=
              with_objects srv2 (update (objects srv2) e existing') in
            match err with
            | Some x => Raised x srv3
            | None => Done srv3
            end
        | None => Raised KeyError srv2
        end
    | None => Done (with_conns srv1 (dir_set (client_id client) r (conns srv1)))
    end.

(** The end of [__main_loop] (connection.py 186-200) for the handler
    behind [r]: its loop thread finds the run flag cleared, leaves the
    [while], shuts the socket of the handler down, closes it and ends.
    After [stop(blocking=False)] this happens as soon as the thread
    comes back from the step it is in, at the latest when its [recv]
    times out. *)
Definition loop_exits (srv : Server) (r : ref) : Server :=
  match nth_error (objects srv) r with
  | Some c =>
      if Connection.should_run (base c) || negb (running (base c)) then srv
      else
        with_closed
          (with_objects srv
             (update (objects srv) r
                     (with_base c (set_thread_alive (base c) false))))
          (fd (sock (base c)) :: closed srv)
  | None => srv
  end.

(** Every reference of the directory points into the store. *)
Definition well_formed (srv : Server) : Prop :=
  Forall (fun kr => snd kr < length (objects srv)) (conns srv).

(** The number of directory entries for a key. *)
Definition entries_for (k : json) (d : list (json * ref)) : nat :=
  length (filter (fun kr => key_eq (fst kr) k) d).

End Server.

(* ================================================================== *)
(** * client.py *)

Module Client.
Import Json Connection Py.

(** ** [class ClientState] *)

Definition STATE_UNDEFINED : Z := 0x0000.
Definition STATE_NEEDS_INIT : Z := 0x0001.
Definition STATE_OK : Z := 0x0002.
Definition STATE_RUNNING : Z := 0x0004.
Definition STATE_NOT_CONNECTED : Z := 0x0008.
Definition STATE_CONNECTING : Z := 0x0010.
Definition STATE_CONNECTED : Z := 0x0020.
Definition STATE_CONNECT_FAILED : Z := 0x0040.
Definition STATE_RECONNECTING : Z := 0x0080.
Definition STATE_RECONNECT_FAILED : Z := 0x0100.
Definition STATE_DISCONNECTING : Z := 0x0200.
Definition STATE_DISCONNECT_FAILED : Z := 0x0400.
Definition STATE_UNEXP_CLOSED : Z := 0x0800.

(** [state & flag] as a condition *)
Definition has_flag (state flag : Z) : bool :=
  negb (Z.land state flag =? 0)%Z.

(** The events handed to [__trigger], in order. *)
Inductive event : Type :=
| EvStateChange (frm to : Z)
| EvConnect (client_id : json)
| EvReconnect (client_id : json)
| EvDisconnect
| EvServerShutdown.

(** ** [class Client] *)

Record Client : Type := {
  attempt_reconnect : bool;
  client_id_ : json;
  address_ : json;
  port_ : json;
  interface_ : json;
  bind_port_ : json;
  conn : option ConnectionHandler;
  state : Z;
  recv_consumer_should_run : bool;
  recv_consumer_started : bool;
  fired : list event;
  log : list string
}.

Definition Client_init (attempt_reconnect : bool) : Client :=
  {| attempt_reconnect := attempt_reconnect;
     client_id_ := JNull; address_ := JNull; port_ := JNull;
     interface_ := JNull; bind_port_ := JNull;
     conn := None;
     state := Z.lor STATE_NEEDS_INIT STATE_NOT_CONNECTED;
     recv_consumer_should_run := false;
     recv_consumer_started := false;
     fired := []; log := [] |}.

Definition with_state (c : Client) (s : Z) (ev : list event) : Client :=
  {| attempt_reconnect := attempt_reconnect c;
     client_id_ := client_id_ c; address_ := address_ c; port_ := port_ c;
     interface_ := interface_ c; bind_port_ := bind_port_ c;
     conn := conn c; state := s;
     recv_consumer_should_run := recv_consumer_should_run c;
     recv_consumer_started := recv_consumer_started c;
     fired := fired c ++ ev; log := log c |}.

Definition with_conn (c : Client) (h : option ConnectionHandler) : Client :=
  {| attempt_reconnect := attempt_reconnect c;
     client_id_ := client_id_ c; address_ := address_ c; port_ := port_ c;
     interface_ := interface_ c; bind_port_ := bind_port_ c;
     conn := h; state := state c;
     recv_consumer_should_run := recv_consumer_should_run c;
     recv_consumer_started := recv_consumer_started c;
     fired := fired c; log := log c |}.

Definition with_log (c : Client) (msg : string) : Client :=
  {| attempt_reconnect := attempt_reconnect c;
     client_id_ := client_id_ c; address_ := address_ c; port_ := port_ c;
     interface_ := interface_ c; bind_port_ := bind_port_ c;
     conn := conn c; state := state c;
     recv_consumer_should_run := recv_consumer_should_run c;
     recv_consumer_started := recv_consumer_started c;
     fired := fired c; log := log c ++ [msg] |}.

Definition with_fields (c : Client) (cid addr if_ : json) : Client :=
  {| attempt_reconnect := attempt_reconnect c;
     client_id_ := cid; address_ := addr; port_ := port_ c;
     interface_ := if_; bind_port_ := bind_port_ c;
     conn := conn c; state := state c;
     recv_consumer_should_run := recv_consumer_should_run c;
     recv_consumer_started := recv_consumer_started c;
     fired := fired c; log := log c |}.

Definition with_ports (c : Client) (p bp : json) : Client :=
  {| attempt_reconnect := attempt_reconnect c;
     client_id_ := client_id_ c; address_ := address_ c; port_ := p;
     interface_ := interface_ c; bind_port_ := bp;
     conn := conn c; state := state c;
     recv_consumer_should_run := recv_consumer_should_run c;
     recv_consumer_started := recv_consumer_started c;
     fired := fired c; log := log c |}.

Definition with_consumer (c : Client) (run started reconnect : bool)
  : Client :=
  {| attempt_reconnect := reconnect;
     client_id_ := client_id_ c; address_ := address_ c; port_ := port_ c;
     interface_ := interface_ c; bind_port_ := bind_port_ c;
     conn := conn c; state := state c;
     recv_consumer_should_run := run;
     recv_consumer_started := started;
     fired := fired c; log := log c |}.

(** [__trigger(event, ...)] *)
Definition trigger (c : Client) (ev : event) : Client :=
  with_state c (state c) [ev].

(** [__set_state]: writing the current value does nothing; a change is
    followed by the [statechange] event. *)
Definition set_state (c : Client) (s : Z) : Client :=
  if (state c =? s)%Z then c
  else with_state c s [EvStateChange (state c) s].

(** [__check_inited] *)
Definition check_inited (c : Client) : Client :=
  if negb (is_None (address_ c)) && negb (is_None (port_ c))
     && negb (is_None (client_id_ c))
  then set_state c (Z.land (state c) (Z.lnot STATE_NEEDS_INIT))
  else set_state c (Z.lor (state c) STATE_NEEDS_INIT).

(** The properties.  A setter refuses a client whose status has
    [STATE_RUNNING]. *)
Definition address (c : Client) : json := address_ c.

Definition set_address (c : Client) (a : json) : Client + exn :=
  if has_flag (state c) STATE_RUNNING then inr PyException
  else inl (check_inited (with_fields c (client_id_ c) a (interface_ c))).

Definition interface (c : Client) : json := interface_ c.

Definition set_interface (c : Client) (i : json) : Client + exn :=
  if has_flag (state c) STATE_RUNNING then inr PyException
  else inl (check_inited (with_fields c (client_id_ c) (address_ c) i)).

(** The [client_id] getter: [return self.__address] *)
Definition client_id (c : Client) : json := address_ c.

Definition set_client_id (c : Client) (cid : json) : Client + exn :=
  if has_flag (state c) STATE_RUNNING then inr PyException
  else inl (check_inited (with_fields c cid (address_ c) (interface_ c))).

Definition port (c : Client) : json := port_ c.

(** The [port] and [bind_port] setters, for an [int] argument
    ([int(port)] is then the argument). *)
Definition set_port (c : Client) (p : Z) : Client + exn :=
  if has_flag (state c) STATE_RUNNING then inr PyException
  else inl (check_inited (with_ports c (JInt p) (bind_port_ c))).

Definition bind_port (c : Client) : json := bind_port_ c.

Definition set_bind_port (c : Client) (p : Z) : Client + exn :=
  if has_flag (state c) STATE_RUNNING then inr PyException
  else inl (check_inited (with_ports c (port_ c) (JInt p))).

(** ** [connect]

    What the network does during one bind+connect+start cycle: the socket
    the new handler gets, the exception (if any) of [bind], of [connect],
    and whether the loop thread could be started. *)
Record cycle : Type := {
  new_socket : socket;
  bind_raises : option exn;
  connect_raises : option exn;
  start_ok : bool
}.

Definition negotiation (c : Client) : Message :=
  {| subject := JStr (of_string "negotiation");
     payload := JObj [(of_string "id", client_id_ c)] |}.

(** [__fail_connect] *)
Definition fail_connect (unexpected : bool) (c : Client) : Client :=
  with_conn
    (set_state c
       (Z.lor (Z.lor (STATE_UNEXP_CLOSED * (if unexpected then 1 else 0))
                     STATE_CONNECT_FAILED)
              STATE_NOT_CONNECTED))
    None.

(** [bind] is called only when both a bind port and an interface are
    set. *)
Definition binds (c : Client) : bool :=
  negb (is_None (bind_port_ c)) && negb (is_None (interface_ c)).

Definition handler_of (c : Client) (s : socket) : ConnectionHandler :=
  match conn c with
  | Some h => h
  | None => ConnectionHandler_init s
  end.

(** The part of [connect] after a connect that succeeded or was refused:
    start the handler, queue the negotiation message, publish. *)
Definition connect_finish (w : cycle) (c : Client) : bool * Client :=
  if start_ok w then
    let h := send (start (handler_of c (new_socket w))) (negotiation c) in
    let c1 := with_conn c (Some h) in
    let c2 := with_log c1 "Connected successfully" in
    let c3 := set_state c2 (Z.lor STATE_OK STATE_CONNECTED) in
    let c4 := with_consumer c3 true true (attempt_reconnect c3) in
    (true, trigger c4 (EvConnect (client_id_ c4)))
  else
    (false,
     fail_connect false
       (with_log c "ConnectionHandler.start failed with error:")).

Definition connect (w : cycle) (c : Client) : (bool + exn) * Client :=
  if is_None (address_ c) then (inr AttributeError, c)
  else if is_None (port_ c) then (inr AttributeError, c)
  else if is_None (client_id_ c) then (inr AttributeError, c)
  else if has_flag (state c) STATE_NEEDS_INIT then
    (inl false, with_log c "Client has some un-initialized fields")
  else if negb (has_flag (state c) STATE_NOT_CONNECTED) then
    (inl false, with_log c "Client is already connected")
  else
    let c1 := set_state c (Z.lor STATE_OK STATE_CONNECTING) in
    let c2 := with_conn c1 (Some (ConnectionHandler_init (new_socket w))) in
    match (if binds c2 then bind_raises w else None) with
    | Some SocketTimeout =>
        (inl false,
         fail_connect true
           (with_log c2 "Socket connection timed out during interface bind"))
    | Some _ =>
        (inl false,
         fail_connect false (with_log c2 "socket.bind failed with error:"))
    | None =>
        match connect_raises w with
        | Some SocketTimeout =>
            (inl false,
             fail_connect true
               (with_log c2
                  "Socket connection timed out during initial connect"))
        | Some ConnectionRefusedError =>
            let (b, c3) :=
              connect_finish w
                (with_log c2 "Connection refused. Reconnecting...") in
            (inl b, c3)
        | Some _ =>
            (inl false,
             fail_connect false
               (with_log c2 "socket.connect failed with error:"))
        | None =>
            let (b, c3) := connect_finish w c2 in (inl b, c3)
        end
    end.

(** ** Reconnection *)

(** [__reconnect]: one fresh cycle; any failure gives [False]. *)
Definition reconnect (w : cycle) (c : Client) : bool * Client :=
  let c1 := with_conn c (Some (ConnectionHandler_init (new_socket w))) in
  match (if binds c1 then bind_raises w else None) with
  | Some _ => (false, c1)
  | None =>
      match connect_raises w with
      | Some _ => (false, c1)
      | None =>
          if start_ok w then
            let h :=
              send (start (handler_of c1 (new_socket w))) (negotiation c1) in
            (true,
             with_consumer (with_conn c1 (Some h)) true
                           (recv_consumer_started c1)
                           (attempt_reconnect c1))
          else (false, c1)
      end
  end.

(** One turn of the loop of [__reconnect_wrapper]: whether
    [attempt_reconnect] is cleared from outside while the wait lasts, and
    the cycle that follows the wait. *)
Record attempt : Type := {
  abort_in_wait : bool;
  network : cycle
}.

(** How the wrapper ended: [Some b] is its return value, [None] means the
    script is over and the loop still turns. *)
Fixpoint reconnect_loop (script : list attempt) (sleeptime : Q)
         (c : Client) (waits : list Q)
  : option bool * Client * list Q :=
  match script with
  | [] => (None, c, waits)
  | a :: script' =>
      let waits' := waits ++ [sleeptime] in
      if abort_in_wait a then
        (Some false,
         set_state
           (with_log
              (with_consumer c (recv_consumer_should_run c)
                             (recv_consumer_started c) false)
              "No longer attempting reconnect.")
           (Z.lor STATE_RECONNECT_FAILED STATE_NOT_CONNECTED),
         waits')
      else
        let sleeptime' := Qmin (sleeptime * 2) 15 in
        let (ok, c') := reconnect (network a) c in
        if ok then
          (Some true,
           with_log
             (trigger (set_state c' (Z.lor STATE_OK STATE_CONNECTED))
                      (EvReconnect (client_id_ c')))
             "Successfully reconnected",
           waits')
        else reconnect_loop script' sleeptime' c' waits'
  end.

(** [__reconnect_wrapper]; the third component lists the [sleeptime] of
    every wait, in order. *)
Definition reconnect_wrapper (script : list attempt) (c : Client)
  : option bool * Client * list Q :=
  if negb (attempt_reconnect c) then (Some false, c, [])
  else
    reconnect_loop script (1 # 10)
      (set_state c
         (Z.lor (Z.lor STATE_RECONNECTING STATE_CONNECTING) STATE_OK))
      [].

End Client.

Unset Implicit Arguments.

(* ================================================================== *)
(** * The messages and socket scripts the properties speak of *)

Module Valid.
Import Json JsonDecoder Connection.

(** A string the codec carries unchanged. *)
Definition wf_string (s : text) : Prop :=
  valid_text s /\ no_surrogate_pair s.

(** What can follow a value inside a flat [dict]: a comma or the closing
    brace. *)
Definition closes (rest : text) : Prop :=
  match rest with
  | c :: _ => c = 44%N \/ c = 125%N
  | [] => False
  end.

Section WithRepr.
Variable float_repr : pyfloat -> text.

(** A float the codec carries unchanged.  [NaN] is left out: whether it
    equals the [NaN] that is read back is a matter of object identity.
    For the others, the text the encoder writes is printable, without
    spaces, and the scanner reads it back as the same float; for a
    finite float this is what [float.__repr__] is built for (the
    shortest numeral that reads back as the same value). *)
Definition float_reads_back (f : pyfloat) : Prop :=
  f <> S754_nan
  /\ Forall (fun c => (33 <= c <= 126)%N) (floatstr float_repr f)
  /\ forall fuel rest,
       closes rest ->
       scan_once (S fuel) (floatstr float_repr f ++ rest)
       = Scanned (JFloat f) rest.

(** A payload value of the kinds the wire format is specified for:
    string, number, boolean. *)
Definition scalar (v : json) : Prop :=
  match v with
  | JStr s => wf_string s
  | JInt _ | JBool _ => True
  | JFloat f => float_reads_back f
  | _ => False
  end.

(** The items of a [dict] with string keys and scalar values; the keys
    of a [dict] are pairwise different. *)
Definition flat_dict (l : list (text * json)) : Prop :=
  NoDup (List.map fst l) /\
  Forall (fun kv => wf_string (fst kv) /\ scalar (snd kv)) l.

(** A message with a string subject and a flat payload. *)
Definition wire_message (m : Message) : Prop :=
  match subject m, payload m with
  | JStr s, JObj l => wf_string s /\ flat_dict l
  | _, _ => False
  end.

End WithRepr.

(** The same without the condition on surrogates: any Python strings. *)
Definition any_scalar (v : json) : Prop :=
  match v with
  | JStr s => valid_text s
  | JInt _ | JBool _ => True
  | _ => False
  end.

Definition any_string_message (m : Message) : Prop :=
  match subject m, payload m with
  | JStr s, JObj l =>
      valid_text s /\ NoDup (List.map fst l) /\
      Forall (fun kv => valid_text (fst kv) /\ any_scalar (snd kv)) l
  | _, _ => False
  end.

(** The next [n] calls of [recv] hand over data. *)
Fixpoint steady (n : nat) (script : list recv_event) : Prop :=
  match n with
  | O => True
  | S k =>
      match script with
      | RecvData _ :: r => steady k r
      | _ => False
      end
  end.

(** The next [n] calls of [send] take data. *)
Fixpoint accepting (n : nat) (script : list send_event) : Prop :=
  match n with
  | O => True
  | S k =>
      match script with
      | SendAccept _ :: r => accepting k r
      | _ => False
      end
  end.

End Valid.

(* ================================================================== *)
(** * Runs of several steps *)

Module Runs.
Import Json Connection.

Section WithRepr.
Variable float_repr : pyfloat -> text.

(** [n] send steps in a row, stopping at the first that does not
    return [True], as [__main_loop] does. *)
Fixpoint send_steps (n : nat) (h : ConnectionHandler)
  : tick * ConnectionHandler :=
  match n with
  | O => (Return true, h)
  | S k =>
      match send_queue_tick float_repr h with
      | (Return true, h') => send_steps k h'
      | r => r
      end
  end.

(** The frames of a list of messages, one after the other. *)
Fixpoint frames (ms : list Message) : option (list byte) :=
  match ms with
  | [] => Some []
  | m :: r =>
      match encode float_repr m, frames r with
      | Some f, Some fs => Some (f ++ fs)
      | _, _ => None
      end
  end.

End WithRepr.

(** As the specification words the header decoding: only the null bytes
    at the end, the padding, are stripped. *)
Fixpoint strip_trailing_nulls (s : text) : text :=
  match s with
  | [] => []
  | c :: r =>
      match strip_trailing_nulls r with
      | [] => if (c =? 0)%N then [] else [c]
      | r' => c :: r'
      end
  end.

Definition parse_header_trailing (raw : list byte) : header_result :=
  match Utf8.decode raw with
  | None => HeaderCrash UnboundLocalError
  | Some header =>
      match JsonDecoder.loads (strip_trailing_nulls header) with
      | JsonDecoder.Scanned hd _ =>
          match subscript hd (of_string "length"),
                subscript hd (of_string "subject") with
          | Some msglen, Some subj => HeaderOk msglen subj
          | _, _ => HeaderMalformed
          end
      | _ => HeaderMalformed
      end
  end.

End Runs.


(* ================================================================== *)
(** * The states of the server and of the client the properties speak of *)

Module ServerInv.
Import Json Connection Py Server.

(** The keys of a [dict] are pairwise different. *)
Fixpoint distinct_keys (d : list (json * ref)) : Prop :=
  match d with
  | [] => True
  | (k, _) :: r =>
      Forall (fun kr => key_eq k (fst kr) = false) r /\ distinct_keys r
  end.

(** The states of a server: the directory is a [dict] whose references
    point into the store. *)
Definition consistent (srv : Server) : Prop :=
  well_formed srv /\ distinct_keys (conns srv).

(** As the specification words the reconnection: whenever the id is in
    the directory, the existing handler ends up on the new socket. *)
Definition reopens_always : Prop :=
  forall srv client_sock client_addr arrived s e,
    consistent srv ->
    client_id (ClientHandler_init client_sock client_addr arrived) = JStr s ->
    dir_find (JStr s) (conns srv) = Some e ->
    exists h,
      nth_error
        (objects (server_of (negotiate_client_id srv client_sock
                                                 client_addr arrived))) e
      = Some h
      /\ sock (base h) = client_sock.

End ServerInv.

Module ClientInv.
Import Json Connection Py Client.

(** Address, port and client id are set. *)
Definition configured (c : Client) : Prop :=
  is_None (address_ c) = false /\ is_None (port_ c) = false
  /\ is_None (client_id_ c) = false.

(** [connect] gets past its checks. *)
Definition ready (c : Client) : Prop :=
  configured c
  /\ has_flag (state c) STATE_NEEDS_INIT = false
  /\ has_flag (state c) STATE_NOT_CONNECTED = true.

Definition is_timeout (e : exn) : bool :=
  match e with SocketTimeout => true | _ => false end.

(** connect-failed | not-connected, plus unexpected-closure for a
    timeout *)
Definition failed_status (timeout : bool) : Z :=
  if timeout
  then Z.lor STATE_UNEXP_CLOSED
             (Z.lor STATE_CONNECT_FAILED STATE_NOT_CONNECTED)
  else Z.lor STATE_CONNECT_FAILED STATE_NOT_CONNECTED.

(** The bind step is skipped or succeeds. *)
Definition bind_passes (w : cycle) (c : Client) : Prop :=
  binds c = false \/ bind_raises w = None.

(** A reconnect attempt that is not aborted and whose connect or start
    fails. *)
Definition failed_attempt (a : attempt) : Prop :=
  abort_in_wait a = false
  /\ (connect_raises (network a) <> None \/ start_ok (network a) = false).

(** [min(0.1 * 2^N, 15)] *)
Definition backoff (N : nat) : Q :=
  Qmin ((1 # 10) * inject_Z (2 ^ Z.of_nat N)) 15.

(** As the specification words the preconditions of [connect]: a client
    with an unset field gets a failure result, not an exception. *)
Definition unset_field_returns_failure : Prop :=
  forall w c,
    is_None (address_ c) || is_None (port_ c) || is_None (client_id_ c)
    = true ->
    exists c', connect w c = (inl false, c').

(** As the specification words the failures of [connect]: a refused
    connection makes it return failure. *)
Definition refusal_returns_failure : Prop :=
  forall w c,
    ready c -> bind_passes w c ->
    connect_raises w = Some ConnectionRefusedError ->
    exists c', connect w c = (inl false, c')
               /\ state c' = failed_status false /\ conn c' = None.

End ClientInv.

(* ================================================================== *)
(** * Concrete messages, sockets and scenarios *)

Module Examples.
Import Json Connection Valid Runs.

(** No float occurs in the examples. *)
Definition no_floats : pyfloat -> text := fun _ => [].

Definition quiet_socket (n : nat) : socket :=
  {| fd := n; incoming := []; recv_script := []; send_script := [];
     wire := [] |}.

(** The float 0.5, and a stand-in for [float.__repr__] that is right
    on it. *)
Definition half : pyfloat := S754_finite false 4503599627370496 (-53).

Definition repr_half : pyfloat -> text := fun _ => of_string "0.5".

Definition hello : Message :=
  {| subject := JStr (of_string "greeting");
     payload := JObj [(of_string "text", JStr (of_string "hello"));
                      (of_string "count", JInt 3);
                      (of_string "ratio", JFloat half);
                      (of_string "urgent", JBool false)] |}.

Definition hello_frame : list byte := Eval vm_compute in
    match encode repr_half hello with Some f => f | None => [] end.

(** A handler about to read the frame of [hello], handed over in pieces
    of at most 10 bytes. *)
Definition reader : ConnectionHandler :=
  ConnectionHandler_init
    {| fd := 1; incoming := hello_frame;
       recv_script := repeat (RecvData 9) (length hello_frame);
       send_script := []; wire := [] |}.

(** A subject made of a high surrogate followed by a low surrogate. *)
Definition paired : Message :=
  {| subject := JStr [0xD83D; 0xDE00]%N; payload := JObj [] |}.

Definition paired_frame : list byte := Eval vm_compute in
    match encode no_floats paired with Some f => f | None => [] end.

Definition paired_reader : ConnectionHandler :=
  ConnectionHandler_init
    {| fd := 1; incoming := paired_frame;
       recv_script := repeat (RecvData 63) (length paired_frame);
       send_script := []; wire := [] |}.

(** A subject of 36 letters: with a one-digit length the header JSON has
    exactly 64 bytes; one letter more and it has 65. *)
Definition subject36 : text := repeat 97%N 36.
Definition subject37 : text := repeat 97%N 37.

(** A header block with a null byte in front of the JSON. *)
Definition leading_null_block : list byte := Eval vm_compute in
    ljust HEADER_LEN_BYTES x00
      (x00 :: match Utf8.encode
                      (header_json no_floats 2 (JStr (of_string "s"))) with
              | Some hb => hb
              | None => []
              end).

(** The same header with null bytes in the middle and without. *)
Definition plain_block : list byte := Eval vm_compute in
    match pack_header no_floats 2 (JStr (of_string "s")) with
    | inl h => h
    | inr _ => []
    end.

Definition holed_block : list byte := Eval vm_compute in (firstn 10 plain_block ++ [x00; x00] ++ skipn 10 plain_block).

(** A handler with three messages to send over a socket that takes 7
    bytes at a time. *)
Definition m1 : Message :=
  {| subject := JStr (of_string "a"); payload := JObj [] |}.
Definition m2 : Message :=
  {| subject := JStr (of_string "b");
     payload := JObj [(of_string "n", JInt 2)] |}.
Definition m3 : Message :=
  {| subject := JStr (of_string "c");
     payload := JObj [(of_string "ok", JBool true)] |}.

Definition three_frames : list byte := Eval vm_compute in
    match frames no_floats [m1; m2; m3] with Some f => f | None => [] end.

Definition writer : ConnectionHandler :=
  ConnectionHandler_init
    {| fd := 2; incoming := []; recv_script := [];
       send_script := repeat (SendAccept 6) (length three_frames);
       wire := [] |}.

(** A handler with [m2] to send over a socket that takes the 64 bytes of
    the header in one write and 5 bytes of the body in the next, and
    then returns zero. *)
Definition stalling_writer : ConnectionHandler :=
  send (ConnectionHandler_init
          {| fd := 3; incoming := []; recv_script := [];
             send_script := [SendAccept 63; SendAccept 4; SendZero];
             wire := [] |})
       m2.

End Examples.

Module Scenarios.
Import Json Connection Py Server Client Examples.

(** ** Server *)

Definition peer : Server.address := (of_string "10.0.0.7", 50000%Z).

Definition negotiation_of (id : json) : Message :=
  {| subject := JStr (of_string "negotiation");
     payload := JObj [(of_string "id", id)] |}.

Definition abc : json := JStr (of_string "abc123").

(** A server that has accepted one client, [abc123], on socket 1; the
    handler of that client is running. *)
Definition one_client : Server.Server :=
  server_of
    (negotiate_client_id Server_init (quiet_socket 1) peer
                         [negotiation_of abc]).

(** The same server once the handler in its directory has been given
    two messages to send and the connection has dropped: the loop of
    the handler has stopped the handler, closed socket 1 and ended. *)
Definition one_client_stopped : Server.Server :=
  match objects one_client with
  | c :: r =>
      loop_exits
        (with_objects one_client
           (with_base c (stop false (send (send (base c) m1) m2)) :: r))
        0
  | [] => one_client
  end.

(** That server after [abc123] has connected again, on socket 2. *)
Definition reconnected : Server.Server :=
  server_of
    (negotiate_client_id one_client_stopped (quiet_socket 2) peer
                         [negotiation_of abc]).

(** And after the loop of the handler that was made for that connection
    (the second object of the store) has ended. *)
Definition reconnected_later : Server.Server := loop_exits reconnected 1.

(** [abc123] connects again, on socket 2, while its first handler is
    still running. *)
Definition early_reconnect : Server.outcome :=
  negotiate_client_id one_client (quiet_socket 2) peer [negotiation_of abc].

Definition early_reconnect_later : Server.Server :=
  loop_exits (server_of early_reconnect) 1.

(** ** Client *)

Definition or_else (r : Client.Client + exn) (c : Client.Client)
  : Client.Client :=
  match r with inl c' => c' | inr _ => c end.

(** A client with its address, port and client id set. *)
Definition set_up : Client.Client :=
  let c0 := Client_init true in
  let c1 := or_else (set_address c0 (JStr (of_string "127.0.0.1"))) c0 in
  let c2 := or_else (set_port c1 30000) c1 in
  or_else (set_client_id c2 abc) c2.

Definition all_fine : cycle :=
  {| new_socket := quiet_socket 3; bind_raises := None;
     connect_raises := None; start_ok := true |}.

Definition refused : cycle :=
  {| new_socket := quiet_socket 3; bind_raises := None;
     connect_raises := Some ConnectionRefusedError; start_ok := true |}.

Definition timed_out : cycle :=
  {| new_socket := quiet_socket 3; bind_raises := None;
     connect_raises := Some SocketTimeout; start_ok := true |}.

(** The client after a successful [connect]. *)
Definition connected : Client.Client := snd (connect all_fine set_up).

(** Nine reconnect attempts against a server that is down. *)
Definition server_down : list attempt :=
  repeat {| abort_in_wait := false; network := refused |} 9.

End Scenarios.

(* ================================================================== *)
(** * Auxiliary definitions of the proofs *)

Module Aux.
Import Json JsonDecoder Connection Client Valid.

(** Checking a decidable property of all numbers below a bound by
    running it. *)
Fixpoint all_from (n : nat) (start : N) (p : N -> bool) : bool :=
  match n with
  | O => true
  | S k => p start && all_from k (N.succ start) p
  end.

Definition all_below (bound : N) (p : N -> bool) : bool :=
  all_from (N.to_nat bound) 0%N p.

(** The bytes of an ASCII text are its code points. *)
Definition ascii_bytes (s : text) : list byte := List.map Utf8.b s.

(** Four hexadecimal digits read back. *)
Definition hex4_reads (n : N) : bool :=
  match hex4 n with
  | [h1; h2; h3; h4] =>
      match decode_hex4 h1 h2 h3 h4 with
      | Some m => (m =? n)%N
      | None => false
      end
  | _ => false
  end.

(** The surrogate pair of a code point above the BMP. *)
Definition high_of (c : N) : N :=
  N.lor 0xD800 (N.land (N.shiftr (c - 0x10000) 10) 0x3FF).

Definition low_of (c : N) : N :=
  N.lor 0xDC00 (N.land (c - 0x10000) 0x3FF).

Definition pair_joins (n : N) : bool :=
  let c := (n + 0x10000)%N in
  is_high_surrogate (high_of c) && is_low_surrogate (low_of c)
  && (join_surrogates (high_of c) (low_of c) =? c)%N.

(** The text after a lone high surrogate does not start with the escape
    of a low surrogate, nor with a broken [\u] escape. *)
Definition no_pair_ahead (r : text) : Prop :=
  match r with
  | b1 :: u1 :: r3 =>
      if ((b1 =? 92) && (u1 =? 117))%N then
        match r3 with
        | g1 :: g2 :: g3 :: g4 :: _ =>
            match decode_hex4 g1 g2 g3 g4 with
            | Some lo => is_low_surrogate lo = false
            | None => False
            end
        | _ => False
        end
      else True
  | _ => True
  end.

Definition escaped (s : text) : text := flat_map escape_char s.

(** What the encoder writes is printable ASCII. *)
Definition printable (c : codepoint) : Prop := (32 <= c <= 126)%N.

(** The text after a numeral does not continue it. *)
Definition ends_number (rest : text) : Prop :=
  match rest with
  | [] => True
  | c :: _ => is_digit c = false /\ c <> 46%N /\ c <> 101%N /\ c <> 69%N
  end.

Section WithRepr.
Variable fr : pyfloat -> text.

(** The items of an encoded [dict], between the braces. *)
Fixpoint items_text (l : list (text * json)) : text :=
  match l with
  | [] => []
  | [(k, x)] => encode_basestring_ascii k ++ key_separator ++ dumps fr x
  | (k, x) :: r =>
      encode_basestring_ascii k ++ key_separator ++ dumps fr x
      ++ item_separator ++ items_text r
  end.

Definition item_ok (kv : text * json) : Prop :=
  wf_string (fst kv) /\ scalar fr (snd kv).

End WithRepr.

(** The [dict] of a header with a string subject. *)
Definition header_dict (len : nat) (s : text) : list (text * json) :=
  [(of_string "length", JInt (Z.of_nat len));
   (of_string "subject", JStr s)].

(** The result of the header decoding, from the result of the parser. *)
Definition header_of (v : scan json) : header_result :=
  match v with
  | Scanned hd _ =>
      match subscript hd (of_string "length"),
            subscript hd (of_string "subject") with
      | Some msglen, Some subj => HeaderOk msglen subj
      | _, _ => HeaderMalformed
      end
  | _ => HeaderMalformed
  end.

(** [connect] past its checks, as one expression. *)
Definition connect_body (w : cycle) (c : Client) : (bool + exn) * Client :=
  let c1 := set_state c (Z.lor STATE_OK STATE_CONNECTING) in
  let c2 := with_conn c1 (Some (ConnectionHandler_init (new_socket w))) in
  match (if binds c2 then bind_raises w else None) with
  | Some SocketTimeout =>
      (inl false,
       fail_connect true
         (with_log c2 "Socket connection timed out during interface bind"))
  | Some _ =>
      (inl false,
       fail_connect false (with_log c2 "socket.bind failed with error:"))
  | None =>
      match connect_raises w with
      | Some SocketTimeout =>
          (inl false,
           fail_connect true
             (with_log c2
                "Socket connection timed out during initial connect"))
      | Some ConnectionRefusedError =>
          let (b, c3) :=
            connect_finish w
              (with_log c2 "Connection refused. Reconnecting...") in
          (inl b, c3)
      | Some _ =>
          (inl false,
           fail_connect false
             (with_log c2 "socket.connect failed with error:"))
      | None =>
          let (b, c3) := connect_finish w c2 in (inl b, c3)
      end
  end.

(** The sleep time of the wait of index [N], started from [s0]. *)
Fixpoint sleep_seq (s0 : Q) (N : nat) : Q :=
  match N with
  | O => s0
  | S k => sleep_seq (Qmin (s0 * 2) 15)%Q k
  end.

End Aux.

(* ================================================================== *)
(** * connection.py: the loop of a handler *)

Module Loop.
Import Json Connection.

(** How a run of [__main_loop] ended: the loop saw [should_run] cleared,
    shut the socket down and closed it; or an exception left a step and
    ended the thread, the socket left as it was; or the loop still turns
    after the given number of turns. *)
Inductive loop_end : Type :=
| Closed (h : ConnectionHandler)
| Died (e : exn) (h : ConnectionHandler)
| Turning (h : ConnectionHandler).

Definition handler_at (r : loop_end) : ConnectionHandler :=
  match r with Closed h | Died _ h | Turning h => h end.

Section WithRepr.
Variable float_repr : pyfloat -> text.

(** [__main_loop], left to itself: no other thread touches the handler
    while it turns. *)
Fixpoint main_loop (turns : nat) (h : ConnectionHandler) : loop_end :=
  if should_run h then
    match turns with
    | O => Turning h
    | S k =>
        match recv_queue_tick h with
        | (Raise e, h1) => Died e (set_thread_alive h1 false)
        | (Return false, h1) => main_loop k (stop false h1)
        | (Return true, h1) =>
            match send_queue_tick float_repr h1 with
            | (Raise e, h2) => Died e (set_thread_alive h2 false)
            | (Return false, h2) => main_loop k (stop false h2)
            | (Return true, h2) => main_loop k h2
            end
        end
    end
  else Closed (set_thread_alive h false).

End WithRepr.

(** [n] receive steps in a row, stopping at the first that does not
    return [True]. *)
Fixpoint recv_steps (n : nat) (h : ConnectionHandler)
  : tick * ConnectionHandler :=
  match n with
  | O => (Return true, h)
  | S k =>
      match recv_queue_tick h with
      | (Return true, h') => recv_steps k h'
      | r => r
      end
  end.

(** The peer's end of a connection: what one side has written is what
    the other side will read. *)
Definition plug (writer reader : ConnectionHandler) (script : list recv_event)
  : ConnectionHandler :=
  set_sock_field reader
    {| fd := fd (sock reader);
       incoming := incoming (sock reader) ++ wire (sock writer);
       recv_script := script;
       send_script := send_script (sock reader);
       wire := wire (sock reader) |}.

(** [l2] is what is left of [l1] after some elements were taken from its
    front. *)
Definition rest_of {A} (l1 l2 : list A) : Prop := exists taken, l1 = taken ++ l2.

(** The fields a receive step leaves alone, and the side it works on. *)
Definition recv_side_only (h h' : ConnectionHandler) : Prop :=
  outbound_message_queue h' = outbound_message_queue h
  /\ should_run h' = should_run h
  /\ thread_alive h' = thread_alive h
  /\ wire (sock h') = wire (sock h)
  /\ send_script (sock h') = send_script (sock h)
  /\ rest_of (incoming (sock h)) (incoming (sock h'))
  /\ rest_of (recv_script (sock h)) (recv_script (sock h')).

(** [l2] is [l1] with some elements added at its end. *)
Definition grows {A} (l1 l2 : list A) : Prop := exists added, l2 = l1 ++ added.

(** The fields a send step leaves alone, and the side it works on. *)
Definition send_side_only (h h' : ConnectionHandler) : Prop :=
  inbound_message_queue h' = inbound_message_queue h
  /\ should_run h' = should_run h
  /\ thread_alive h' = thread_alive h
  /\ incoming (sock h') = incoming (sock h)
  /\ recv_script (sock h') = recv_script (sock h)
  /\ grows (wire (sock h)) (wire (sock h'))
  /\ rest_of (send_script (sock h)) (send_script (sock h')).

End Loop.

(* ================================================================== *)
(** * More streams and handlers to run the steps on *)

Module StepExamples.
Import Json Connection Valid Runs Examples Loop.

(** A header block whose ['length'] is the string ['5']. *)
Definition string_length_block : list byte := Eval vm_compute in
  ljust HEADER_LEN_BYTES x00
    (match Utf8.encode
             (dumps no_floats
                (JObj [(of_string "length", JStr (of_string "5"));
                       (of_string "subject", JStr (of_string "s"))])) with
     | Some hb => hb
     | None => []
     end).

(** 64 bytes that are no JSON. *)
Definition noise_block : list byte := Eval vm_compute in
  repeat (Utf8.b 120) HEADER_LEN_BYTES.

(** A started handler that will read [inc] under [script]. *)
Definition listening (inc : list byte) (script : list recv_event)
  : ConnectionHandler :=
  start (ConnectionHandler_init
           {| fd := 1; incoming := inc; recv_script := script;
              send_script := []; wire := [] |}).



(** A character that the encoder writes as it is. *)
Definition plain (c : codepoint) : Prop :=
  (32 <= c <= 126)%N /\ c <> 34%N /\ c <> 92%N.

End StepExamples.

(* ================================================================== *)
(** * server.py: the server and its accept thread *)

Module ServerOps.
Import Json Connection Py Server.

(** A [threading.Thread] object: it can be started once. *)
Inductive thread_state : Type := NotStarted | Alive | Ended.

(** [__accept_socket]: [None], a socket that is not bound (yet), a
    listening socket, a closed one. *)
Inductive listener : Type := NoSocket | Unbound | Listening | ListenerClosed.

(** The server with what [start] and [stop] work on.  The subscribers to
    state updates are numbered in the order of their subscription; every
    call of one is recorded with its two arguments. *)
Record Host : Type := {
  server : Server.Server;
  accept_thread : thread_state;
  accept_socket : listener;
  status_callbacks : nat;
  status_calls : list (nat * bool * bool)
}.

Definition Host_init : Host :=
  {| server := Server_init; accept_thread := NotStarted;
     accept_socket := NoSocket; status_callbacks := 0; status_calls := [] |}.

Definition with_server (hst : Host) (s : Server.Server) : Host :=
  {| server := s; accept_thread := accept_thread hst;
     accept_socket := accept_socket hst;
     status_callbacks := status_callbacks hst;
     status_calls := status_calls hst |}.

Definition with_thread (hst : Host) (t : thread_state) : Host :=
  {| server := server hst; accept_thread := t;
     accept_socket := accept_socket hst;
     status_callbacks := status_callbacks hst;
     status_calls := status_calls hst |}.

Definition with_socket (hst : Host) (l : listener) : Host :=
  {| server := server hst; accept_thread := accept_thread hst;
     accept_socket := l;
     status_callbacks := status_callbacks hst;
     status_calls := status_calls hst |}.

Definition with_settings (s : Server.Server) (i p : json) (run : bool)
  : Server.Server :=
  {| interface := i; port := p; should_run := run;
     conns := conns s; objects := objects s; closed := closed s |}.

(** [subscribe_to_state_update] *)
Definition subscribe_to_state_update (hst : Host) : Host :=
  {| server := server hst; accept_thread := accept_thread hst;
     accept_socket := accept_socket hst;
     status_callbacks := S (status_callbacks hst);
     status_calls := status_calls hst |}.

(** [__set_should_run]: a value that is already there is logged and
    nothing else; a change is followed by a call [cb(not val, val)] of
    every subscriber, whose exceptions are swallowed. *)
Definition set_should_run (hst : Host) (val : bool) : Host :=
  if Bool.eqb (should_run (server hst)) val then hst
  else
    {| server := with_settings (server hst) (interface (server hst))
                               (port (server hst)) val;
       accept_thread := accept_thread hst;
       accept_socket := accept_socket hst;
       status_callbacks := status_callbacks hst;
       status_calls :=
         status_calls hst
         ++ List.map (fun i => (i, negb val, val))
                     (seq 0 (status_callbacks hst)) |}.

(** The [interface] setter: ['*'] stands for every interface. *)
Definition set_interface (hst : Host) (i : json) : Host + exn :=
  if should_run (server hst) then inr PyException
  else
    let i' := if eq_str i (of_string "*") then JStr [] else i in
    inl (with_server hst
           (with_settings (server hst) i' (port (server hst))
                          (should_run (server hst)))).

(** The [port] setter, for an [int] argument. *)
Definition set_port (hst : Host) (p : Z) : Host + exn :=
  if should_run (server hst) then inr PyException
  else
    inl (with_server hst
           (with_settings (server hst) (interface (server hst)) (JInt p)
                          (should_run (server hst)))).

Definition status_str (hst : Host) : string :=
  if should_run (server hst) then "Running" else "Stopped".

(** [start]; [bind_raises] is the exception of [bind] or [listen], if
    any. *)
Definition start (bind_raises : option exn) (hst : Host)
  : (bool + exn) * Host :=
  if is_None (interface (server hst)) then (inr AttributeError, hst)
  else if is_None (port (server hst)) then (inr AttributeError, hst)
  else
    match bind_raises with
    | Some e => (inr e, with_socket hst Unbound)
    | None =>
        let h1 := set_should_run (with_socket hst Listening) true in
        match accept_thread h1 with
        | NotStarted => (inl true, with_thread h1 Alive)
        | _ => (inr RuntimeError, h1)
        end
    end.

Definition shutdown_message : Message :=
  {| subject := JStr (of_string "shutdown"); payload := JObj [] |}.

(** [f] on the handler object behind a reference *)
Definition on_handler (f : ConnectionHandler -> ConnectionHandler)
           (objs : list ClientHandler) (r : ref) : list ClientHandler :=
  match nth_error objs r with
  | Some c => update objs r (with_base c (f (base c)))
  | None => objs
  end.

(** [for conn in self.__conns.values(): f(conn)] *)
Definition for_each_conn (f : ConnectionHandler -> ConnectionHandler)
           (s : Server.Server) : Server.Server :=
  with_objects s
    (fold_left (fun objs kr => on_handler f objs (snd kr))
               (conns s) (objects s)).

(** [conn.send(Message('shutdown', {}))] and [conn.stop()] on the handler
    behind [r]: the message is queued, the run flag cleared and the loop
    thread joined.  A loop that was alive has by then left its [while]
    and closed the socket of the handler (connection.py 196-200). *)
Definition shut_handler (s : Server.Server) (r : ref) : Server.Server :=
  match nth_error (objects s) r with
  | Some c =>
      with_closed
        (with_objects s
           (update (objects s) r
                   (with_base c
                      (Connection.stop true (send (base c) shutdown_message)))))
        (if running (base c) then fd (sock (base c)) :: closed s
         else closed s)
  | None => s
  end.

(** [for conn in self.__conns.values(): conn.send(...); conn.stop()] *)
Definition shut_each (d : list (json * ref)) (s : Server.Server)
  : Server.Server :=
  fold_left (fun s kr => shut_handler s (snd kr)) d s.

(** [stop]: the accept thread is joined (it ends once it has seen
    [should_run] cleared), the listening socket closed, and every handler
    of the directory is sent ['shutdown'] and stopped. *)
Definition stop (hst : Host) : (bool + exn) * Host :=
  let h1 := set_should_run hst false in
  match accept_thread h1 with
  | NotStarted => (inr RuntimeError, h1)
  | _ =>
      let h2 := with_thread h1 Ended in
      match accept_socket h2 with
      | NoSocket => (inr AttributeError, h2)
      | _ =>
          let h3 := with_socket h2 ListenerClosed in
          (inl true,
           with_server h3
             (shut_each (conns (server h3)) (server h3)))
      end
  end.

(** [send(to, msg)] *)
Definition send (s : Server.Server) (to : json) (msg : Message)
  : (bool + exn) * Server.Server :=
  if eq_str to (of_string "*") then
    (inl true, for_each_conn (fun c => Connection.send c msg) s)
  else if negb (hashable to) then (inr TypeError, s)
  else
    match dir_find to (conns s) with
    | None => (inl false, s)
    | Some r =>
        match nth_error (objects s) r with
        | Some _ =>
            (inl true,
             with_objects s
               (on_handler (fun c => Connection.send c msg) (objects s) r))
        | None => (inr KeyError, s)
        end
    end.

(** One turn of [__accept_loop] with a connection waiting: [accept]
    hands it over when the socket is listening and raises [OSError]
    otherwise; the connection is negotiated.  Any exception other than
    [socket.timeout] ends the thread.  Without a live accept thread
    nobody takes the connection. *)
Definition accepted (hst : Host) (client_sock : socket)
           (client_addr : address) (arrived : list Message) : Host :=
  match accept_thread hst, should_run (server hst) with
  | Alive, true =>
      match accept_socket hst with
      | Listening =>
          match negotiate_client_id (server hst) client_sock client_addr
                                    arrived with
          | Done s => with_server hst s
          | Raised SocketTimeout s => with_server hst s
          | Raised _ s => with_thread (with_server hst s) Ended
          end
      | _ => with_thread hst Ended
      end
  | _, _ => hst
  end.

(** The directory of a server: keys pairwise different, every reference
    into the store, no handler under two keys. *)
Definition tidy (s : Server.Server) : Prop :=
  ServerInv.consistent s /\ NoDup (List.map snd (conns s)).

(** The handler object behind a key. *)
Definition handler_for (s : Server.Server) (k : json) : option ClientHandler :=
  match dir_find k (conns s) with
  | Some r => nth_error (objects s) r
  | None => None
  end.

(** What can happen to a server: the calls of its public methods and
    the connections that come in. *)
Inductive op : Type :=
| OpSubscribe
| OpSetInterface (i : json)
| OpSetPort (p : Z)
| OpStart (bind_raises : option exn)
| OpStop
| OpSend (to : json) (msg : Message)
| OpAccepted (client_sock : socket) (client_addr : address)
             (arrived : list Message).

Definition apply_op (hst : Host) (o : op) : Host :=
  match o with
  | OpSubscribe => subscribe_to_state_update hst
  | OpSetInterface i =>
      match set_interface hst i with inl h => h | inr _ => hst end
  | OpSetPort p =>
      match set_port hst p with inl h => h | inr _ => hst end
  | OpStart b => snd (start b hst)
  | OpStop => snd (stop hst)
  | OpSend to msg => with_server hst (snd (send (server hst) to msg))
  | OpAccepted s a arrived => accepted hst s a arrived
  end.

Definition run (ops : list op) (hst : Host) : Host :=
  fold_left apply_op ops hst.

(** Every recorded call of a subscriber went to a subscriber that
    exists, with an old value that is the opposite of the new one. *)
Definition call_ok (subscribers : nat) (c : nat * bool * bool) : Prop :=
  fst (fst c) < subscribers /\ snd (fst c) = negb (snd c).

(** What holds of a server whatever has been done with it. *)
Definition host_ok (hst : Host) : Prop :=
  tidy (server hst)
  /\ (Server.should_run (server hst) = true ->
      is_None (interface (server hst)) = false
      /\ is_None (port (server hst)) = false
      /\ accept_thread hst <> NotStarted)
  /\ (accept_thread hst = NotStarted -> conns (server hst) = [])
  /\ (accept_thread hst <> NotStarted -> accept_socket hst <> NoSocket)
  /\ Forall (call_ok (status_callbacks hst)) (status_calls hst).

End ServerOps.

(* ================================================================== *)
(** * Server runs used as examples *)

Module ServerExamples.
Import Json Connection Py Server Examples Scenarios ServerOps.

(** A host whose interface and port are set and that two subscribers
    watch. *)
Definition configured_host : Host :=
  let h0 := subscribe_to_state_update (subscribe_to_state_update Host_init) in
  let h1 := match set_interface h0 (JStr (of_string "*")) with
            | inl h => h
            | inr _ => h0
            end in
  match set_port h1 30000 with
  | inl h => h
  | inr _ => h1
  end.

(** That host started. *)
Definition started_host : Host := snd (start None configured_host).

Definition xyz : json := JStr (of_string "xyz789").

(** The started host after [abc123] and [xyz789] have connected and a
    third client has failed to negotiate. *)
Definition two_clients : Host :=
  accepted
    (accepted
       (accepted started_host (quiet_socket 1) peer [negotiation_of abc])
       (quiet_socket 2) peer [])
    (quiet_socket 3) peer [negotiation_of xyz].

(** A negotiation whose id is a list. *)
Definition list_id : json := JArr [JInt 1].

End ServerExamples.

(* ================================================================== *)
(** * client.py: disconnecting, the consumer thread, state names *)

Module ClientOps.
Import Json Connection Py Client.

(** ** [ClientState.get_name] *)

(** The integer attributes of the class, in the order of [vars(cls)]. *)
Definition state_names : list (string * Z) :=
  [("STATE_UNDEFINED"%string, STATE_UNDEFINED);
   ("STATE_NEEDS_INIT"%string, STATE_NEEDS_INIT);
   ("STATE_OK"%string, STATE_OK);
   ("STATE_RUNNING"%string, STATE_RUNNING);
   ("STATE_NOT_CONNECTED"%string, STATE_NOT_CONNECTED);
   ("STATE_CONNECTING"%string, STATE_CONNECTING);
   ("STATE_CONNECTED"%string, STATE_CONNECTED);
   ("STATE_CONNECT_FAILED"%string, STATE_CONNECT_FAILED);
   ("STATE_RECONNECTING"%string, STATE_RECONNECTING);
   ("STATE_RECONNECT_FAILED"%string, STATE_RECONNECT_FAILED);
   ("STATE_DISCONNECTING"%string, STATE_DISCONNECTING);
   ("STATE_DISCONNECT_FAILED"%string, STATE_DISCONNECT_FAILED);
   ("STATE_UNEXP_CLOSED"%string, STATE_UNEXP_CLOSED)].

(** The first loop: the key of the first attribute equal to [state]. *)
Fixpoint exact_name (state : Z) (table : list (string * Z)) : option string :=
  match table with
  | [] => None
  | (key, value) :: rest =>
      if (value =? state)%Z then Some key else exact_name state rest
  end.

(** The second loop: [out += ", " + cls.get_name(value)] for every
    attribute with [value & state].  The inner call is on a value of the
    table; were its result [None], the concatenation would raise
    [TypeError]. *)
Fixpoint partial_names (state : Z) (table : list (string * Z))
         (out : string) : string + exn :=
  match table with
  | [] => inl out
  | (key, value) :: rest =>
      if (Z.land value state =? 0)%Z then partial_names state rest out
      else
        match exact_name value state_names with
        | Some name =>
            partial_names state rest (out ++ ", " ++ name)%string
        | None => inr TypeError
        end
  end.

(** [get_name]: [inl None] is the result [None]. *)
Definition get_name (state : Z) : option string + exn :=
  match exact_name state state_names with
  | Some key => inl (Some key)
  | None =>
      match partial_names state state_names EmptyString with
      | inr e => inr e
      | inl EmptyString => inl None
      | inl out => inl (Some (substring 2 (String.length out - 2) out))
      end
  end.

(** ** [disconnect] and [__server_shut_down] *)

Definition shutdown_notice : Message :=
  {| subject := JStr (of_string "shutdown"); payload := JObj [] |}.

(** [if self.__recv_consumer_thread is not None:
        self.__recv_consumer_should_run = False] *)
Definition stop_consumer (c : Client) (reconnect : bool) : Client :=
  with_consumer c
    (if recv_consumer_started c then false else recv_consumer_should_run c)
    (recv_consumer_started c) reconnect.

(** [disconnect].  The third component is the handler object as the
    method leaves it behind.  With no handler both the [send] and the
    [stop] raise [AttributeError], which is caught and logged. *)
Definition disconnect (c : Client)
  : bool * Client * option ConnectionHandler :=
  let c0 := trigger c EvDisconnect in
  if negb (has_flag (state c0) STATE_CONNECTED) then
    (false, with_log c0 "Client is not connected", conn c0)
  else
    let c1 := stop_consumer c0 false in
    match conn c1 with
    | Some h =>
        (true,
         set_state (with_conn c1 None) (Z.lor STATE_NOT_CONNECTED STATE_OK),
         Some (stop true (send h shutdown_notice)))
    | None =>
        (false,
         set_state
           (with_conn
              (with_log
                 (with_log c1
                    "Socket couldn't send shutdown signal, with error:")
                 "Couldn't stop ConnectionHandler thread, with error:")
              None)
           (Z.lor (Z.lor STATE_NOT_CONNECTED (STATE_UNEXP_CLOSED * 0))
                  STATE_DISCONNECT_FAILED),
         None)
    end.

(** [__server_shut_down] *)
Definition server_shut_down (c : Client) : Client :=
  let c0 := trigger c EvServerShutdown in
  let c1 := stop_consumer c0 (attempt_reconnect c0) in
  let c2 :=
    match conn c1 with
    | Some _ => c1
    | None =>
        with_log c1 "Couldn't stop ConnectionHandler thread, with error:"
    end in
  set_state (with_conn c2 None) (Z.lor STATE_NOT_CONNECTED STATE_OK).

(** ** [__recv_consumer_thread_func] *)

(** One turn of the loop, test included. *)
Inductive consumer_end : Type :=
| Goes (delivered : option Message) (c : Client)
      (* the turn is over; [delivered] went to the ['message'] callbacks *)
| Returns (c : Client)              (* the thread function returns *)
| Crashes (e : exn) (c : Client)    (* an exception ends the thread *)
| Reconnecting (c : Client).        (* still in [__reconnect_wrapper] *)

Definition client_at (r : consumer_end) : Client :=
  match r with
  | Goes _ c | Returns c | Crashes _ c | Reconnecting c => c
  end.

(** [msg = self.__conn.recv()] and what follows *)
Definition consume (c : Client) : consumer_end :=
  match conn c with
  | None => Crashes AttributeError c
  | Some h =>
      match recv h with
      | (None, h') => Goes None (with_conn c (Some h'))
      | (Some msg, h') =>
          let c1 := with_conn c (Some h') in
          if eq_str (subject msg) (of_string "shutdown") then
            Goes None
                 (server_shut_down
                    (with_log c1
                       "Server is shutting down. Closing connection"))
          else Goes (Some msg) c1
      end
  end.

(** [script] is what the network does should the turn reconnect. *)
Definition consumer_turn (script : list attempt) (c : Client)
  : consumer_end :=
  if negb (recv_consumer_should_run c) then Returns c
  else
    match conn c with
    | None => Crashes AttributeError c
    | Some h =>
        if negb (running h) then
          if negb (attempt_reconnect c) then
            Returns (with_log c "Server connection closed unexpectedly")
          else
            match reconnect_wrapper
                    script
                    (with_log c "Server connection closed, reconnecting...")
            with
            | (Some true, c', _) => consume (with_log c' "Reconnected.")
            | (Some false, c', _) => Returns c'
            | (None, c', _) => Reconnecting c'
            end
        else consume c
    end.

(** Turns of the loop as long as it goes on, at most [n]; the messages
    delivered, in order. *)
Fixpoint consumer_turns (n : nat) (c : Client)
  : list Message * consumer_end :=
  match n with
  | O => ([], Goes None c)
  | S k =>
      match consumer_turn [] c with
      | Goes d c' =>
          let (ds, r) := consumer_turns k c' in
          (match d with Some m => m :: ds | None => ds end, r)
      | r => ([], r)
      end
  end.

(** ** What can happen to a client *)

Definition set_attempt_reconnect (c : Client) (b : bool) : Client :=
  with_consumer c (recv_consumer_should_run c) (recv_consumer_started c) b.

Definition or_unchanged (r : Client + exn) (c : Client) : Client :=
  match r with inl c' => c' | inr _ => c end.

(** The calls of the public methods and attributes, the turns of the
    consumer thread once a [connect] has started one, and the work of the
    loop thread of the handler, which brings the handler from one state
    to another. *)
Inductive client_op : Type :=
| OpSetAddress (a : json)
| OpSetInterface (i : json)
| OpSetClientId (cid : json)
| OpSetPort (p : Z)
| OpSetBindPort (p : Z)
| OpSetAttemptReconnect (b : bool)
| OpConnect (w : cycle)
| OpDisconnect
| OpConsumerTurn (script : list attempt)
| OpHandlerLoop (h' : ConnectionHandler).

Definition client_step (c : Client) (o : client_op) : Client :=
  match o with
  | OpSetAddress a => or_unchanged (set_address c a) c
  | OpSetInterface i => or_unchanged (set_interface c i) c
  | OpSetClientId cid => or_unchanged (set_client_id c cid) c
  | OpSetPort p => or_unchanged (set_port c p) c
  | OpSetBindPort p => or_unchanged (set_bind_port c p) c
  | OpSetAttemptReconnect b => set_attempt_reconnect c b
  | OpConnect w => snd (connect w c)
  | OpDisconnect => snd (fst (disconnect c))
  | OpConsumerTurn script =>
      if recv_consumer_started c then client_at (consumer_turn script c)
      else c
  | OpHandlerLoop h' =>
      match conn c with
      | Some _ => with_conn c (Some h')
      | None => c
      end
  end.

Definition client_run (ops : list client_op) (c : Client) : Client :=
  fold_left client_step ops c.

(** What holds of a client whatever has been done with it. *)
Definition client_ok (c : Client) : Prop :=
  has_flag (state c) STATE_RUNNING = false
  /\ (has_flag (state c) STATE_CONNECTED = true -> conn c <> None)
  /\ (has_flag (state c) STATE_NEEDS_INIT = true ->
      is_None (address_ c) || is_None (port_ c) || is_None (client_id_ c)
      = true).

(** A status without the running, needs-init and connected flags. *)
Definition calm (c : Client) : Prop :=
  has_flag (state c) STATE_RUNNING = false
  /\ has_flag (state c) STATE_NEEDS_INIT = false
  /\ has_flag (state c) STATE_CONNECTED = false.

(** The subject of a message is not ['shutdown']. *)
Definition ordinary (m : Message) : Prop :=
  eq_str (subject m) (of_string "shutdown") = false.

End ClientOps.

(* ================================================================== *)
(** * Client runs used as examples *)

Module ClientExamples.
Import Json Connection Py Client Examples Scenarios ClientOps.

(** The connected client with [q] received and not yet consumed. *)
Definition receiving (q : list Message) : Client :=
  match conn connected with
  | Some h => with_conn connected (Some (set_inbound h q))
  | None => connected
  end.

(** The connected client after its connection has dropped: the loop
    thread of the handler has ended, [m1] is received and not consumed,
    [m2] is queued and not sent. *)
Definition dropped (reconnect : bool) : Client :=
  match conn connected with
  | Some h =>
      set_attempt_reconnect
        (with_conn connected
           (Some (set_thread_alive (set_inbound (send h m2) [m1]) false)))
        reconnect
  | None => connected
  end.

Definition one_try : attempt :=
  {| abort_in_wait := false; network := all_fine |}.

End ClientExamples.

(* ================================================================== *)
(** * Facts about text, UTF-8 and hexadecimal escapes *)

Module TextFacts.
Import Aux.

Lemma text_eqb_eq a b : text_eqb a b = true <-> a = b.
Proof.
  unfold text_eqb. destruct (list_eq_dec N.eq_dec a b); split; congruence.
Qed.

Lemma text_eqb_refl a : text_eqb a a = true.
Proof. now apply text_eqb_eq. Qed.

Lemma text_eqb_neq a b : a <> b -> text_eqb a b = false.
Proof.
  intros H. unfold text_eqb.
  destruct (list_eq_dec N.eq_dec a b); congruence.
Qed.

Lemma all_from_spec n p : forall start,
  all_from n start p = true ->
  forall x, (start <= x < start + N.of_nat n)%N -> p x = true.
Proof.
  induction n as [|k IH]; simpl; intros start H x Hx.
  - lia.
  - apply andb_true_iff in H as [Hk Hr].
    destruct (N.eq_dec x start) as [->|Hne]; [exact Hk|].
    apply (IH _ Hr). lia.
Qed.

Lemma all_below_spec bound p :
  all_below bound p = true -> forall x, (x < bound)%N -> p x = true.
Proof.
  intros H x Hx. apply (all_from_spec _ _ _ H). lia.
Qed.

Lemma remove_char_app c a b :
  remove_char c (a ++ b) = remove_char c a ++ remove_char c b.
Proof. unfold remove_char. apply filter_app. Qed.

Lemma remove_char_repeat c n : remove_char c (repeat c n) = [].
Proof.
  induction n as [|n IH]; simpl; [reflexivity|].
  rewrite N.eqb_refl. exact IH.
Qed.

Lemma remove_char_absent c s :
  Forall (fun d => d <> c) s -> remove_char c s = s.
Proof.
  induction 1 as [|d s Hd _ IH]; simpl; [reflexivity|].
  apply N.eqb_neq in Hd. rewrite Hd. simpl. now rewrite IH.
Qed.

End TextFacts.

Module Utf8Facts.
Import Utf8 Aux.

Lemma to_N_b n : (n < 256)%N -> Byte.to_N (b n) = n.
Proof.
  intros H. unfold b.
  destruct (Byte.of_N n) as [x|] eqn:E.
  - now apply Byte.to_of_N.
  - apply Byte.of_N_None_iff in E. lia.
Qed.

Lemma encode_ascii s : is_ascii s -> encode s = Some (ascii_bytes s).
Proof.
  induction 1 as [|c s Hc _ IH]; simpl; [reflexivity|].
  unfold encode_codepoint.
  apply N.ltb_lt in Hc. rewrite Hc, IH. reflexivity.
Qed.

Lemma decode_ascii s : is_ascii s -> decode (ascii_bytes s) = Some s.
Proof.
  induction 1 as [|c s Hc _ IH]; [reflexivity|].
  cbn [ascii_bytes List.map decode].
  rewrite to_N_b by lia.
  apply N.ltb_lt in Hc. rewrite Hc.
  fold (ascii_bytes s). rewrite IH. reflexivity.
Qed.

Lemma ascii_bytes_app s t :
  ascii_bytes (s ++ t) = ascii_bytes s ++ ascii_bytes t.
Proof. apply map_app. Qed.

Lemma ascii_bytes_length s : length (ascii_bytes s) = length s.
Proof. apply length_map. Qed.

Lemma ascii_bytes_zeros n : repeat x00 n = ascii_bytes (repeat 0%N n).
Proof.
  induction n as [|n IH]; simpl; [reflexivity|]. now rewrite IH.
Qed.

End Utf8Facts.

(* ================================================================== *)
(** * The [json] strings read back *)

Module StringFacts.
Import Json JsonDecoder TextFacts.
Import Aux.

(** *** Four hexadecimal digits read back *)

Lemma hex4_reads_all : all_below 65536 hex4_reads = true.
Proof. vm_compute. reflexivity. Qed.

Lemma decode_hex4_hex4 n :
  (n < 0x10000)%N ->
  decode_hex4 (hexdigit (N.shiftr n 12 mod 16)) (hexdigit (N.shiftr n 8 mod 16))
              (hexdigit (N.shiftr n 4 mod 16)) (hexdigit (n mod 16)) = Some n.
Proof.
  intros H.
  pose proof (all_below_spec 65536 hex4_reads hex4_reads_all n H) as R.
  unfold hex4_reads, hex4 in R.
  destruct (decode_hex4 _ _ _ _) as [m|]; [|discriminate].
  apply N.eqb_eq in R. now subst.
Qed.

(** *** A code point above the BMP is written as a surrogate pair that
    joins back to it *)

Lemma pair_joins_all : all_below 1048576 pair_joins = true.
Proof. vm_compute. reflexivity. Qed.

Lemma surrogate_pair c :
  (0x10000 <= c < 0x110000)%N ->
  is_high_surrogate (high_of c) = true /\
  is_low_surrogate (low_of c) = true /\
  join_surrogates (high_of c) (low_of c) = c.
Proof.
  intros H.
  assert (Hn : (c - 0x10000 < 1048576)%N) by lia.
  pose proof (all_below_spec 1048576 pair_joins pair_joins_all _ Hn) as R.
  unfold pair_joins in R.
  replace (c - 0x10000 + 0x10000)%N with c in R by lia.
  apply andb_true_iff in R as [R R3].
  apply andb_true_iff in R as [R1 R2].
  apply N.eqb_eq in R3. auto.
Qed.

Lemma high_surrogate_bmp c : is_high_surrogate c = true -> (c < 0x10000)%N.
Proof. unfold is_high_surrogate. intros H. apply andb_true_iff in H as [_ H]. apply N.leb_le in H. lia. Qed.

Lemma low_surrogate_bmp c : is_low_surrogate c = true -> (c < 0x10000)%N.
Proof. unfold is_low_surrogate. intros H. apply andb_true_iff in H as [_ H]. apply N.leb_le in H. lia. Qed.

Lemma high_not_low c : is_high_surrogate c = true -> is_low_surrogate c = false.
Proof.
  unfold is_high_surrogate, is_low_surrogate. intros H.
  apply andb_true_iff in H as [_ H]. apply N.leb_le in H.
  apply andb_false_iff. left. apply N.leb_gt. lia.
Qed.

(** *** One step of [scanstring] for each shape of escape *)

Lemma scanstring_quote r : scanstring (34%N :: r) = Some ([], r).
Proof. reflexivity. Qed.

Lemma scanstring_plain c r :
  (32 <= c)%N -> c <> 34%N -> c <> 92%N ->
  scanstring (c :: r) = prepend c (scanstring r).
Proof.
  intros H1 H2 H3. cbn [scanstring].
  apply N.eqb_neq in H2. apply N.eqb_neq in H3.
  rewrite H2, H3.
  replace (c <? 32)%N with false by (symmetry; apply N.ltb_ge; lia).
  reflexivity.
Qed.

Lemma scanstring_short e ch r :
  e <> 117%N -> backslash e = Some ch ->
  scanstring (92%N :: e :: r) = prepend ch (scanstring r).
Proof.
  intros H1 H2. cbn [scanstring]. cbn.
  apply N.eqb_neq in H1. rewrite H1, H2. reflexivity.
Qed.

Lemma scanstring_u h1 h2 h3 h4 r uni :
  decode_hex4 h1 h2 h3 h4 = Some uni ->
  (is_high_surrogate uni = true -> no_pair_ahead r) ->
  scanstring (92%N :: 117%N :: h1 :: h2 :: h3 :: h4 :: r)
  = prepend uni (scanstring r).
Proof.
  intros Hd Hp. cbn [scanstring]. cbn [N.eqb Pos.eqb N.ltb N.compare Pos.compare Pos.compare_cont].
  rewrite Hd.
  destruct (is_high_surrogate uni) eqn:Hh; [|reflexivity].
  specialize (Hp eq_refl). unfold no_pair_ahead in Hp.
  destruct r as [|b1 [|u1 r3]]; try reflexivity.
  destruct ((b1 =? 92) && (u1 =? 117))%N; [|reflexivity].
  destruct r3 as [|g1 [|g2 [|g3 [|g4 r4]]]]; try contradiction.
  destruct (decode_hex4 g1 g2 g3 g4) as [lo|]; [|contradiction].
  rewrite Hp. reflexivity.
Qed.

Lemma scanstring_pair h1 h2 h3 h4 g1 g2 g3 g4 r hi lo :
  decode_hex4 h1 h2 h3 h4 = Some hi -> is_high_surrogate hi = true ->
  decode_hex4 g1 g2 g3 g4 = Some lo -> is_low_surrogate lo = true ->
  scanstring (92%N :: 117%N :: h1 :: h2 :: h3 :: h4
              :: 92%N :: 117%N :: g1 :: g2 :: g3 :: g4 :: r)
  = prepend (join_surrogates hi lo) (scanstring r).
Proof.
  intros H1 H2 H3 H4. cbn [scanstring]. cbn [N.eqb Pos.eqb N.ltb N.compare Pos.compare Pos.compare_cont andb].
  rewrite H1, H2, H3, H4. reflexivity.
Qed.
End StringFacts.

Module EscapeFacts.
Import Json JsonDecoder TextFacts StringFacts.
Import Aux.

Lemma escape_char_scan c tail :
  valid_codepoint c ->
  (is_high_surrogate c = true -> no_pair_ahead tail) ->
  scanstring (escape_char c ++ tail) = prepend c (scanstring tail).
Proof.
  intros Hv Hp. unfold escape_char.
  destruct (c =? 34)%N eqn:E1;
    [apply N.eqb_eq in E1; subst; now apply scanstring_short|].
  destruct (c =? 92)%N eqn:E2;
    [apply N.eqb_eq in E2; subst; now apply scanstring_short|].
  destruct (c =? 8)%N eqn:E3;
    [apply N.eqb_eq in E3; subst; now apply scanstring_short|].
  destruct (c =? 12)%N eqn:E4;
    [apply N.eqb_eq in E4; subst; now apply scanstring_short|].
  destruct (c =? 10)%N eqn:E5;
    [apply N.eqb_eq in E5; subst; now apply scanstring_short|].
  destruct (c =? 13)%N eqn:E6;
    [apply N.eqb_eq in E6; subst; now apply scanstring_short|].
  destruct (c =? 9)%N eqn:E7;
    [apply N.eqb_eq in E7; subst; now apply scanstring_short|].
  apply N.eqb_neq in E1, E2.
  destruct ((32 <=? c) && (c <=? 126))%N eqn:E8.
  - apply andb_true_iff in E8 as [Ha _]. apply N.leb_le in Ha.
    now apply scanstring_plain.
  - destruct (c <? 0x10000)%N eqn:E9.
    + apply N.ltb_lt in E9.
      apply scanstring_u; [now apply decode_hex4_hex4 | exact Hp].
    + apply N.ltb_ge in E9.
      destruct (surrogate_pair c) as (Hh & Hl & Hj);
        [unfold valid_codepoint in Hv; lia|].
      fold (high_of c). fold (low_of c).
      unfold u_escape, hex4. cbn [app].
      rewrite (scanstring_pair _ _ _ _ _ _ _ _ tail (high_of c) (low_of c));
        auto.
      * now rewrite Hj.
      * apply decode_hex4_hex4. now apply high_surrogate_bmp.
      * apply decode_hex4_hex4. now apply low_surrogate_bmp.
Qed.

Lemma no_pair_ahead_quote rest : no_pair_ahead (34%N :: rest).
Proof. destruct rest; exact I. Qed.

Lemma no_pair_ahead_escape d tail :
  valid_codepoint d -> is_low_surrogate d = false ->
  no_pair_ahead (escape_char d ++ tail).
Proof.
  intros Hv Hl. unfold escape_char.
  destruct (d =? 34)%N eqn:E1; [exact I|].
  destruct (d =? 92)%N eqn:E2; [exact I|].
  destruct (d =? 8)%N eqn:E3; [exact I|].
  destruct (d =? 12)%N eqn:E4; [exact I|].
  destruct (d =? 10)%N eqn:E5; [exact I|].
  destruct (d =? 13)%N eqn:E6; [exact I|].
  destruct (d =? 9)%N eqn:E7; [exact I|].
  destruct ((32 <=? d) && (d <=? 126))%N eqn:E8.
  - destruct tail; cbn [app no_pair_ahead]; [exact I|].
    rewrite E2. exact I.
  - destruct (d <? 0x10000)%N eqn:E9.
    + apply N.ltb_lt in E9.
      unfold u_escape, hex4. cbn [app no_pair_ahead].
      cbn [N.eqb Pos.eqb andb].
      rewrite decode_hex4_hex4 by assumption. exact Hl.
    + apply N.ltb_ge in E9.
      destruct (surrogate_pair d) as (Hh & _ & _);
        [unfold valid_codepoint in Hv; lia|].
      fold (high_of d). fold (low_of d).
      unfold u_escape at 1. unfold hex4 at 1. cbn [app no_pair_ahead].
      cbn [N.eqb Pos.eqb andb].
      rewrite decode_hex4_hex4 by now apply high_surrogate_bmp.
      now apply high_not_low.
Qed.

(** A string written by the encoder is read back by [scanstring]. *)
Lemma scanstring_escaped s : forall rest,
  valid_text s -> no_surrogate_pair s ->
  scanstring (escaped s ++ 34%N :: rest) = Some (s, rest).
Proof.
  induction s as [|c s IH]; intros rest Hv Hn.
  - reflexivity.
  - inversion Hv as [|? ? Hc Hs]; subst.
    destruct Hn as [Hcd Hn].
    unfold escaped. cbn [flat_map]. rewrite <- app_assoc.
    fold (escaped s).
    rewrite escape_char_scan; [| exact Hc |].
    + rewrite IH by assumption. reflexivity.
    + intros Hh. destruct s as [|d s'].
      * apply no_pair_ahead_quote.
      * unfold escaped. cbn [flat_map]. rewrite <- app_assoc.
        inversion Hs; subst.
        apply no_pair_ahead_escape; [assumption|].
        rewrite Hh in Hcd. exact Hcd.
Qed.

Lemma scan_once_string fuel s rest :
  valid_text s -> no_surrogate_pair s ->
  scan_once (S fuel) (encode_basestring_ascii s ++ rest)
  = Scanned (JStr s) rest.
Proof.
  intros Hv Hn. unfold encode_basestring_ascii.
  cbn [app scan_once]. cbn [N.eqb Pos.eqb].
  rewrite <- app_assoc. cbn [app].
  fold (escaped s). rewrite scanstring_escaped by assumption.
  reflexivity.
Qed.

Lemma hexdigit_printable d : (d < 16)%N -> printable (hexdigit d).
Proof. unfold hexdigit, printable. intros H. destruct (d <? 10)%N eqn:E; [apply N.ltb_lt in E | apply N.ltb_ge in E]; lia. Qed.

Lemma hex4_printable n : Forall printable (hex4 n).
Proof.
  unfold hex4.
  repeat constructor; apply hexdigit_printable; apply N.mod_lt; discriminate.
Qed.

Lemma escape_char_printable c : Forall printable (escape_char c).
Proof.
  unfold escape_char, u_escape.
  repeat match goal with
  | |- context [if ?b then _ else _] => destruct b eqn:?
  end;
  try (repeat constructor; unfold printable; lia).
  - apply andb_true_iff in Heqb6 as [A B].
    apply N.leb_le in A, B. repeat constructor; unfold printable; lia.
  - constructor; [unfold printable; lia|].
    constructor; [unfold printable; lia|]. apply hex4_printable.
  - apply Forall_app. split;
    (constructor; [unfold printable; lia|];
     constructor; [unfold printable; lia|]; apply hex4_printable).
Qed.

Lemma escaped_printable s : Forall printable (escaped s).
Proof.
  induction s as [|c s IH]; [constructor|].
  unfold escaped. cbn [flat_map]. apply Forall_app. split.
  - apply escape_char_printable.
  - exact IH.
Qed.

Lemma basestring_printable s : Forall printable (encode_basestring_ascii s).
Proof.
  unfold encode_basestring_ascii. constructor; [unfold printable; lia|].
  apply Forall_app. split; [apply escaped_printable|].
  repeat constructor; unfold printable; lia.
Qed.
End EscapeFacts.

(* ================================================================== *)
(** * The [json] integers read back *)

Module NumberFacts.
Import Json JsonDecoder TextFacts.
Import Aux.

Lemma uint_of_digits_of_uint u : uint_of_digits (digits_of_uint u) = u.
Proof. induction u; cbn; congruence. Qed.

Lemma digits_of_uint_digits u : Forall (fun c => is_digit c = true) (digits_of_uint u).
Proof. induction u; cbn [digits_of_uint]; constructor; auto. Qed.

Lemma nat_of_digits_repr n : nat_of_digits (nat_repr n) = n.
Proof.
  unfold nat_of_digits, nat_repr. rewrite uint_of_digits_of_uint.
  apply DecimalN.Unsigned.of_to.
Qed.

(** A numeral written by [int.__repr__] is ["0"] or starts with a digit
    other than zero. *)
Lemma nat_repr_shape n :
  nat_repr n = [48%N] \/
  exists c ds, nat_repr n = c :: ds /\ c <> 48%N /\ is_digit c = true
               /\ Forall (fun c => is_digit c = true) ds.
Proof.
  unfold nat_repr.
  pose proof (DecimalN.Unsigned.to_of (N.to_uint n)) as H.
  rewrite DecimalN.Unsigned.of_to in H.
  unfold Decimal.unorm in H.
  pose proof (DecimalFacts.nzhead_nonzero (N.to_uint n)) as Hnz.
  pose proof (digits_of_uint_digits (N.to_uint n)) as Hd.
  destruct (Decimal.nzhead (N.to_uint n)) as [|u|u|u|u|u|u|u|u|u|u] eqn:E;
    rewrite H in *; cbn [digits_of_uint] in *;
    try (left; reflexivity);
    try (exfalso; now apply (Hnz u));
    right; eexists; eexists; (split; [reflexivity|]);
    inversion Hd; subst; (split; [discriminate|]); (split; [reflexivity|]);
    assumption.
Qed.

Lemma span_digits_app ds rest :
  Forall (fun c => is_digit c = true) ds ->
  match rest with [] => True | c :: _ => is_digit c = false end ->
  span_digits (ds ++ rest) = (ds, rest).
Proof.
  induction 1 as [|c ds Hc _ IH]; intros Hr.
  - destruct rest as [|c r]; [reflexivity|].
    cbn. now rewrite Hr.
  - cbn. rewrite Hc, IH by assumption. reflexivity.
Qed.

Lemma ends_number_no_digit rest :
  ends_number rest -> match rest with [] => True | c :: _ => is_digit c = false end.
Proof. destruct rest; [trivial|]. now intros [H _]. Qed.

Lemma match_int_part_repr n rest :
  ends_number rest ->
  match_int_part (nat_repr n ++ rest) = Some (nat_repr n, rest).
Proof.
  intros Hr.
  destruct (nat_repr_shape n) as [E | (c & ds & E & Hc & Hd & Hds)]; rewrite E.
  - reflexivity.
  - cbn [app match_int_part].
    apply N.eqb_neq in Hc. rewrite Hc, Hd.
    rewrite span_digits_app;
      [reflexivity | assumption | now apply ends_number_no_digit].
Qed.

Lemma match_frac_none rest : ends_number rest -> match_frac rest = (None, rest).
Proof.
  destruct rest as [|c [|d r]]; try reflexivity.
  intros (_ & H & _). cbn. apply N.eqb_neq in H. now rewrite H.
Qed.

Lemma match_exp_none rest : ends_number rest -> match_exp rest = (None, rest).
Proof.
  destruct rest as [|c r]; [reflexivity|].
  intros (_ & _ & H1 & H2). cbn [match_exp].
  apply N.eqb_neq in H1, H2. now rewrite H1, H2.
Qed.

Lemma nat_repr_head n :
  exists c ds, nat_repr n = c :: ds /\ is_digit c = true.
Proof.
  destruct (nat_repr_shape n) as [E | (c & ds & E & Hc & Hd & Hds)]; rewrite E; eauto.
Qed.

Lemma digit_not c k : is_digit c = true -> (k < 48 \/ 57 < k)%N -> (k =? c)%N = false.
Proof.
  unfold is_digit. intros H Hk. apply andb_true_iff in H as [A B].
  apply N.leb_le in A, B. apply N.eqb_neq. lia.
Qed.

Lemma digit_not' c k : is_digit c = true -> (k < 48 \/ 57 < k)%N -> (c =? k)%N = false.
Proof. intros. rewrite N.eqb_sym. now apply digit_not. Qed.

Lemma match_number_nat n rest :
  ends_number rest ->
  match_number (nat_repr n ++ rest) = Some (JInt (Z.of_N n), rest).
Proof.
  intros Hr. unfold match_number.
  destruct (nat_repr_head n) as (c & ds & E & Hc).
  assert (Hs : match_sign (nat_repr n ++ rest) = (false, nat_repr n ++ rest)).
  { rewrite E. cbn [app match_sign].
    rewrite digit_not' by (auto; lia). reflexivity. }
  rewrite Hs.
  rewrite match_int_part_repr, match_frac_none, match_exp_none by assumption.
  unfold parse_int. now rewrite nat_of_digits_repr.
Qed.

Lemma match_number_int z rest :
  ends_number rest ->
  match_number (int_repr z ++ rest) = Some (JInt z, rest).
Proof.
  intros Hr.
  destruct z as [|p|p]; cbn [int_repr Z.to_N].
  - now rewrite match_number_nat.
  - now rewrite match_number_nat.
  - unfold match_number. cbn [app match_sign].
    change (45 =? 45)%N with true. cbv iota.
    rewrite match_int_part_repr, match_frac_none, match_exp_none by assumption.
    unfold parse_int. now rewrite nat_of_digits_repr.
Qed.

Lemma int_repr_head z :
  exists c ds, int_repr z = c :: ds /\ (c = 45%N \/ is_digit c = true).
Proof.
  destruct z as [|p|p]; cbn [int_repr Z.to_N].
  - exists 48%N, []. split; [reflexivity | now right].
  - destruct (nat_repr_head (Npos p)) as (c & ds & E & Hc). rewrite E. eauto.
  - eauto.
Qed.

Lemma scan_atom_int z rest :
  ends_number rest ->
  scan_atom (int_repr z ++ rest) = Scanned (JInt z) rest.
Proof.
  intros Hr. unfold scan_atom.
  destruct (int_repr_head z) as (c & ds & E & Hc).
  assert (Hn : forall k p, (57 < k)%N -> starts_with (k :: p) (int_repr z ++ rest) = None).
  { intros k p Hk. rewrite E. cbn [app starts_with].
    destruct Hc as [-> | Hc].
    - replace (k =? 45)%N with false; [reflexivity|]. symmetry. apply N.eqb_neq. lia.
    - rewrite digit_not by (auto; lia). reflexivity. }
  cbv [of_string list_ascii_of_string List.map N_of_ascii N_of_digits N.add N.mul Pos.add Pos.mul Pos.succ].
  rewrite !Hn by lia.
  now rewrite match_number_int.
Qed.

Lemma int_repr_printable z : Forall (fun c => (32 <= c <= 126)%N) (int_repr z).
Proof.
  assert (H : forall n, Forall (fun c => (32 <= c <= 126)%N) (nat_repr n)).
  { intros n. unfold nat_repr.
    eapply Forall_impl; [|apply digits_of_uint_digits].
    intros c Hc. unfold is_digit in Hc. apply andb_true_iff in Hc as [A B].
    apply N.leb_le in A, B. lia. }
  destruct z; cbn [int_repr]; [apply H | apply H | constructor; [lia | apply H]].
Qed.
End NumberFacts.

(* ================================================================== *)
(** * [json.loads] after [json.dumps] on flat dictionaries *)

Module DumpsFacts.
Import Json JsonDecoder TextFacts StringFacts EscapeFacts NumberFacts Valid.
Import Aux.

Lemma skip_ws_keep c r : is_ws c = false -> skip_ws (c :: r) = c :: r.
Proof. intros H. cbn [skip_ws]. now rewrite H. Qed.

Lemma skip_ws_space r : skip_ws (32%N :: r) = skip_ws r.
Proof. reflexivity. Qed.

Lemma object_items_eq fuel s :
  object_items (S fuel) s =
  match scanstring s with
  | None => Fail
  | Some (key, r) =>
      match skip_ws r with
      | colon :: r1 =>
          if (colon =? 58)%N then
            match scan_once fuel (skip_ws r1) with
            | Scanned v r2 =>
                match skip_ws r2 with
                | d :: r3 =>
                    if (d =? 125)%N then Scanned [(key, v)] r3
                    else if (d =? 44)%N then
                      match skip_ws r3 with
                      | q :: r4 =>
                          if (q =? 34)%N then
                            match object_items fuel r4 with
                            | Scanned kvs rest =>
                                Scanned ((key, v) :: kvs) rest
                            | Fail => Fail
                            | Starved => Starved
                            end
                          else Fail
                      | [] => Fail
                      end
                    else Fail
                | [] => Fail
                end
            | Fail => Fail
            | Starved => Starved
            end
          else Fail
      | [] => Fail
      end
  end.
Proof. reflexivity. Qed.

Lemma scan_once_brace fuel r :
  scan_once (S fuel) (123%N :: r) =
  match skip_ws r with
  | q :: r1 =>
      if (q =? 125)%N then Scanned (JObj []) r1
      else if (q =? 34)%N then
        match object_items fuel r1 with
        | Scanned kvs rest => Scanned (JObj (dict_of_pairs kvs)) rest
        | Fail => Fail
        | Starved => Starved
        end
      else Fail
  | [] => Fail
  end.
Proof. reflexivity. Qed.

Section WithRepr.
Variable fr : pyfloat -> text.

Local Abbreviation items_text := (Aux.items_text fr).

Lemma dumps_obj l : dumps fr (JObj l) = 123%N :: items_text l ++ [125%N].
Proof.
  reflexivity.
Qed.

(** The first character of an encoded scalar is not white space and
    opens neither a string nor a number where it should not. *)
Lemma dumps_scalar_head v :
  scalar fr v ->
  exists c r, dumps fr v = c :: r /\ is_ws c = false.
Proof.
  destruct v as [| [|] | z | f | s | l | l]; cbn [scalar];
    try contradiction; intros H.
  - eexists _, _. split; [reflexivity | reflexivity].
  - eexists _, _. split; [reflexivity | reflexivity].
  - destruct (int_repr_head z) as (c & ds & E & Hc).
    exists c, ds. split; [exact E|].
    destruct Hc as [-> | Hc]; [reflexivity|].
    unfold is_ws. rewrite !(digit_not' c) by (auto; lia). reflexivity.
  - destruct H as (_ & Hp & Hs). cbn [dumps].
    destruct (floatstr fr f) as [|c r] eqn:E.
    + specialize (Hs 0 [125%N] (or_intror eq_refl)).
      vm_compute in Hs. discriminate Hs.
    + exists c, r. split; [reflexivity|].
      inversion Hp as [|? ? Hc _]; subst. cbv beta in Hc.
      unfold is_ws.
      repeat (replace (c =? _)%N with false
                by (symmetry; apply N.eqb_neq; lia)).
      reflexivity.
  - eexists _, _. split; [reflexivity | reflexivity].
Qed.

Lemma skip_ws_scalar v rest :
  scalar fr v -> skip_ws (dumps fr v ++ rest) = dumps fr v ++ rest.
Proof.
  intros H. destruct (dumps_scalar_head v H) as (c & r & E & Hc).
  rewrite E. cbn [app skip_ws]. now rewrite Hc.
Qed.

Lemma closes_ends_number rest : closes rest -> ends_number rest.
Proof.
  destruct rest as [|c r]; [contradiction|].
  intros [-> | ->]; cbn; repeat split; discriminate.
Qed.

Lemma scan_once_scalar fuel v rest :
  scalar fr v -> closes rest ->
  scan_once (S fuel) (dumps fr v ++ rest) = Scanned v rest.
Proof.
  destruct v as [| [|] | z | f | s | l | l]; cbn [scalar];
    try contradiction; intros H Hc0;
    pose proof (closes_ends_number rest Hc0) as Hr.
  - reflexivity.
  - reflexivity.
  - cbn [dumps].
    destruct (int_repr_head z) as (c & ds & E & Hc).
    assert (Hk : forall k, (57 < k)%N \/ k = 34%N -> (c =? k)%N = false).
    { intros k Hk. destruct Hc as [-> | Hc].
      - apply N.eqb_neq. lia.
      - apply digit_not'; [assumption | lia]. }
    pose proof (scan_atom_int z rest Hr) as A.
    rewrite E in *. cbn [app scan_once].
    rewrite !Hk by lia. exact A.
  - destruct H as (_ & _ & Hs). cbn [dumps]. now apply Hs.
  - destruct H. cbn [dumps]. now apply scan_once_string.
Qed.

Lemma ends_number_brace rest : ends_number (125%N :: rest).
Proof. cbn. repeat split; discriminate. Qed.

Lemma ends_number_comma rest : ends_number (44%N :: rest).
Proof. cbn. repeat split; discriminate. Qed.

Lemma items_text_head k x l :
  exists r, items_text ((k, x) :: l) = 34%N :: r.
Proof.
  destruct l; cbn [items_text]; unfold encode_basestring_ascii;
    cbn [app]; eauto.
Qed.

(** The loop of [JSONObject] reads the items the encoder wrote. *)
Lemma object_items_flat l : forall fuel rest r1,
  l <> [] -> Forall (item_ok fr) l -> length l < fuel ->
  items_text l ++ 125%N :: rest = 34%N :: r1 ->
  object_items fuel r1 = Scanned l rest.
Proof.
  induction l as [|[k x] l IH]; intros fuel rest r1 Hne Hok Hf E;
    [congruence|].
  inversion Hok as [|? ? [Hk Hx] Hl]; subst. cbn [fst snd] in *.
  destruct fuel as [|fuel]; [cbn in Hf; lia|].
  destruct fuel as [|fuel]; [cbn in Hf; lia|].
  assert (Hstep : forall tail,
    closes tail ->
    (match skip_ws tail with
     | d :: r3 =>
         if (d =? 125)%N then Scanned [(k, x)] r3
         else if (d =? 44)%N then
           match skip_ws r3 with
           | q :: r4 =>
               if (q =? 34)%N then
                 match object_items (S fuel) r4 with
                 | Scanned kvs rest0 => Scanned ((k, x) :: kvs) rest0
                 | Fail => Fail
                 | Starved => Starved
                 end
               else Fail
           | [] => Fail
           end
         else Fail
     | [] => Fail
     end = Scanned ((k, x) :: l) rest) ->
    encode_basestring_ascii k ++ key_separator ++ dumps fr x ++ tail
    = 34%N :: r1 ->
    object_items (S (S fuel)) r1 = Scanned ((k, x) :: l) rest).
  { intros tail Ht Hres Etail.
    unfold encode_basestring_ascii in Etail. cbn [app] in Etail.
    injection Etail as <-.
    rewrite object_items_eq.
    rewrite <- app_assoc. cbn [app].
    destruct Hk as [Hk1 Hk2].
    fold (escaped k). rewrite scanstring_escaped by assumption.
    change key_separator with [58%N; 32%N]. cbn [app].
    rewrite skip_ws_keep by reflexivity.
    change (58 =? 58)%N with true. cbv iota.
    rewrite skip_ws_space, skip_ws_scalar by assumption.
    rewrite scan_once_scalar by assumption.
    exact Hres. }
  destruct l as [|[k' x'] l'].
  - (* last item *)
    apply (Hstep (125%N :: rest)); [right; reflexivity | |].
    { rewrite skip_ws_keep by reflexivity. reflexivity. }
    cbn [items_text] in E. rewrite <- E. now rewrite <- !app_assoc.
  - destruct (items_text_head k' x' l') as (r4 & E4).
    apply (Hstep (item_separator ++ items_text ((k', x') :: l') ++ 125%N :: rest)).
    + left. reflexivity.
    + change item_separator with [44%N; 32%N]. cbn [app].
      rewrite skip_ws_keep by reflexivity.
      change (44 =? 125)%N with false. change (44 =? 44)%N with true.
      cbv iota.
      rewrite skip_ws_space, E4. cbn [app].
      rewrite skip_ws_keep by reflexivity.
      change (34 =? 34)%N with true. cbv iota.
      rewrite (IH (S fuel) rest (r4 ++ 125%N :: rest)); try reflexivity.
      * discriminate.
      * assumption.
      * cbn [length] in *. lia.
      * now rewrite E4.
    + rewrite <- E. cbn [items_text]. now rewrite <- !app_assoc.
Qed.

Lemma dict_set_absent k v d :
  ~ In k (List.map fst d) -> dict_set k v d = d ++ [(k, v)].
Proof.
  induction d as [|[k' v'] d IH]; intros H; [reflexivity|].
  cbn [dict_set]. cbn in H.
  rewrite text_eqb_neq by tauto.
  rewrite IH by tauto. reflexivity.
Qed.

Lemma dict_of_pairs_nodup l :
  NoDup (List.map fst l) -> dict_of_pairs l = l.
Proof.
  unfold dict_of_pairs.
  assert (G : forall acc,
             NoDup (List.map fst (acc ++ l)) ->
             fold_left (fun d kv => dict_set (fst kv) (snd kv) d) l acc
             = acc ++ l).
  { induction l as [|[k v] l IH]; intros acc H.
    - now rewrite app_nil_r.
    - cbn [fold_left fst snd].
      rewrite dict_set_absent.
      + rewrite IH; rewrite <- app_assoc; [reflexivity | exact H].
      + rewrite map_app in H. cbn in H.
        apply NoDup_remove_2 in H. intros Hin. apply H.
        apply in_or_app. now left. }
  intros H. now apply (G []).
Qed.

Lemma items_text_length l : length l <= length (items_text l).
Proof.
  induction l as [|[k x] l IH]; [cbn; lia|].
  destruct l as [|[k' x'] l].
  - cbn [items_text]. unfold encode_basestring_ascii.
    cbn [app length]. lia.
  - change (items_text ((k, x) :: (k', x') :: l))
      with (encode_basestring_ascii k ++ key_separator ++ dumps fr x
            ++ item_separator ++ items_text ((k', x') :: l)).
    unfold encode_basestring_ascii at 1.
    cbn [app]. cbn [length]. rewrite !length_app.
    cbn [length] in IH. lia.
Qed.

(** [scan_once] reads back an encoded flat dictionary. *)
Lemma scan_once_flat_dict l fuel rest :
  flat_dict fr l -> length l + 1 < fuel ->
  scan_once fuel (dumps fr (JObj l) ++ rest) = Scanned (JObj l) rest.
Proof.
  intros [Hnd Hok] Hf. rewrite dumps_obj.
  destruct fuel as [|fuel]; [lia|].
  destruct l as [|[k x] l].
  - reflexivity.
  - destruct (items_text_head k x l) as (r1 & E1).
    cbn [app]. rewrite scan_once_brace.
    rewrite <- app_assoc. cbn [app].
    assert (E : items_text ((k, x) :: l) ++ 125%N :: rest = 34%N :: r1 ++ 125%N :: rest)
      by now rewrite E1.
    rewrite E. rewrite skip_ws_keep by reflexivity.
    change (34 =? 125)%N with false. change (34 =? 34)%N with true.
    cbv iota.
    rewrite (object_items_flat ((k, x) :: l) fuel rest (r1 ++ 125%N :: rest));
      try assumption.
    + now rewrite dict_of_pairs_nodup.
    + discriminate.
    + lia.
Qed.

(** [json.loads(json.dumps(d)) == d] for a flat dictionary. *)
Lemma loads_dumps_flat_dict l :
  flat_dict fr l -> loads (dumps fr (JObj l)) = Scanned (JObj l) [].
Proof.
  intros H. unfold loads.
  assert (Hs : skip_ws (dumps fr (JObj l)) = dumps fr (JObj l)).
  { rewrite dumps_obj. reflexivity. }
  rewrite Hs.
  pose proof (scan_once_flat_dict l (2 * length (dumps fr (JObj l)) + 2) [] H) as R.
  rewrite app_nil_r in R. rewrite R; [reflexivity|].
  rewrite dumps_obj. cbn [length]. rewrite length_app.
  pose proof (items_text_length l). cbn [length]. lia.
Qed.

(** The encoding of a flat dictionary is printable ASCII. *)
Lemma dumps_scalar_printable v :
  scalar fr v -> Forall printable (dumps fr v).
Proof.
  destruct v as [| [|] | z | f | s | l | l]; cbn [scalar];
    try contradiction; intros H.
  - cbv. repeat constructor; discriminate.
  - cbv. repeat constructor; discriminate.
  - apply int_repr_printable.
  - destruct H as (_ & Hp & _). cbn [dumps].
    eapply Forall_impl; [|exact Hp].
    intros c Hc. cbv beta in Hc. unfold printable. lia.
  - apply basestring_printable.
Qed.

Lemma items_text_printable l :
  Forall (item_ok fr) l -> Forall printable (items_text l).
Proof.
  assert (Hsep : Forall printable key_separator /\ Forall printable item_separator).
  { split; cbv; repeat constructor; discriminate. }
  destruct Hsep as [Hk Hi].
  induction l as [|[k x] l IH]; intros H; [constructor|].
  inversion H as [|? ? [_ Hx] Hl]; subst. cbn [snd] in Hx.
  destruct l as [|kx l].
  - cbn [items_text]. repeat (apply Forall_app; split);
      auto using basestring_printable, dumps_scalar_printable.
  - cbn [items_text] in *. repeat (apply Forall_app; split);
      auto using basestring_printable, dumps_scalar_printable.
Qed.

Lemma dumps_flat_printable l :
  flat_dict fr l -> Forall printable (dumps fr (JObj l)).
Proof.
  intros [_ H]. rewrite dumps_obj.
  constructor; [unfold printable; lia|].
  apply Forall_app. split; [now apply items_text_printable|].
  repeat constructor; unfold printable; lia.
Qed.

End WithRepr.
End DumpsFacts.

(* ================================================================== *)
(** * The scanner never runs out of budget *)

Module FuelFacts.
Import Json JsonDecoder.
Import Aux.

Lemma skip_ws_le s : length (skip_ws s) <= length s.
Proof.
  induction s as [|c s IH]; cbn [skip_ws length]; [lia|].
  destruct (is_ws c); cbn [length]; lia.
Qed.

Lemma prepend_shorter c r t rest n :
  prepend c r = Some (t, rest) ->
  (forall t', r = Some (t', rest) -> length rest < n) ->
  length rest < n.
Proof.
  destruct r as [[t' rest']|]; cbn; [|discriminate].
  intros H. injection H as _ <-. intros G. now apply (G t').
Qed.

Lemma scanstring_shorter s : forall t rest,
  scanstring s = Some (t, rest) -> length rest < length s.
Proof.
  induction s as [s IH] using (induction_ltof1 _ (@length N)).
  unfold ltof in IH. intros t rest.
  destruct s as [|c r]; [discriminate|].
  cbn [scanstring].
  destruct (c =? 34)%N.
  { intros H. injection H as _ <-. cbn [length]. lia. }
  destruct (c <? 32)%N; [discriminate|].
  assert (G : forall x r', length r' < length (c :: r) ->
              prepend x (scanstring r') = Some (t, rest) ->
              length rest < length (c :: r)).
  { intros x r' Hr H. eapply prepend_shorter; [exact H|].
    intros t' E. apply IH in E; [lia | exact Hr]. }
  destruct (c =? 92)%N; [|apply G; cbn [length]; lia].
  destruct r as [|e r1]; [discriminate|].
  destruct (e =? 117)%N.
  - destruct r1 as [|h1 [|h2 [|h3 [|h4 r2]]]]; try discriminate.
    destruct (decode_hex4 h1 h2 h3 h4) as [uni|]; [|discriminate].
    destruct (is_high_surrogate uni); [|apply G; cbn [length]; lia].
    destruct r2 as [|b1 [|u1 r3]]; try (apply G; cbn [length]; lia).
    destruct ((b1 =? 92) && (u1 =? 117))%N; [|apply G; cbn [length]; lia].
    destruct r3 as [|g1 [|g2 [|g3 [|g4 r4]]]]; try discriminate.
    destruct (decode_hex4 g1 g2 g3 g4) as [uni2|]; [|discriminate].
    destruct (is_low_surrogate uni2); apply G; cbn [length]; lia.
  - destruct (backslash e); [|discriminate].
    apply G. cbn [length]. lia.
Qed.

Lemma starts_with_shorter p : forall s r,
  starts_with p s = Some r -> length r + length p = length s.
Proof.
  induction p as [|a p IH]; intros s r; cbn [starts_with].
  - intros H. injection H as <-. cbn. lia.
  - destruct s as [|c s]; [discriminate|].
    destruct (a =? c)%N; [|discriminate].
    intros H. apply IH in H. cbn [length]. lia.
Qed.

Lemma span_digits_le s : length (snd (span_digits s)) <= length s.
Proof.
  induction s as [|c s IH]; cbn [span_digits]; [cbn; lia|].
  destruct (is_digit c); [|cbn; lia].
  destruct (span_digits s) as [ds rest]. cbn [snd length] in *. lia.
Qed.

Lemma match_frac_le s : length (snd (match_frac s)) <= length s.
Proof.
  unfold match_frac. destruct s as [|p [|d r]]; try (cbn; lia).
  destruct ((p =? 46)%N && is_digit d); [|cbn; lia].
  pose proof (span_digits_le r).
  destruct (span_digits r) as [ds rest]. cbn [snd length] in *. lia.
Qed.

Lemma match_exp_le s : length (snd (match_exp s)) <= length s.
Proof.
  unfold match_exp. destruct s as [|e r]; [cbn; lia|].
  destruct ((e =? 101) || (e =? 69))%N; [|cbn; lia].
  assert (G : forall eneg r1, length r1 <= length r ->
    length (snd (match r1 with
                 | d :: _ =>
                     if is_digit d
                     then let (ds, rest) := span_digits r1 in
                          (Some (parse_int eneg ds), rest)
                     else (None, e :: r)
                 | [] => (None, e :: r)
                 end)) <= length (e :: r)).
  { intros eneg r1 Hr. destruct r1 as [|d r1']; [cbn; lia|].
    destruct (is_digit d); [|cbn; lia].
    pose proof (span_digits_le (d :: r1')).
    destruct (span_digits (d :: r1')) as [ds rest].
    cbn [snd length] in *. lia. }
  destruct r as [|c r']; [cbn; lia|].
  destruct (c =? 45)%N;
    [exact (G true r' ltac:(cbn [length]; lia))|].
  destruct (c =? 43)%N;
    [exact (G false r' ltac:(cbn [length]; lia))|].
  exact (G false (c :: r') ltac:(cbn [length]; lia)).
Qed.

Lemma match_number_shorter s v r :
  match_number s = Some (v, r) -> length r < length s.
Proof.
  unfold match_number.
  assert (Hs : length (snd (match_sign s)) <= length s).
  { unfold match_sign. destruct s as [|c s']; [cbn; lia|].
    destruct (c =? 45)%N; cbn [snd length]; lia. }
  destruct (match_sign s) as [neg s1]. cbn [snd] in Hs.
  assert (Hi : forall ids r1, match_int_part s1 = Some (ids, r1) ->
                              length r1 < length s1).
  { intros ids r1. unfold match_int_part.
    destruct s1 as [|c s1']; [discriminate|].
    destruct (c =? 48)%N.
    - intros H. injection H as _ <-. cbn [length]. lia.
    - destruct (is_digit c); [|discriminate].
      pose proof (span_digits_le s1').
      destruct (span_digits s1') as [ds rest]. cbn [snd] in *.
      intros E. injection E as _ <-. cbn [length]. lia. }
  destruct (match_int_part s1) as [[ids r1]|]; [|discriminate].
  specialize (Hi ids r1 eq_refl).
  pose proof (match_frac_le r1) as Hf.
  destruct (match_frac r1) as [frac r2]. cbn [snd] in Hf.
  pose proof (match_exp_le r2) as He.
  destruct (match_exp r2) as [ex r3]. cbn [snd] in He.
  destruct frac, ex; intros H; injection H as _ <-; lia.
Qed.

Lemma scan_atom_shorter s v r :
  scan_atom s = Scanned v r -> length r < length s.
Proof.
  unfold scan_atom, scan_constant.
  repeat match goal with
  | |- context [starts_with ?p s] =>
      let E := fresh "E" in
      destruct (starts_with p s) eqn:E;
      [apply starts_with_shorter in E; cbn [length of_string] in E;
       intros H; injection H as _ <-;
       revert E; cbn; lia|]
  | |- context [match_number s] =>
      let E := fresh "E" in
      destruct (match_number s) as [[v' r']|] eqn:E;
      [apply match_number_shorter in E; intros H; injection H as _ <-;
       exact E|]
  end.
  discriminate.
Qed.

Lemma scan_once_eq fuel c r :
  scan_once (S fuel) (c :: r) =
  if (c =? 34)%N then
    match scanstring r with
    | Some (t, rest) => Scanned (JStr t) rest
    | None => Fail
    end
  else if (c =? 123)%N then
    match skip_ws r with
    | q :: r1 =>
        if (q =? 125)%N then Scanned (JObj []) r1
        else if (q =? 34)%N then
          match object_items fuel r1 with
          | Scanned kvs rest => Scanned (JObj (dict_of_pairs kvs)) rest
          | Fail => Fail
          | Starved => Starved
          end
        else Fail
    | [] => Fail
    end
  else if (c =? 91)%N then
    match skip_ws r with
    | q :: r1 =>
        if (q =? 93)%N then Scanned (JArr []) r1
        else
          match array_items fuel (q :: r1) with
          | Scanned vs rest => Scanned (JArr vs) rest
          | Fail => Fail
          | Starved => Starved
          end
    | [] => Fail
    end
  else scan_atom (c :: r).
Proof. reflexivity. Qed.

Lemma array_items_eq fuel s :
  array_items (S fuel) s =
  match scan_once fuel s with
  | Scanned v r =>
      match skip_ws r with
      | d :: r1 =>
          if (d =? 93)%N then Scanned [v] r1
          else if (d =? 44)%N then
            match array_items fuel (skip_ws r1) with
            | Scanned vs rest => Scanned (v :: vs) rest
            | Fail => Fail
            | Starved => Starved
            end
          else Fail
      | [] => Fail
      end
  | Fail => Fail
  | Starved => Starved
  end.
Proof. reflexivity. Qed.

(** Destruct the scrutinee of the match at the head of the goal or of a
    hypothesis, keeping what is known about lengths. *)
Ltac step_ws x :=
  let W := fresh "W" in
  let L := fresh "L" in
  pose proof (skip_ws_le x) as L;
  destruct (skip_ws x) as [|? ?] eqn:W; cbn [length] in L.

Lemma scan_shorter fuel :
  (forall s v r, scan_once fuel s = Scanned v r -> length r < length s)
  /\ (forall s kvs r,
        object_items fuel s = Scanned kvs r -> length r < length s)
  /\ (forall s vs r,
        array_items fuel s = Scanned vs r -> length r < length s).
Proof.
  induction fuel as [|fuel (IHv & IHo & IHa)].
  - repeat split; intros; discriminate.
  - split; [|split].
    + intros s v r. destruct s as [|c s]; [discriminate|].
      rewrite scan_once_eq.
      destruct (c =? 34)%N.
      { destruct (scanstring s) as [[t rest]|] eqn:E; [|discriminate].
        apply scanstring_shorter in E.
        intros H. injection H as _ <-. cbn [length]. lia. }
      destruct (c =? 123)%N.
      { step_ws s; [discriminate|].
        destruct (n =? 125)%N;
          [intros H; injection H as _ <-; cbn [length]; lia|].
        destruct (n =? 34)%N; [|discriminate].
        destruct (object_items fuel l) as [kvs rest| |] eqn:E;
          try discriminate.
        apply IHo in E. intros H. injection H as _ <-.
        cbn [length]. lia. }
      destruct (c =? 91)%N; [|apply scan_atom_shorter].
      step_ws s; [discriminate|].
      destruct (n =? 93)%N;
        [intros H; injection H as _ <-; cbn [length]; lia|].
      destruct (array_items fuel (n :: l)) as [vs rest| |] eqn:E;
        try discriminate.
      apply IHa in E. intros H. injection H as _ <-.
      cbn [length] in *. lia.
    + intros s kvs r. rewrite DumpsFacts.object_items_eq.
      destruct (scanstring s) as [[key r0]|] eqn:E; [|discriminate].
      apply scanstring_shorter in E.
      step_ws r0; [discriminate|].
      destruct (n =? 58)%N; [|discriminate].
      pose proof (skip_ws_le l) as L1.
      destruct (scan_once fuel (skip_ws l)) as [v r2| |] eqn:E2;
        try discriminate.
      apply IHv in E2.
      step_ws r2; [discriminate|].
      destruct (n0 =? 125)%N;
        [intros H; injection H as _ <-; lia|].
      destruct (n0 =? 44)%N; [|discriminate].
      step_ws l0; [discriminate|].
      destruct (n1 =? 34)%N; [|discriminate].
      destruct (object_items fuel l1) as [kvs' rest| |] eqn:E3;
        try discriminate.
      apply IHo in E3. intros H. injection H as _ <-. lia.
    + intros s vs r. rewrite array_items_eq.
      destruct (scan_once fuel s) as [v r0| |] eqn:E; try discriminate.
      apply IHv in E.
      step_ws r0; [discriminate|].
      destruct (n =? 93)%N;
        [intros H; injection H as _ <-; lia|].
      destruct (n =? 44)%N; [|discriminate].
      pose proof (skip_ws_le l) as L1.
      destruct (array_items fuel (skip_ws l)) as [vs' rest| |] eqn:E3;
        try discriminate.
      apply IHa in E3. intros H. injection H as _ <-. lia.
Qed.

(** With a budget of twice the length of the text (and two more) the
    scanners never run out of it. *)
Lemma scan_fed fuel :
  (forall s, 2 * length s + 1 <= fuel -> scan_once fuel s <> Starved)
  /\ (forall s, 2 * length s + 2 <= fuel -> object_items fuel s <> Starved)
  /\ (forall s, 2 * length s + 2 <= fuel -> array_items fuel s <> Starved).
Proof.
  induction fuel as [|fuel (IHv & IHo & IHa)].
  - repeat split; intros; lia.
  - destruct (scan_shorter fuel) as (Sv & So & Sa).
    split; [|split].
    + intros s Hf. destruct s as [|c s]; [discriminate|].
      cbn [length] in Hf. rewrite scan_once_eq.
      destruct (c =? 34)%N.
      { destruct (scanstring s) as [[t rest]|]; discriminate. }
      destruct (c =? 123)%N.
      { step_ws s; [discriminate|].
        destruct (n =? 125)%N; [discriminate|].
        destruct (n =? 34)%N; [|discriminate].
        destruct (object_items fuel l) as [kvs rest| |] eqn:E;
          try discriminate.
        exfalso. apply (IHo l); [lia | exact E]. }
      destruct (c =? 91)%N.
      { step_ws s; [discriminate|].
        destruct (n =? 93)%N; [discriminate|].
        destruct (array_items fuel (n :: l)) as [vs rest| |] eqn:E;
          try discriminate.
        exfalso. apply (IHa (n :: l)); [cbn [length]; lia | exact E]. }
      unfold scan_atom, scan_constant.
      repeat match goal with
      | |- context [match ?x with _ => _ end] => destruct x
      end; discriminate.
    + intros s Hf. rewrite DumpsFacts.object_items_eq.
      destruct (scanstring s) as [[key r0]|] eqn:E; [|discriminate].
      apply scanstring_shorter in E.
      step_ws r0; [discriminate|].
      destruct (n =? 58)%N; [|discriminate].
      pose proof (skip_ws_le l) as L1.
      destruct (scan_once fuel (skip_ws l)) as [v r2| |] eqn:E2;
        [| discriminate
         | exfalso; apply (IHv (skip_ws l)); [lia | exact E2]].
      apply Sv in E2.
      step_ws r2; [discriminate|].
      destruct (n0 =? 125)%N; [discriminate|].
      destruct (n0 =? 44)%N; [|discriminate].
      step_ws l0; [discriminate|].
      destruct (n1 =? 34)%N; [|discriminate].
      destruct (object_items fuel l1) as [kvs' rest| |] eqn:E3;
        try discriminate.
      exfalso. apply (IHo l1); [lia | exact E3].
    + intros s Hf. rewrite array_items_eq.
      destruct (scan_once fuel s) as [v r0| |] eqn:E;
        [| discriminate | exfalso; apply (IHv s); [lia | exact E]].
      apply Sv in E.
      step_ws r0; [discriminate|].
      destruct (n =? 93)%N; [discriminate|].
      destruct (n =? 44)%N; [|discriminate].
      pose proof (skip_ws_le l) as L1.
      destruct (array_items fuel (skip_ws l)) as [vs' rest| |] eqn:E3;
        try discriminate.
      exfalso. apply (IHa (skip_ws l)); [lia | exact E3].
Qed.

(** [json.loads] always answers: a value or a [JSONDecodeError]. *)
Lemma loads_fed s : loads s <> Starved.
Proof.
  unfold loads.
  pose proof (skip_ws_le s) as L.
  destruct (scan_once (2 * length s + 2) (skip_ws s)) as [v rest| |] eqn:E.
  - destruct (skip_ws rest); discriminate.
  - discriminate.
  - exfalso.
    apply (proj1 (scan_fed (2 * length s + 2)) (skip_ws s)); [lia | exact E].
Qed.
End FuelFacts.

(* ================================================================== *)
(** * Header, body and frame *)

Module CodecFacts.
Import Json JsonDecoder Connection Valid.
Import Aux.
Import TextFacts Utf8Facts StringFacts EscapeFacts NumberFacts DumpsFacts.

Lemma printable_ascii s : Forall printable s -> is_ascii s.
Proof.
  intros H. eapply Forall_impl; [|exact H].
  unfold printable. intros c Hc. lia.
Qed.

Lemma printable_no_null s : Forall printable s -> remove_char 0%N s = s.
Proof.
  intros H. apply remove_char_absent.
  eapply Forall_impl; [|exact H].
  unfold printable. intros c Hc. lia.
Qed.

(** A string below the surrogates is well formed; this settles the
    literals of the code. *)
Lemma wf_string_literal s :
  forallb (fun c => (c <? 0xD800)%N) s = true -> wf_string s.
Proof.
  induction s as [|c s IH]; intros H.
  - split; [constructor | exact I].
  - cbn [forallb] in H. apply andb_true_iff in H as [Hc Hs].
    apply N.ltb_lt in Hc. destruct (IH Hs) as [Hv Hn].
    split.
    + constructor; [unfold valid_codepoint; lia | exact Hv].
    + cbn [no_surrogate_pair]. split; [|exact Hn].
      destruct s; [exact I|].
      unfold is_high_surrogate.
      replace (0xD800 <=? c)%N with false; [reflexivity|].
      symmetry. apply N.leb_gt. exact Hc.
Qed.

Section WithRepr.
Variable fr : pyfloat -> text.

Lemma header_dict_flat len s :
  wf_string s -> flat_dict fr (header_dict len s).
Proof.
  intros Hs. split.
  - cbn [header_dict List.map fst].
    constructor; [|constructor; [|constructor]]; cbn [In].
    + intros [H|[]]. discriminate H.
    + intros [].
  - constructor; [|constructor; [|constructor]]; cbn [fst snd scalar].
    + split; [now apply wf_string_literal | exact I].
    + split; [now apply wf_string_literal | exact Hs].
Qed.

Lemma header_json_eq len s :
  header_json fr len (JStr s) = dumps fr (JObj (header_dict len s)).
Proof. reflexivity. Qed.

(** The header the sender packs is the one the receiver parses. *)
Lemma parse_header_pack len s hdr :
  wf_string s ->
  pack_header fr len (JStr s) = inl hdr ->
  parse_header hdr = HeaderOk (JInt (Z.of_nat len)) (JStr s).
Proof.
  intros Hs Hp. unfold pack_header in Hp.
  pose proof (header_dict_flat len s Hs) as Hf.
  pose proof (dumps_flat_printable fr _ Hf) as Hpr.
  rewrite header_json_eq in Hp.
  pose proof (loads_dumps_flat_dict fr _ Hf) as Hl.
  remember (dumps fr (JObj (header_dict len s))) as t eqn:Et.
  rewrite encode_ascii in Hp by now apply printable_ascii.
  destruct (HEADER_LEN_BYTES <? _); [discriminate|].
  injection Hp as <-.
  unfold parse_header, ljust.
  rewrite ascii_bytes_zeros, <- ascii_bytes_app.
  rewrite decode_ascii.
  - rewrite remove_char_app, remove_char_repeat, app_nil_r.
    rewrite printable_no_null by assumption.
    rewrite Hl. reflexivity.
  - apply Forall_app. split; [now apply printable_ascii|].
    apply Forall_forall. intros c Hc. apply repeat_spec in Hc. subst. lia.
Qed.

Lemma pack_header_length len subj hdr :
  pack_header fr len subj = inl hdr -> length hdr = HEADER_LEN_BYTES.
Proof.
  unfold pack_header. destruct (Utf8.encode _) as [hb|]; [|discriminate].
  destruct (HEADER_LEN_BYTES <? length hb) eqn:E; [discriminate|].
  intros H. injection H as <-. apply Nat.ltb_ge in E.
  unfold ljust. rewrite length_app, repeat_length. lia.
Qed.

(** The body the sender serializes is the one the receiver
    deserializes. *)
Lemma deserialize_serialize subj l body :
  flat_dict fr l ->
  serialize fr {| subject := subj; payload := JObj l |} = Some body ->
  deserialize subj body = Some {| subject := subj; payload := JObj l |}.
Proof.
  intros Hf Hs. unfold serialize in Hs. cbn [payload] in Hs.
  pose proof (dumps_flat_printable fr _ Hf) as Hpr.
  pose proof (loads_dumps_flat_dict fr _ Hf) as Hl.
  remember (dumps fr (JObj l)) as t eqn:Et.
  rewrite encode_ascii in Hs by now apply printable_ascii.
  injection Hs as <-. unfold deserialize.
  rewrite decode_ascii by now apply printable_ascii.
  rewrite Hl. reflexivity.
Qed.

End WithRepr.

(** *** The read loops under a steady script *)

Lemma steady_le n m script : m <= n -> steady n script -> steady m script.
Proof.
  revert m script. induction n as [|n IH]; intros m script Hm H.
  - replace m with 0 by lia. exact I.
  - destruct m as [|m]; [exact I|].
    destruct script as [|[k| | |] r]; cbn in *; try contradiction.
    apply IH; [lia | exact H].
Qed.

Lemma recv_header_steady n : forall script inc got,
  n = HEADER_LEN_BYTES - length got ->
  length got <= HEADER_LEN_BYTES ->
  HEADER_LEN_BYTES <= length got + length inc ->
  forall extra, steady (n + extra) script ->
  exists script',
    recv_header script inc got
    = (ReadDone (got ++ firstn n inc), script', skipn n inc)
    /\ steady extra script'.
Proof.
  induction n as [n IH] using lt_wf_ind.
  intros script inc got Hn Hg Hi extra Hs.
  destruct n as [|n].
  - exists script. split; [|exact Hs].
    destruct script; cbn [recv_header];
      replace (HEADER_LEN_BYTES <=? length got) with true
        by (symmetry; apply Nat.leb_le; lia);
      cbn [firstn skipn]; now rewrite app_nil_r.
  - destruct script as [|[k| | |] script]; try contradiction.
    cbn [plus steady] in Hs.
    cbn [recv_header].
    replace (HEADER_LEN_BYTES <=? length got) with false
      by (symmetry; apply Nat.leb_gt; lia).
    rewrite <- Hn.
    destruct inc as [|x inc]; [cbn in Hi; lia|].
    unfold recv1.
    set (c := Nat.min (S k) (S n)).
    assert (Hc : 1 <= c <= S n) by (unfold c; lia).
    assert (Hlen : length (firstn c (x :: inc)) = c).
    { rewrite length_firstn. cbn [length] in *. lia. }
    destruct (firstn c (x :: inc)) as [|y ys] eqn:Ec;
      [cbn in Hlen; lia|].
    destruct (IH (S n - c) ltac:(lia) script (skipn c (x :: inc))
                 (got ++ y :: ys)) with (extra := extra)
      as (script' & E & Hs').
    + rewrite length_app, Hlen. lia.
    + rewrite length_app, Hlen. lia.
    + rewrite length_app, Hlen, length_skipn. cbn [length] in *. lia.
    + eapply steady_le; [|exact Hs]. lia.
    + exists script'. split; [|exact Hs'].
      rewrite E. rewrite <- Ec. f_equal; [f_equal|].
      * f_equal. rewrite <- app_assoc. f_equal.
        rewrite <- (firstn_skipn c (firstn (S n) (x :: inc))) at 1.
        rewrite firstn_firstn. replace (Nat.min c (S n)) with c by lia.
        f_equal. rewrite skipn_firstn_comm. reflexivity.
      * rewrite skipn_skipn. f_equal. lia.
Qed.
End CodecFacts.

Module RoundTrip.
Import Json JsonDecoder Connection Valid.
Import Aux.
Import TextFacts Utf8Facts DumpsFacts CodecFacts.

Lemma body_want_int len got :
  body_want (JInt (Z.of_nat len)) got =
  if got <? len then WantMore (Nat.min (len - got) CHUNK_SIZE_BYTES)
  else WantDone.
Proof.
  cbn [body_want]. unfold want_int.
  destruct (got <? len) eqn:E.
  - apply Nat.ltb_lt in E.
    replace (Z.of_nat got <? Z.of_nat len)%Z with true
      by (symmetry; apply Z.ltb_lt; lia).
    do 2 f_equal. lia.
  - apply Nat.ltb_ge in E.
    replace (Z.of_nat got <? Z.of_nat len)%Z with false
      by (symmetry; apply Z.ltb_ge; lia).
    reflexivity.
Qed.

Lemma recv_body_steady len n : forall script inc got,
  n = len - length got ->
  length got <= len ->
  len <= length got + length inc ->
  forall extra, steady (n + extra) script ->
  exists script',
    recv_body script inc (JInt (Z.of_nat len)) got
    = (ReadDone (got ++ firstn n inc), script', skipn n inc)
    /\ steady extra script'.
Proof.
  induction n as [n IH] using lt_wf_ind.
  intros script inc got Hn Hg Hi extra Hs.
  destruct n as [|n].
  - exists script. split; [|exact Hs].
    destruct script; cbn [recv_body]; rewrite body_want_int;
      replace (length got <? len) with false
        by (symmetry; apply Nat.ltb_ge; lia);
      cbn [firstn skipn]; now rewrite app_nil_r.
  - destruct script as [|[k| | |] script]; try contradiction.
    cbn [plus steady] in Hs.
    cbn [recv_body]. rewrite body_want_int.
    replace (length got <? len) with true
      by (symmetry; apply Nat.ltb_lt; lia).
    rewrite <- Hn.
    destruct inc as [|x inc]; [cbn in Hi; lia|].
    unfold recv1.
    set (c := Nat.min (S k) (Nat.min (S n) CHUNK_SIZE_BYTES)).
    assert (Hc : 1 <= c <= S n) by (unfold c, CHUNK_SIZE_BYTES; lia).
    assert (Hlen : length (firstn c (x :: inc)) = c).
    { rewrite length_firstn. cbn [length] in *. lia. }
    destruct (firstn c (x :: inc)) as [|y ys] eqn:Ec;
      [cbn in Hlen; lia|].
    destruct (IH (S n - c) ltac:(lia) script (skipn c (x :: inc))
                 (got ++ y :: ys)) with (extra := extra)
      as (script' & E & Hs').
    + rewrite length_app, Hlen. lia.
    + rewrite length_app, Hlen. lia.
    + rewrite length_app, Hlen, length_skipn. cbn [length] in *. lia.
    + eapply steady_le; [|exact Hs]. lia.
    + exists script'. split; [|exact Hs'].
      rewrite E. rewrite <- Ec. f_equal; [f_equal|].
      * f_equal. rewrite <- app_assoc. f_equal.
        rewrite <- (firstn_skipn c (firstn (S n) (x :: inc))) at 1.
        rewrite firstn_firstn. replace (Nat.min c (S n)) with c by lia.
        f_equal. rewrite skipn_firstn_comm. reflexivity.
      * rewrite skipn_skipn. f_equal. lia.
Qed.

Lemma take_app {A} (a b : list A) : firstn (length a) (a ++ b) = a.
Proof.
  rewrite firstn_app, Nat.sub_diag, firstn_all, firstn_O. apply app_nil_r.
Qed.

Lemma drop_app {A} (a b : list A) : skipn (length a) (a ++ b) = b.
Proof.
  rewrite skipn_app, Nat.sub_diag, skipn_all, skipn_O. reflexivity.
Qed.

Lemma encode_inv fr m frame :
  encode fr m = Some frame ->
  exists hdr body,
    serialize fr m = Some body /\
    pack_header fr (length body) (subject m) = inl hdr /\
    frame = hdr ++ body.
Proof.
  unfold encode. destruct (serialize fr m) as [body|]; [|discriminate].
  destruct (pack_header fr (length body) (subject m)) as [hdr|e] eqn:E;
    [|discriminate].
  intros H. injection H as <-. eauto.
Qed.

(** One receive step over the frame of a message puts that message on the
    inbound queue and leaves the rest of the stream. *)
Lemma recv_queue_tick_frame fr m frame h more :
  wire_message fr m ->
  encode fr m = Some frame ->
  incoming (sock h) = frame ++ more ->
  steady (length frame) (recv_script (sock h)) ->
  exists h',
    recv_queue_tick h = (Return true, h') /\
    inbound_message_queue h' = inbound_message_queue h ++ [m] /\
    incoming (sock h') = more /\
    outbound_message_queue h' = outbound_message_queue h.
Proof.
  intros Hm He Hi Hs.
  destruct (encode_inv fr m frame He) as (hdr & body & Hser & Hpk & ->).
  destruct m as [subj pl]. unfold wire_message in Hm. cbn [subject payload] in *.
  destruct subj as [| | | |s| |]; try contradiction.
  destruct pl as [| | | | | |l]; try contradiction.
  destruct Hm as [Hsub Hflat].
  pose proof (pack_header_length fr _ _ _ Hpk) as Hlen.
  pose proof (parse_header_pack fr _ _ _ Hsub Hpk) as Hph.
  pose proof (deserialize_serialize fr (JStr s) l body Hflat Hser) as Hde.
  rewrite length_app, Hlen in Hs.
  assert (A1 : HEADER_LEN_BYTES = HEADER_LEN_BYTES - length (@nil byte))
    by (cbn [length]; lia).
  assert (A2 : length (@nil byte) <= HEADER_LEN_BYTES) by (cbn [length]; lia).
  assert (A3 : HEADER_LEN_BYTES
               <= length (@nil byte) + length ((hdr ++ body) ++ more)).
  { rewrite !length_app, Hlen. cbn [length]. lia. }
  destruct (recv_header_steady HEADER_LEN_BYTES (recv_script (sock h))
              ((hdr ++ body) ++ more) [] A1 A2 A3 (length body) Hs)
    as (sc1 & E1 & Hs1).
  rewrite <- app_assoc in E1.
  rewrite <- Hlen, take_app, drop_app in E1.
  cbn [app] in E1.
  assert (B1 : length body = length body - length (@nil byte))
    by (cbn [length]; lia).
  assert (B2 : length (@nil byte) <= length body) by (cbn [length]; lia).
  assert (B3 : length body <= length (@nil byte) + length (body ++ more)).
  { rewrite length_app. cbn [length]. lia. }
  assert (B4 : steady (length body + 0) sc1)
    by (rewrite Nat.add_0_r; exact Hs1).
  destruct (recv_body_steady (length body) (length body) sc1 (body ++ more)
              [] B1 B2 B3 0 B4) as (sc2 & E2 & _).
  rewrite take_app, drop_app in E2.
  cbn [app] in E2.
  unfold recv_queue_tick. rewrite Hi, <- app_assoc, E1, Hph, E2, Hde.
  eexists. split; [reflexivity|]. cbn. auto.
Qed.
End RoundTrip.

(* ================================================================== *)
(** * The send step *)

Module SendFacts.
Import Json JsonDecoder Connection Valid Runs.
Import Aux.
Import RoundTrip.

Lemma accepting_le n m script : m <= n -> accepting n script -> accepting m script.
Proof.
  revert m script. induction n as [|n IH]; intros m script Hm H.
  - replace m with 0 by lia. exact I.
  - destruct m as [|m]; [exact I|].
    destruct script as [|[k| |] r]; cbn in *; try contradiction.
    apply IH; [lia | exact H].
Qed.

(** Under an accepting script the write loop sends all the data. *)
Lemma send_all_accepting n : forall data script w extra,
  n = length data ->
  accepting (n + extra) script ->
  exists script',
    send_all script data w = (WriteDone, script', w ++ data)
    /\ accepting extra script'.
Proof.
  induction n as [n IH] using lt_wf_ind.
  intros data script w extra Hn Hs.
  destruct data as [|x data].
  - exists script. cbn [length] in Hn. subst n.
    split; [|exact Hs].
    destruct script; cbn [send_all]; now rewrite app_nil_r.
  - cbn [length] in Hn. subst n.
    destruct script as [|[k| |] script]; try contradiction.
    cbn [plus accepting] in Hs.
    cbn [send_all send1].
    set (c := Nat.min (S k) (length (x :: data))).
    assert (Hc : 1 <= c <= S (length data))
      by (unfold c; cbn [length]; lia).
    destruct c as [|c'] eqn:Ec; [lia|].
    destruct (IH (S (length data) - S c') ltac:(lia) (skipn (S c') (x :: data))
                 script (w ++ firstn (S c') (x :: data)) extra)
      as (script' & E & Hs').
    + rewrite length_skipn. reflexivity.
    + eapply accepting_le; [|exact Hs]. lia.
    + exists script'. split; [|exact Hs'].
      rewrite E. rewrite <- app_assoc, firstn_skipn. reflexivity.
Qed.

Lemma set_outbound_id h : set_outbound h (outbound_message_queue h) = h.
Proof. destruct h; reflexivity. Qed.

(** The write loop makes the calls of a prefix of the script.  A call
    that returned zero is the last one, and the loop ends on it; a loop
    that ends well has written all the data. *)
Lemma send_all_consumes script : forall data w res script' w',
  send_all script data w = (res, script', w') ->
  exists consumed,
    script = consumed ++ script'
    /\ (In SendZero consumed -> res = WriteZero)
    /\ (res = WriteDone -> w' = w ++ data).
Proof.
  induction script as [|ev script IH]; intros data w res script' w' H.
  - destruct data; cbn in H; injection H as <- <- <-; exists [];
      (split; [reflexivity|]); (split; [intros []|]).
    + intros _. now rewrite app_nil_r.
    + discriminate.
  - destruct data as [|x data].
    + cbn in H. injection H as <- <- <-. exists [].
      split; [reflexivity|]. split; [intros []|].
      intros _. now rewrite app_nil_r.
    + cbn [send_all] in H. destruct ev as [k| |]; cbn [send1] in H.
      * cbn [length Nat.min] in H.
        apply IH in H as (consumed & E & Hz & Hd).
        exists (SendAccept k :: consumed).
        split; [cbn; now rewrite E|]. split.
        -- intros [Hx|Hx]; [discriminate | auto].
        -- intros Hr. rewrite (Hd Hr), <- app_assoc.
           change (S (Nat.min k (length data)))
             with (Nat.min (S k) (length (x :: data))).
           now rewrite firstn_skipn.
      * injection H as <- <- <-. exists [SendZero].
        split; [reflexivity|]. split; [reflexivity | discriminate].
      * injection H as <- <- <-. exists [SendError].
        split; [reflexivity|].
        split; [intros [Hx|[]]; discriminate | discriminate].
Qed.

Section WithRepr.
Variable fr : pyfloat -> text.

(** A step whose message can be framed, under an accepting script, pops
    the head and writes its frame. *)
Lemma send_queue_tick_frame h m q frame extra :
  outbound_message_queue h = m :: q ->
  encode fr m = Some frame ->
  accepting (length frame + extra) (send_script (sock h)) ->
  exists h',
    send_queue_tick fr h = (Return true, h') /\
    outbound_message_queue h' = q /\
    wire (sock h') = wire (sock h) ++ frame /\
    accepting extra (send_script (sock h')) /\
    inbound_message_queue h' = inbound_message_queue h.
Proof.
  intros Hq He Hs.
  destruct (encode_inv fr m frame He) as (hdr & body & Hser & Hpk & ->).
  rewrite length_app, <- Nat.add_assoc in Hs.
  unfold send_queue_tick. rewrite Hq, Hser, Hpk.
  cbn [set_outbound sock].
  destruct (send_all_accepting (length hdr) hdr (send_script (sock h))
              (wire (sock h)) (length body + extra) eq_refl Hs)
    as (sc1 & E1 & Hs1).
  rewrite E1.
  destruct (send_all_accepting (length body) body sc1
              (wire (sock h) ++ hdr) extra eq_refl Hs1)
    as (sc2 & E2 & Hs2).
  rewrite E2.
  eexists. split; [reflexivity|].
  cbn. rewrite <- app_assoc. auto.
Qed.

(** A step takes at most the head of the queue. *)
Lemma send_queue_tick_pops h t h' :
  send_queue_tick fr h = (t, h') ->
  outbound_message_queue h' = outbound_message_queue h \/
  outbound_message_queue h' = tl (outbound_message_queue h).
Proof.
  unfold send_queue_tick.
  destruct (outbound_message_queue h) as [|m q] eqn:Hq.
  - intros H. injection H as _ <-. now left.
  - destruct (serialize fr m) as [body|];
      [|intros H; injection H as _ <-; now right].
    destruct (pack_header fr (length body) (subject m)) as [hdr|e];
      [|intros H; injection H as _ <-; now right].
    cbn [set_outbound sock].
    destruct (send_all _ hdr _) as [[[| |e] sc] w].
    + destruct (send_all sc body w) as [[[| |e] sc'] w'];
        intros H; injection H as _ <-; cbn; auto.
    + intros H; injection H as _ <-; cbn; auto.
    + intros H; injection H as _ <-; cbn; auto.
Qed.

(** A failed step leaves the queue as it was: the message it took is
    back at the head. *)
Lemma send_queue_tick_failed h h' :
  send_queue_tick fr h = (Return false, h') ->
  outbound_message_queue h' = outbound_message_queue h.
Proof.
  unfold send_queue_tick.
  destruct (outbound_message_queue h) as [|m q] eqn:Hq.
  - intros H. discriminate H.
  - destruct (serialize fr m) as [body|]; [|discriminate].
    destruct (pack_header fr (length body) (subject m)) as [hdr|e];
      [|discriminate].
    cbn [set_outbound sock].
    destruct (send_all _ hdr _) as [[[| |e] sc] w].
    + destruct (send_all sc body w) as [[[| |e] sc'] w'];
        intros H; try discriminate H; injection H as <-; reflexivity.
    + intros H; injection H as <-; reflexivity.
    + discriminate.
Qed.

(** A write that returns zero fails the step. *)
Lemma send_queue_tick_zero h m q frame :
  outbound_message_queue h = m :: q ->
  encode fr m = Some frame ->
  (exists r, send_script (sock h) = SendZero :: r) ->
  exists h', send_queue_tick fr h = (Return false, h') /\
             outbound_message_queue h' = m :: q /\
             wire (sock h') = wire (sock h).
Proof.
  intros Hq He [r Hr].
  destruct (encode_inv fr m frame He) as (hdr & body & Hser & Hpk & ->).
  pose proof (CodecFacts.pack_header_length fr _ _ _ Hpk) as Hlen.
  unfold send_queue_tick. rewrite Hq, Hser, Hpk.
  cbn [set_outbound sock]. rewrite Hr.
  destruct hdr as [|x hdr]; [discriminate Hlen|].
  cbn [send_all send1].
  eexists. split; [reflexivity|]. cbn. auto.
Qed.

(** The calls of [send] a step makes are a prefix of the script.  If one
    of them returned zero, on the header or on the body, the step
    returns [False] with the queue as it was before the step. *)
Lemma send_queue_tick_consumes h t h' :
  send_queue_tick fr h = (t, h') ->
  exists consumed,
    send_script (sock h) = consumed ++ send_script (sock h')
    /\ (In SendZero consumed ->
        t = Return false
        /\ outbound_message_queue h' = outbound_message_queue h).
Proof.
  unfold send_queue_tick.
  destruct (outbound_message_queue h) as [|m q] eqn:Hq.
  { intros H. injection H as <- <-. exists []. split; [reflexivity|].
    intros []. }
  destruct (serialize fr m) as [body|].
  2:{ intros H. injection H as <- <-. exists []. split; [reflexivity|].
      intros []. }
  destruct (pack_header fr (length body) (subject m)) as [hdr|e].
  2:{ intros H. injection H as <- <-. exists []. split; [reflexivity|].
      intros []. }
  cbn [set_outbound sock].
  destruct (send_all (send_script (sock h)) hdr (wire (sock h)))
    as [[r1 sc1] w1] eqn:E1.
  destruct (send_all_consumes _ _ _ _ _ _ E1) as (c1 & S1 & Z1 & _).
  destruct r1 as [| |e].
  - destruct (send_all sc1 body w1) as [[r2 sc2] w2] eqn:E2.
    destruct (send_all_consumes _ _ _ _ _ _ E2) as (c2 & S2 & Z2 & _).
    assert (Hno : ~ In SendZero c1) by (intros Hx; now specialize (Z1 Hx)).
    destruct r2 as [| |e]; intros H; injection H as <- <-;
      exists (c1 ++ c2); cbn; rewrite <- app_assoc, <- S2;
      (split; [exact S1|]); intros Hx; apply in_app_or in Hx;
      destruct Hx as [Hx|Hx]; try contradiction;
      try (specialize (Z2 Hx); discriminate); auto.
  - intros H. injection H as <- <-. exists c1. cbn. auto.
  - intros H. injection H as <- <-. exists c1. cbn.
    split; [exact S1|]. intros Hx. now specialize (Z1 Hx).
Qed.

(** A step that returns [True] on a message that can be framed has
    taken it from the queue and written its whole frame. *)
Lemma send_queue_tick_done h m q frame h' :
  outbound_message_queue h = m :: q ->
  encode fr m = Some frame ->
  send_queue_tick fr h = (Return true, h') ->
  outbound_message_queue h' = q
  /\ wire (sock h') = wire (sock h) ++ frame.
Proof.
  intros Hq He.
  destruct (encode_inv fr m frame He) as (hdr & body & Hser & Hpk & ->).
  unfold send_queue_tick. rewrite Hq, Hser, Hpk.
  cbn [set_outbound sock].
  destruct (send_all (send_script (sock h)) hdr (wire (sock h)))
    as [[r1 sc1] w1] eqn:E1.
  destruct (send_all_consumes _ _ _ _ _ _ E1) as (_ & _ & _ & D1).
  destruct r1 as [| |e]; [|discriminate|discriminate].
  destruct (send_all sc1 body w1) as [[r2 sc2] w2] eqn:E2.
  destruct (send_all_consumes _ _ _ _ _ _ E2) as (_ & _ & _ & D2).
  destruct r2 as [| |e]; [|discriminate|discriminate].
  intros H. injection H as <-. cbn.
  rewrite (D2 eq_refl), (D1 eq_refl), <- app_assoc. auto.
Qed.

Lemma send_steps_frames ms : forall h bytes extra,
  outbound_message_queue h = ms ->
  frames fr ms = Some bytes ->
  accepting (length bytes + extra) (send_script (sock h)) ->
  exists h',
    send_steps fr (length ms) h = (Return true, h') /\
    outbound_message_queue h' = [] /\
    wire (sock h') = wire (sock h) ++ bytes /\
    accepting extra (send_script (sock h')).
Proof.
  induction ms as [|m ms IH]; intros h bytes extra Hq Hf Hs.
  - cbn in Hf. injection Hf as <-. exists h.
    cbn. rewrite app_nil_r. auto.
  - cbn [frames] in Hf.
    destruct (encode fr m) as [f|] eqn:Ef; [|discriminate].
    destruct (frames fr ms) as [fs|] eqn:Efs; [|discriminate].
    injection Hf as <-.
    rewrite length_app, <- Nat.add_assoc in Hs.
    destruct (send_queue_tick_frame h m ms f (length fs + extra) Hq Ef Hs)
      as (h1 & E1 & Hq1 & Hw1 & Hs1 & _).
    destruct (IH h1 fs extra Hq1 eq_refl Hs1) as (h2 & E2 & Hq2 & Hw2 & Hs2).
    exists h2. cbn [length send_steps]. rewrite E1, E2.
    rewrite Hw2, Hw1, <- app_assoc. auto.
Qed.

End WithRepr.
End SendFacts.

(* ================================================================== *)
(** * The server directory *)

Module ServerFacts.
Import Json JsonDecoder Connection Py Server ServerInv TextFacts.

Lemma eq_str_true v s : eq_str v s = true <-> v = JStr s.
Proof.
  destruct v; cbn [eq_str]; split; intros H; try discriminate.
  - apply text_eqb_eq in H. now subst.
  - injection H as ->. apply text_eqb_refl.
Qed.

Lemma key_eq_str_l s k : key_eq (JStr s) k = true <-> k = JStr s.
Proof.
  destruct k; cbn; split; intros H; try discriminate.
  - apply text_eqb_eq in H. now subst.
  - injection H as ->. apply text_eqb_refl.
Qed.

Lemma key_eq_str_r s k : key_eq k (JStr s) = true <-> k = JStr s.
Proof.
  destruct k as [| | |f| | |]; cbn; split; intros H; try discriminate;
    try (destruct f; discriminate).
  - apply text_eqb_eq in H. now subst.
  - injection H as ->. apply text_eqb_refl.
Qed.

(** *** The store *)

Lemma update_length {A} (l : list A) i x : length (update l i x) = length l.
Proof.
  revert i. induction l as [|a l IH]; intros [|i]; cbn; auto.
Qed.

Lemma nth_error_update_eq {A} (l : list A) i x :
  i < length l -> nth_error (update l i x) i = Some x.
Proof.
  revert i. induction l as [|a l IH]; intros [|i] H; cbn in *; try lia.
  - reflexivity.
  - apply IH. lia.
Qed.

Lemma nth_error_update_neq {A} (l : list A) i j x :
  i <> j -> nth_error (update l i x) j = nth_error l j.
Proof.
  revert i j. induction l as [|a l IH]; intros [|i] [|j] H; cbn; auto.
  - congruence.
Qed.

Lemma nth_error_snoc {A} (l : list A) x :
  nth_error (l ++ [x]) (length l) = Some x.
Proof. rewrite nth_error_app2, Nat.sub_diag by lia. reflexivity. Qed.

(** *** The directory *)

Lemma dir_find_bound d k e n :
  Forall (fun kr => snd kr < n) d -> dir_find k d = Some e -> e < n.
Proof.
  induction 1 as [|[k' r] d Hr _ IH]; cbn; [discriminate|].
  destruct (key_eq k' k); [intros H; injection H as <-; exact Hr | exact IH].
Qed.

Lemma dir_set_absent k r d :
  dir_find k d = None -> dir_set k r d = d ++ [(k, r)].
Proof.
  induction d as [|[k' r'] d IH]; cbn; [reflexivity|].
  destruct (key_eq k' k); [discriminate|].
  intros H. now rewrite IH.
Qed.

Lemma dir_find_app_l k d d' e :
  dir_find k d = Some e -> dir_find k (d ++ d') = Some e.
Proof.
  induction d as [|[k' r'] d IH]; cbn; [discriminate|].
  destruct (key_eq k' k); auto.
Qed.

Lemma dir_find_none_str s d :
  dir_find (JStr s) d = None ->
  Forall (fun kr => key_eq (JStr s) (fst kr) = false) d.
Proof.
  induction d as [|[k' r'] d IH]; cbn [dir_find]; [constructor|].
  destruct (key_eq k' (JStr s)) eqn:E; [discriminate|].
  intros H. constructor; [|now apply IH].
  cbn [fst]. destruct (key_eq (JStr s) k') eqn:E'; [|reflexivity].
  apply key_eq_str_l in E'. subst.
  rewrite (proj2 (key_eq_str_r s (JStr s)) eq_refl) in E. discriminate.
Qed.

Lemma entries_for_none_str s d :
  dir_find (JStr s) d = None -> entries_for (JStr s) d = 0.
Proof.
  unfold entries_for.
  induction d as [|[k' r'] d IH]; cbn; [reflexivity|].
  destruct (key_eq k' (JStr s)); [discriminate | exact IH].
Qed.

Lemma entries_for_app k d d' :
  entries_for k (d ++ d') = entries_for k d + entries_for k d'.
Proof. unfold entries_for. now rewrite filter_app, length_app. Qed.

Lemma entries_for_distinct s d e :
  distinct_keys d -> dir_find (JStr s) d = Some e ->
  entries_for (JStr s) d = 1.
Proof.
  unfold entries_for.
  induction d as [|[k' r'] d IH]; cbn [distinct_keys dir_find filter fst];
    [discriminate|].
  intros [Hk Hd]. destruct (key_eq k' (JStr s)) eqn:E.
  - intros _. apply key_eq_str_r in E. subst k'. cbn [length]. f_equal.
    clear IH Hd. induction Hk as [|[k2 r2] d Hk2 _ IH2]; [reflexivity|].
    cbn [filter fst] in *.
    destruct (key_eq k2 (JStr s)) eqn:E2; [|exact IH2].
    apply key_eq_str_r in E2. subst k2.
    rewrite (proj2 (key_eq_str_l s (JStr s)) eq_refl) in Hk2. discriminate.
  - intros H. now apply IH.
Qed.

Lemma distinct_keys_snoc_str d s r :
  distinct_keys d -> dir_find (JStr s) d = None ->
  distinct_keys (d ++ [(JStr s, r)]).
Proof.
  induction d as [|[k' r'] d IH]; cbn [distinct_keys dir_find app].
  - intros _ _. split; [constructor | exact I].
  - intros [Hk Hd]. destruct (key_eq k' (JStr s)) eqn:E; [discriminate|].
    intros H. split; [|now apply IH].
    apply Forall_app. split; [exact Hk|].
    constructor; [exact E | constructor].
Qed.

(** *** The handler of a new connection *)

Lemma init_base client_sock client_addr arrived :
  Connection.should_run
    (base (ClientHandler_init client_sock client_addr arrived)) = true
  /\ sock (base (ClientHandler_init client_sock client_addr arrived))
     = client_sock
  /\ outbound_message_queue
       (base (ClientHandler_init client_sock client_addr arrived)) = [].
Proof.
  unfold ClientHandler_init, wait_for_recv, recv. cbn.
  destruct arrived; cbn; auto.
Qed.

Lemma init_client_id client_sock client_addr arrived :
  client_id (ClientHandler_init client_sock client_addr arrived)
  = negotiated_id (hd_error arrived).
Proof.
  unfold ClientHandler_init, wait_for_recv, recv. cbn.
  destruct arrived; reflexivity.
Qed.

Lemma negotiated_id_some msg id :
  negotiated_id msg = id -> id <> JNull ->
  exists m, msg = Some m /\ subject m = JStr (of_string "negotiation")
            /\ subscript (payload m) (of_string "id") = Some id
            /\ truthy id = true.
Proof.
  unfold negotiated_id. destruct msg as [m|]; [|congruence].
  destruct (eq_str (subject m) (of_string "negotiation")) eqn:E; [|congruence].
  apply eq_str_true in E.
  destruct (subscript (payload m) (of_string "id")) as [v|] eqn:S;
    [|congruence].
  destruct (truthy v) eqn:T; [|congruence].
  intros <- _. exists m. repeat split; assumption || reflexivity.
Qed.

Lemma truthy_not_none v : truthy v = true -> is_None v = false.
Proof. destruct v; cbn; congruence. Qed.
End ServerFacts.

(* ================================================================== *)
(** * The client *)

Module ClientFacts.
Import Json Connection Py Client ClientInv.
Import Aux.

Lemma state_set_state c s : state (set_state c s) = s.
Proof.
  unfold set_state. destruct (state c =? s)%Z eqn:E; [|reflexivity].
  now apply Z.eqb_eq in E.
Qed.

Lemma conn_set_state c s : conn (set_state c s) = conn c.
Proof. unfold set_state. now destruct (state c =? s)%Z. Qed.

Lemma binds_set_state c s : binds (set_state c s) = binds c.
Proof. unfold set_state. now destruct (state c =? s)%Z. Qed.

Lemma client_id_set_state c s : client_id_ (set_state c s) = client_id_ c.
Proof. unfold set_state. now destruct (state c =? s)%Z. Qed.

Lemma address_set_state c s : address_ (set_state c s) = address_ c.
Proof. unfold set_state. now destruct (state c =? s)%Z. Qed.

Lemma fail_connect_spec unexpected c :
  state (fail_connect unexpected c) = failed_status unexpected
  /\ conn (fail_connect unexpected c) = None.
Proof.
  unfold fail_connect. cbn [conn with_conn state].
  rewrite state_set_state. split; [|reflexivity].
  now destruct unexpected.
Qed.

Lemma connect_ready w c : ready c -> connect w c = connect_body w c.
Proof.
  intros ((Ha & Hp & Hi) & Hn & Hc). unfold connect.
  now rewrite Ha, Hp, Hi, Hn, Hc.
Qed.

Lemma binds_c2 w c :
  binds (with_conn (set_state c (Z.lor STATE_OK STATE_CONNECTING))
                   (Some (ConnectionHandler_init (new_socket w))))
  = binds c.
Proof. unfold binds. cbn. now rewrite <- !(binds_set_state c) at 1. Qed.
End ClientFacts.

(* ================================================================== *)
(** * The wire codec: round trip, header budget, header decoding *)

Module CodecProperties.
Import Json JsonDecoder Connection Valid Runs Examples.
Import Aux.
Import TextFacts Utf8Facts DumpsFacts CodecFacts RoundTrip SendFacts.

(** C1, as the code has it.  A message with a string subject and a
    payload that maps string keys to strings, numbers and booleans is
    read back as it was sent, provided that no string holds a high
    surrogate directly followed by a low surrogate and that no number is
    NaN (and, for a float, that [float.__repr__] writes a numeral the
    scanner reads back as the same float).  When the frame of the message
    could be built (the header fits the 64 bytes), the send step writes
    that frame, and a receive step over the frame (header first, then as
    many body bytes as the header says) puts a message with the same
    subject and the same payload on the inbound queue and consumes
    exactly the frame. *)
Theorem codec_round_trip fr m frame :
  wire_message fr m ->
  encode fr m = Some frame ->
  (forall hs q,
      outbound_message_queue hs = m :: q ->
      accepting (length frame) (send_script (sock hs)) ->
      exists hs',
        send_queue_tick fr hs = (Return true, hs')
        /\ wire (sock hs') = wire (sock hs) ++ frame)
  /\ (forall h more,
        incoming (sock h) = frame ++ more ->
        steady (length frame) (recv_script (sock h)) ->
        exists h',
          recv_queue_tick h = (Return true, h')
          /\ inbound_message_queue h' = inbound_message_queue h ++ [m]
          /\ incoming (sock h') = more).
Proof.
  intros Hm He. split.
  - intros hs q Hq Ha.
    rewrite <- (Nat.add_0_r (length frame)) in Ha.
    destruct (send_queue_tick_frame fr hs m q frame 0 Hq He Ha)
      as (hs' & E & _ & Hw & _).
    exists hs'. auto.
  - intros h more Hi Hs.
    destruct (recv_queue_tick_frame fr m frame h more Hm He Hi Hs)
      as (h' & E & Hin & Hinc & _).
    exists h'. auto.
Qed.

Lemma half_reads_back : float_reads_back repr_half half.
Proof.
  split; [discriminate|]. split.
  - change (floatstr repr_half half) with [48; 46; 53]%N.
    repeat constructor; lia.
  - intros fuel [|c r] H; [contradiction|].
    destruct H as [-> | ->]; vm_compute; reflexivity.
Qed.

Lemma hello_wire : wire_message repr_half hello.
Proof.
  unfold wire_message, hello. cbn [subject payload].
  split; [now apply wf_string_literal|]. split.
  - cbn [List.map fst].
    constructor;
      [|constructor; [|constructor; [|constructor; [|constructor]]]];
      cbn [In].
    + intros [H|[H|[H|[]]]]; discriminate H.
    + intros [H|[H|[]]]; discriminate H.
    + intros [H|[]]; discriminate H.
    + intros [].
  - constructor; [|constructor; [|constructor; [|constructor]]];
      try constructor; cbn [fst snd scalar];
      try exact I; try (now apply wf_string_literal).
    apply half_reads_back.
Qed.

Lemma codec_round_trip_witness :
  exists h',
    recv_queue_tick reader = (Return true, h')
    /\ inbound_message_queue h' = inbound_message_queue reader ++ [hello]
    /\ incoming (sock h') = [].
Proof.
  refine (proj2 (codec_round_trip repr_half hello hello_frame
                   hello_wire _) reader [] _ _).
  - vm_compute. reflexivity.
  - vm_compute. reflexivity.
  - vm_compute. exact I.
Defined.

(** C1 fails as stated, for every Python string: a subject made of a
    high surrogate and a low surrogate is written as two escapes, which
    the decoder joins into one character. *)
Lemma round_trip_joins_surrogates :
  ~ (forall fr m frame h more,
        any_string_message m ->
        encode fr m = Some frame ->
        incoming (sock h) = frame ++ more ->
        steady (length frame) (recv_script (sock h)) ->
        exists h',
          recv_queue_tick h = (Return true, h')
          /\ inbound_message_queue h' = inbound_message_queue h ++ [m]
          /\ incoming (sock h') = more).
Proof.
  intros H.
  destruct (H no_floats paired paired_frame paired_reader [])
    as (h' & E & Hin & _).
  - unfold any_string_message, paired. cbn [subject payload].
    split; [|split; constructor].
    repeat constructor; unfold valid_codepoint; lia.
  - vm_compute. reflexivity.
  - vm_compute. reflexivity.
  - vm_compute. exact I.
  - assert (R : inbound_message_queue (snd (recv_queue_tick paired_reader))
                = [{| subject := JStr [0x1F600%N]; payload := JObj [] |}])
      by (vm_compute; reflexivity).
    rewrite E in R. cbn [snd] in R. rewrite Hin in R.
    discriminate R.
Qed.

(** C4.  The header JSON, encoded as UTF-8, is refused with
    [OverflowError] exactly when it is longer than 64 bytes; at 64 bytes
    or less it is accepted and padded to 64 bytes.  A refused header
    fails the send of that message: the step drops it and writes
    nothing. *)
Theorem header_budget fr len subj hb :
  Utf8.encode (header_json fr len subj) = Some hb ->
  (pack_header fr len subj = inr OverflowError
   <-> HEADER_LEN_BYTES < length hb)
  /\ (length hb <= HEADER_LEN_BYTES ->
      pack_header fr len subj = inl (ljust HEADER_LEN_BYTES x00 hb)
      /\ length (ljust HEADER_LEN_BYTES x00 hb) = HEADER_LEN_BYTES
      /\ firstn (length hb) (ljust HEADER_LEN_BYTES x00 hb) = hb)
  /\ (HEADER_LEN_BYTES < length hb ->
      forall h m q body,
        outbound_message_queue h = m :: q ->
        serialize fr m = Some body ->
        length body = len -> subject m = subj ->
        send_queue_tick fr h = (Return true, set_outbound h q)
        /\ encode fr m = None).
Proof.
  intros He. unfold pack_header. rewrite He.
  destruct (HEADER_LEN_BYTES <? length hb) eqn:E.
  - apply Nat.ltb_lt in E. split; [tauto|].
    split; [intros H; exfalso; lia|].
    intros _ h m q body Hq Hs Hl Hsub.
    unfold send_queue_tick, encode. rewrite Hq, Hs, Hl, Hsub.
    unfold pack_header. rewrite He.
    replace (HEADER_LEN_BYTES <? length hb) with true
      by (symmetry; apply Nat.ltb_lt; exact E).
    split; reflexivity.
  - apply Nat.ltb_ge in E. split; [|split; [|intros H; exfalso; lia]].
    + split; [discriminate | intros H; exfalso; lia].
    + intros _. split; [reflexivity|]. unfold ljust. split.
      * rewrite length_app, repeat_length. lia.
      * apply take_app.
Qed.

Lemma header_budget_witness :
  (exists hb,
      Utf8.encode (header_json no_floats 2 (JStr subject36)) = Some hb
      /\ length hb = 64
      /\ pack_header no_floats 2 (JStr subject36) = inl hb)
  /\ (exists hb,
        Utf8.encode (header_json no_floats 2 (JStr subject37)) = Some hb
        /\ length hb = 65
        /\ pack_header no_floats 2 (JStr subject37) = inr OverflowError).
Proof.
  split.
  - destruct (Utf8.encode (header_json no_floats 2 (JStr subject36)))
      as [hb|] eqn:E; [|vm_compute in E; discriminate E].
    assert (L : length hb = 64)
      by (vm_compute in E; injection E as <-; reflexivity).
    exists hb. split; [reflexivity|]. split; [exact L|].
    destruct (header_budget no_floats 2 (JStr subject36) hb E)
      as (_ & H & _).
    destruct H as (H & _ & _); [unfold HEADER_LEN_BYTES; lia|].
    rewrite H. unfold ljust, HEADER_LEN_BYTES. rewrite L.
    cbn [Nat.sub repeat]. now rewrite app_nil_r.
  - destruct (Utf8.encode (header_json no_floats 2 (JStr subject37)))
      as [hb|] eqn:E; [|vm_compute in E; discriminate E].
    assert (L : length hb = 65)
      by (vm_compute in E; injection E as <-; reflexivity).
    exists hb. split; [reflexivity|]. split; [exact L|].
    apply (proj1 (header_budget no_floats 2 (JStr subject37) hb E)).
    unfold HEADER_LEN_BYTES. lia.
Defined.

(** *** Header decoding *)

Lemma parse_header_text raw t :
  Utf8.decode raw = Some t ->
  parse_header raw = header_of (loads (remove_char 0%N t)).
Proof. intros H. unfold parse_header. now rewrite H. Qed.

(** C8, as the code has it.  On a block that is valid UTF-8 the header
    decoding removes every null character, wherever it stands, and parses
    what is left as JSON: two blocks that differ only in null characters
    decode alike.  It yields (length, subject) exactly when what is left
    is a JSON object with both entries, and fails with a malformed header
    otherwise. *)
Theorem header_nulls_removed raw t :
  Utf8.decode raw = Some t ->
  (forall raw' t',
      Utf8.decode raw' = Some t' ->
      remove_char 0%N t' = remove_char 0%N t ->
      parse_header raw' = parse_header raw)
  /\ (forall a b n,
        t = a ++ repeat 0%N n ++ b ->
        forall raw', Utf8.decode raw' = Some (a ++ b) ->
                     parse_header raw' = parse_header raw)
  /\ (forall msglen subj,
        parse_header raw = HeaderOk msglen subj <->
        exists d rest,
          loads (remove_char 0%N t) = Scanned (JObj d) rest
          /\ dict_get (of_string "length") d = Some msglen
          /\ dict_get (of_string "subject") d = Some subj)
  /\ ((forall msglen subj, parse_header raw <> HeaderOk msglen subj) ->
      parse_header raw = HeaderMalformed).
Proof.
  intros Hd. rewrite (parse_header_text raw t Hd).
  split; [|split; [|split]].
  - intros raw' t' Hd' E. rewrite (parse_header_text raw' t' Hd').
    now rewrite E.
  - intros a b n -> raw' Hd'. rewrite (parse_header_text raw' _ Hd').
    rewrite !remove_char_app, remove_char_repeat. reflexivity.
  - intros msglen subj. unfold header_of. split.
    + destruct (loads (remove_char 0%N t)) as [hd rest| |]; try discriminate.
      destruct hd as [| | | | | |d]; cbn [subscript]; try discriminate.
      destruct (dict_get (of_string "length") d) as [l|] eqn:El;
        [|discriminate].
      destruct (dict_get (of_string "subject") d) as [s|] eqn:Es;
        [|discriminate].
      intros H. injection H as <- <-. exists d, rest. auto.
    + intros (d & rest & -> & Hl & Hs). cbn [subscript].
      now rewrite Hl, Hs.
  - intros H. unfold header_of in *.
    destruct (loads (remove_char 0%N t)) as [hd rest| |]; try reflexivity.
    destruct (subscript hd (of_string "length")) as [l|]; [|reflexivity].
    destruct (subscript hd (of_string "subject")) as [s|]; [|reflexivity].
    exfalso. now apply (H l s).
Qed.

Lemma header_nulls_removed_witness :
  parse_header holed_block = parse_header plain_block
  /\ parse_header plain_block = HeaderOk (JInt 2) (JStr (of_string "s")).
Proof.
  destruct (Utf8.decode plain_block) as [t|] eqn:E;
    [|vm_compute in E; discriminate E].
  destruct (Utf8.decode holed_block) as [t'|] eqn:E';
    [|vm_compute in E'; discriminate E'].
  split.
  - apply (proj1 (header_nulls_removed plain_block t E) holed_block t' E').
    vm_compute in E. vm_compute in E'.
    injection E as <-. injection E' as <-. vm_compute. reflexivity.
  - vm_compute. reflexivity.
Defined.

(** C8 fails as stated: a null byte in front of the JSON is removed too,
    so the block is accepted, where stripping only the trailing padding
    would leave a text that is not JSON. *)
Lemma header_leading_null_removed :
  length leading_null_block = 64
  /\ parse_header leading_null_block
     = HeaderOk (JInt 2) (JStr (of_string "s"))
  /\ parse_header_trailing leading_null_block = HeaderMalformed
  /\ parse_header leading_null_block
     <> parse_header_trailing leading_null_block.
Proof.
  assert (A : parse_header leading_null_block
              = HeaderOk (JInt 2) (JStr (of_string "s")))
    by (vm_compute; reflexivity).
  assert (B : parse_header_trailing leading_null_block = HeaderMalformed)
    by (vm_compute; reflexivity).
  split; [reflexivity|]. split; [exact A|]. split; [exact B|].
  rewrite A, B. discriminate.
Qed.
End CodecProperties.

(* ================================================================== *)
(** * The outbound queue *)

Module QueueProperties.
Import Json JsonDecoder Connection Valid Runs Examples.
Import RoundTrip SendFacts.

Lemma fold_send ms : forall h,
  outbound_message_queue (fold_left send ms h)
  = outbound_message_queue h ++ ms
  /\ sock (fold_left send ms h) = sock h.
Proof.
  induction ms as [|m ms IH]; intros h; cbn [fold_left].
  - now rewrite app_nil_r.
  - destruct (IH (send h m)) as [E1 E2]. rewrite E1, E2.
    unfold send. cbn. now rewrite <- app_assoc.
Qed.

(** C6.  [send] appends at the tail of the outbound queue.  A send step
    takes at most the message at the head; when it fails the message is
    back at the head and the queue is as before.  Messages queued in some
    order on an empty queue are therefore written to the wire as their
    frames in that order.  The calls of [sock.send] that a step makes use
    up a prefix of what the socket will do; whenever one of these calls
    returns zero (the first or a later write of the header, or a write
    of the body) the step returns [False] and the message it had taken
    is back at the head of the queue; and a step returns [True] on a
    message only after it has written the whole frame of it. *)
Theorem fifo_outbound fr :
  (forall h m,
      outbound_message_queue (send h m) = outbound_message_queue h ++ [m])
  /\ (forall h t h',
        send_queue_tick fr h = (t, h') ->
        outbound_message_queue h' = outbound_message_queue h \/
        outbound_message_queue h' = tl (outbound_message_queue h))
  /\ (forall h h',
        send_queue_tick fr h = (Return false, h') ->
        outbound_message_queue h' = outbound_message_queue h)
  /\ (forall h m q frame,
        outbound_message_queue h = m :: q ->
        encode fr m = Some frame ->
        (exists r, send_script (sock h) = SendZero :: r) ->
        exists h',
          send_queue_tick fr h = (Return false, h')
          /\ outbound_message_queue h' = m :: q
          /\ wire (sock h') = wire (sock h))
  /\ (forall h ms bytes,
        outbound_message_queue h = [] ->
        frames fr ms = Some bytes ->
        accepting (length bytes) (send_script (sock h)) ->
        exists h',
          send_steps fr (length ms) (fold_left send ms h) = (Return true, h')
          /\ wire (sock h') = wire (sock h) ++ bytes
          /\ outbound_message_queue h' = [])
  /\ (forall h t h',
        send_queue_tick fr h = (t, h') ->
        exists consumed,
          send_script (sock h) = consumed ++ send_script (sock h'))
  /\ (forall h t h' consumed,
        send_queue_tick fr h = (t, h') ->
        send_script (sock h) = consumed ++ send_script (sock h') ->
        In SendZero consumed ->
        t = Return false
        /\ outbound_message_queue h' = outbound_message_queue h)
  /\ (forall h m q frame h',
        outbound_message_queue h = m :: q ->
        encode fr m = Some frame ->
        send_queue_tick fr h = (Return true, h') ->
        outbound_message_queue h' = q
        /\ wire (sock h') = wire (sock h) ++ frame).
Proof.
  split; [|split; [|split; [|split; [|split; [|split; [|split]]]]]].
  - reflexivity.
  - apply send_queue_tick_pops.
  - apply send_queue_tick_failed.
  - apply send_queue_tick_zero.
  - intros h ms bytes Hq Hf Ha.
    destruct (fold_send ms h) as [E1 E2]. rewrite Hq in E1. cbn [app] in E1.
    rewrite <- (Nat.add_0_r (length bytes)), <- E2 in Ha.
    destruct (send_steps_frames fr ms (fold_left send ms h) bytes 0 E1 Hf Ha)
      as (h' & E & Hq' & Hw & _).
    exists h'. rewrite Hw, E2. auto.
  - intros h t h' H.
    destruct (send_queue_tick_consumes fr h t h' H) as (consumed & E & _).
    now exists consumed.
  - intros h t h' consumed H E Hz.
    destruct (send_queue_tick_consumes fr h t h' H) as (c & Ec & Hc).
    apply Hc. rewrite Ec in E. apply app_inv_tail in E. now subst c.
  - apply send_queue_tick_done.
Qed.

Lemma fifo_outbound_witness :
  (exists h',
      send_steps no_floats 3 (send (send (send writer m1) m2) m3)
      = (Return true, h')
      /\ wire (sock h') = wire (sock writer) ++ three_frames
      /\ outbound_message_queue h' = [])
  /\ fst (send_queue_tick no_floats stalling_writer) = Return false
  /\ outbound_message_queue (snd (send_queue_tick no_floats stalling_writer))
     = [m2].
Proof.
  split.
  - refine (proj1 (proj2 (proj2 (proj2 (proj2 (fifo_outbound no_floats)))))
              writer [m1; m2; m3] three_frames _ _ _).
    + reflexivity.
    + vm_compute. reflexivity.
    + vm_compute. exact I.
  - refine (proj1 (proj2 (proj2 (proj2 (proj2 (proj2 (proj2
              (fifo_outbound no_floats)))))))
              stalling_writer _ _ [SendAccept 63; SendAccept 4; SendZero]
              (surjective_pairing _) _ _).
    + vm_compute. reflexivity.
    + right. right. left. reflexivity.
Defined.
End QueueProperties.

(* ================================================================== *)
(** * Negotiation and reconnection on the server *)

Module NegotiationProperties.
Import Json JsonDecoder Connection Py Server ServerInv TextFacts ServerFacts.

Lemma negotiate_failed srv client_sock client_addr arrived :
  client_id (ClientHandler_init client_sock client_addr arrived) = JNull ->
  exists srv',
    negotiate_client_id srv client_sock client_addr arrived = Done srv'
    /\ conns srv' = conns srv
    /\ exists c',
         nth_error (objects srv') (length (objects srv)) = Some c'
         /\ Connection.should_run (base c') = false.
Proof.
  intros H. unfold negotiate_client_id. rewrite H. cbn [is_None].
  eexists. split; [reflexivity|]. split; [reflexivity|].
  cbn [objects with_objects].
  eexists. split.
  - apply nth_error_update_eq. rewrite length_app. cbn. lia.
  - reflexivity.
Qed.

(** C10.  The server accepts a connection only if the first message that
    arrives before the deadline has the subject ['negotiation'] and a
    payload whose ['id'] entry exists and is true; an empty-string id, a
    payload without ['id'], another first subject or no message at all
    leave [client_id] unset, and then the handler is stopped and the
    directory is left as it was. *)
Theorem negotiation_needs_truthy_id client_sock client_addr arrived :
  let c := ClientHandler_init client_sock client_addr arrived in
  (forall id,
      client_id c = id /\ id <> JNull <->
      exists m rest,
        arrived = m :: rest
        /\ subject m = JStr (of_string "negotiation")
        /\ subscript (payload m) (of_string "id") = Some id
        /\ truthy id = true)
  /\ (forall m rest,
        arrived = m :: rest ->
        subscript (payload m) (of_string "id") = Some (JStr []) ->
        client_id c = JNull)
  /\ (forall m rest,
        arrived = m :: rest ->
        subscript (payload m) (of_string "id") = None ->
        client_id c = JNull)
  /\ (forall m rest,
        arrived = m :: rest ->
        subject m <> JStr (of_string "negotiation") ->
        client_id c = JNull)
  /\ (arrived = [] -> client_id c = JNull)
  /\ (forall srv,
        client_id c = JNull ->
        exists srv',
          negotiate_client_id srv client_sock client_addr arrived = Done srv'
          /\ conns srv' = conns srv
          /\ exists c',
               nth_error (objects srv') (length (objects srv)) = Some c'
               /\ Connection.should_run (base c') = false).
Proof.
  intros c. subst c. rewrite init_client_id.
  repeat split.
  - intros [H Hn].
    destruct (negotiated_id_some _ _ H Hn) as (m & Hm & Hs & Hi & Ht).
    destruct arrived as [|m' rest]; [discriminate|].
    cbn in Hm. injection Hm as ->. exists m, rest. auto.
  - destruct H as (m & rest & -> & Hs & Hi & Ht).
    cbn [hd_error negotiated_id]. rewrite Hs, Hi, Ht.
    now rewrite (proj2 (eq_str_true _ _) eq_refl).
  - destruct H as (m & rest & -> & Hs & Hi & Ht).
    intros ->. discriminate.
  - intros m rest -> Hi. cbn [hd_error negotiated_id]. rewrite Hi.
    cbn [truthy]. now destruct (eq_str _ _).
  - intros m rest -> Hi. cbn [hd_error negotiated_id]. rewrite Hi.
    now destruct (eq_str _ _).
  - intros m rest -> Hs. cbn [hd_error negotiated_id].
    destruct (eq_str (subject m) (of_string "negotiation")) eqn:E;
      [|reflexivity].
    apply eq_str_true in E. contradiction.
  - intros ->. reflexivity.
  - intros srv H. apply negotiate_failed. now rewrite init_client_id.
Qed.

(** *** Reconnection with a known id *)

Lemma consistent_init : consistent Server_init.
Proof. split; [constructor | exact I]. Qed.

Lemma stopped_new srv client :
  nth_error
    (update (objects srv ++ [client]) (length (objects srv))
            (with_base client (stop false (base client))))
    (length (objects srv))
  = Some (with_base client (stop false (base client))).
Proof. apply nth_error_update_eq. rewrite length_app. cbn. lia. Qed.

(** What [__negotiate_client_id] itself does with a (string) id, up to
    its return.  An id of the directory leaves the directory as it was:
    one entry for the id, bound to the same handler object, whose queues
    are untouched; the new handler is told to stop and is not
    registered.  The existing handler is handed the new socket and
    started when its loop is not running; while it is still running the
    socket setter raises and its socket stays.  A new id adds one entry,
    at the end; no entry is ever removed. *)
Theorem dedup_on_reconnect srv client_sock client_addr arrived s :
  consistent srv ->
  client_id (ClientHandler_init client_sock client_addr arrived) = JStr s ->
  let out := negotiate_client_id srv client_sock client_addr arrived in
  let srv' := server_of out in
  let fresh := length (objects srv) in
  (forall e,
      dir_find (JStr s) (conns srv) = Some e ->
      conns srv' = conns srv
      /\ entries_for (JStr s) (conns srv') = 1
      /\ dir_find (JStr s) (conns srv') = Some e
      /\ (exists c', nth_error (objects srv') fresh = Some c'
                     /\ Connection.should_run (base c') = false)
      /\ exists old new,
           nth_error (objects srv) e = Some old
           /\ nth_error (objects srv') e = Some new
           /\ outbound_message_queue (base new)
              = outbound_message_queue (base old)
           /\ inbound_message_queue (base new)
              = inbound_message_queue (base old)
           /\ (Connection.should_run (base old) || running (base old) = false ->
               out = Done srv'
               /\ sock (base new) = client_sock
               /\ Connection.should_run (base new) = true
               /\ running (base new) = true)
           /\ (Connection.should_run (base old) || running (base old) = true ->
               out = Raised AttributeError srv'
               /\ sock (base new) = sock (base old)))
  /\ (dir_find (JStr s) (conns srv) = None ->
      out = Done srv'
      /\ conns srv' = conns srv ++ [(JStr s, fresh)]
      /\ entries_for (JStr s) (conns srv') = 1
      /\ exists c', nth_error (objects srv') fresh = Some c'
                    /\ Connection.should_run (base c') = true
                    /\ sock (base c') = client_sock)
  /\ (forall k e, dir_find k (conns srv) = Some e ->
                  dir_find k (conns srv') = Some e)
  /\ consistent srv'.
Proof.
  intros [Hwf Hdk] Hid out srv' fresh.
  destruct (init_base client_sock client_addr arrived) as (Hrun & Hsock & Hout).
  set (client := ClientHandler_init client_sock client_addr arrived) in *.
  assert (Hunf : out =
    match dir_find (JStr s) (conns srv) with
    | Some e =>
        let srv2 :=
          with_objects (with_objects srv (objects srv ++ [client]))
            (update (objects srv ++ [client]) fresh
                    (with_base client (stop false (base client)))) in
        match nth_error (objects srv2) e with
        | Some existing =>
            let (existing', err) :=
              reopen_with existing client_sock client_addr in
            let srv3 :=
              with_objects srv2 (update (objects srv2) e existing') in
            match err with
            | Some x => Raised x srv3
            | None => Done srv3
            end
        | None => Raised KeyError srv2
        end
    | None =>
        Done (with_conns (with_objects srv (objects srv ++ [client]))
                (dir_set (JStr s) fresh (conns srv)))
    end).
  { subst out. unfold negotiate_client_id. fold client. rewrite Hid.
    reflexivity. }
  destruct (dir_find (JStr s) (conns srv)) as [e|] eqn:Hfind.
  - (* a known id *)
    assert (He : e < length (objects srv))
      by (eapply dir_find_bound; [exact Hwf | exact Hfind]).
    destruct (nth_error (objects srv) e) as [old|] eqn:Hold;
      [|apply nth_error_None in Hold; lia].
    assert (Hold2 :
      nth_error (update (objects srv ++ [client]) fresh
                   (with_base client (stop false (base client)))) e
      = Some old).
    { rewrite nth_error_update_neq by (unfold fresh; lia).
      rewrite nth_error_app1 by lia. exact Hold. }
    cbn [objects with_objects] in Hunf. rewrite Hold2 in Hunf.
    unfold reopen_with, set_sock in Hunf. cbn [base] in Hunf.
    assert (Hlen2 : e < length
              (update (objects srv ++ [client]) fresh
                      (with_base client (stop false (base client))))).
    { rewrite update_length, length_app. lia. }
    assert (Hfresh : forall x,
      nth_error
        (update (update (objects srv ++ [client]) fresh
                        (with_base client (stop false (base client)))) e x)
        fresh
      = Some (with_base client (stop false (base client)))).
    { intros x. rewrite nth_error_update_neq by (unfold fresh; lia).
      apply stopped_new. }
    assert (Hwf' : forall x,
      Forall (fun kr : json * ref => snd kr <
        length (update (update (objects srv ++ [client]) fresh
                          (with_base client (stop false (base client)))) e x))
        (conns srv)).
    { intros x. rewrite !update_length, length_app.
      eapply Forall_impl; [|exact Hwf].
        intros kr Hkr. cbn beta in *. cbn [length]. lia. }
    assert (Hone : entries_for (JStr s) (conns srv) = 1)
      by (eapply entries_for_distinct; eassumption).
    destruct (Connection.should_run (base old) || running (base old)) eqn:Hr.
    + (* still running: the setter refuses *)
      subst srv'. rewrite Hunf. cbn [server_of conns with_objects objects].
      split; [|split; [discriminate | split; [auto | split; [apply Hwf' | exact Hdk]]]].
      intros e' He'. injection He' as <-.
      split; [reflexivity|]. split; [exact Hone|]. split; [exact Hfind|].
      split; [eexists; split; [apply Hfresh | reflexivity]|].
      exists old. eexists. split; [exact Hold|].
      split; [now apply nth_error_update_eq|].
      rewrite Hr.
      cbn. split; [reflexivity|]. split; [reflexivity|].
      split; [discriminate|]. intros _. split; reflexivity.
    + (* stopped: reopened with the new socket *)
      subst srv'. rewrite Hunf. cbn [server_of conns with_objects objects].
      split; [|split; [discriminate | split; [auto | split; [apply Hwf' | exact Hdk]]]].
      intros e' He'. injection He' as <-.
      split; [reflexivity|]. split; [exact Hone|]. split; [exact Hfind|].
      split; [eexists; split; [apply Hfresh | reflexivity]|].
      exists old. eexists. split; [exact Hold|].
      split; [now apply nth_error_update_eq|].
      rewrite Hr.
      cbn. split; [reflexivity|]. split; [reflexivity|].
      split; [|discriminate]. intros _. repeat split; reflexivity.
  - (* a new id *)
    rewrite dir_set_absent in Hunf by exact Hfind.
    subst srv'. rewrite Hunf.
    cbn [server_of conns with_conns with_objects objects].
    split; [discriminate|]. split; [|split; [|split]].
    + intros _. split; [reflexivity|]. split; [reflexivity|]. split.
      * rewrite entries_for_app, entries_for_none_str by assumption.
        unfold entries_for. cbn [filter fst].
        now rewrite (proj2 (key_eq_str_r s (JStr s)) eq_refl).
      * exists client. split; [apply nth_error_snoc|]. auto.
    + intros k e. apply dir_find_app_l.
    + unfold well_formed. cbn [conns objects with_conns with_objects].
      rewrite length_app. apply Forall_app. split.
      * eapply Forall_impl; [|exact Hwf].
        intros kr Hkr. cbn beta in *. cbn [length]. lia.
      * constructor; [cbn; unfold fresh; lia | constructor].
    + now apply distinct_keys_snoc_str.
Qed.

(** *** The socket after a reconnection *)

(** For every directory: when the handler of a known id is handed the
    socket of the new connection, the handler made for that connection
    holds the same socket object and has only been told to stop; once
    its loop has ended, the socket of the reopened handler is closed,
    while that handler counts as running and still has its queue. *)
Lemma stale_loop_closes_reopened_socket
      srv client_sock client_addr arrived s e old :
  consistent srv ->
  client_id (ClientHandler_init client_sock client_addr arrived) = JStr s ->
  dir_find (JStr s) (conns srv) = Some e ->
  nth_error (objects srv) e = Some old ->
  Connection.should_run (base old) || running (base old) = false ->
  let srv' := server_of (negotiate_client_id srv client_sock client_addr
                                             arrived) in
  let later := loop_exits srv' (length (objects srv)) in
  exists new,
    nth_error (objects later) e = Some new
    /\ sock (base new) = client_sock
    /\ Connection.should_run (base new) = true
    /\ running (base new) = true
    /\ outbound_message_queue (base new) = outbound_message_queue (base old)
    /\ sock_closed later (base new) = true.
Proof.
  intros [Hwf Hdk] Hid Hfind Hold Hr srv' later.
  destruct (init_base client_sock client_addr arrived) as (Hrun & Hsock & _).
  assert (Hlive : running (base (ClientHandler_init client_sock client_addr
                                                    arrived)) = true).
  { unfold ClientHandler_init, wait_for_recv.
    destruct arrived; reflexivity. }
  set (client := ClientHandler_init client_sock client_addr arrived) in *.
  set (fresh := length (objects srv)) in *.
  assert (He : e < fresh)
    by (eapply dir_find_bound; [exact Hwf | exact Hfind]).
  assert (Hold2 :
    nth_error (update (objects srv ++ [client]) fresh
                 (with_base client (stop false (base client)))) e
    = Some old).
  { rewrite nth_error_update_neq by lia.
    rewrite nth_error_app1 by (unfold fresh in He; lia). exact Hold. }
  assert (E : srv' =
    with_objects
      (with_objects (with_objects srv (objects srv ++ [client]))
         (update (objects srv ++ [client]) fresh
                 (with_base client (stop false (base client)))))
      (update (update (objects srv ++ [client]) fresh
                      (with_base client (stop false (base client))))
              e
              (with_base {| base := base old; addr := client_addr;
                            client_id := client_id old |}
                 (start (set_sock_field (base old) client_sock))))).
  { subst srv'. unfold negotiate_client_id. fold client. fold fresh.
    rewrite Hid. cbn [is_None hashable negb conns with_objects objects].
    rewrite Hfind, Hold2. unfold reopen_with, set_sock. cbn [base].
    rewrite Hr. reflexivity. }
  assert (Hnew : nth_error (objects srv') fresh
                 = Some (with_base client (stop false (base client)))).
  { rewrite E. cbn [objects with_objects].
    rewrite nth_error_update_neq by lia.
    apply nth_error_update_eq. rewrite length_app. cbn. unfold fresh. lia. }
  subst later. unfold loop_exits. rewrite Hnew.
  cbn [base with_base stop set_should_run Connection.should_run running
       thread_alive orb negb].
  unfold running in Hlive. rewrite Hlive. cbn [negb].
  eexists. split.
  - cbn [objects with_objects with_closed].
    rewrite nth_error_update_neq by lia.
    rewrite E. cbn [objects with_objects].
    apply nth_error_update_eq. rewrite update_length, length_app.
    cbn. unfold fresh in He. lia.
  - cbn. rewrite Hsock, Nat.eqb_refl. repeat split; reflexivity.
Qed.

(** C5, at a reconnection.  What the specification says of a client
    that connects again does not hold of the code: the client is not
    left with a handler that works on the new socket.

    [one_client_stopped] is a server whose one client, abc123, has
    dropped its connection: the loop of its handler has ended, and two
    messages are still queued.  abc123 connects again, on socket 2.  The
    directory keeps its one entry and the existing handler keeps its
    queue and is started on socket 2; but the handler made for the new
    connection holds that same socket object and has only been told to
    stop, and the end of its loop closes it: the existing handler is
    left running on a closed socket, the two messages still queued.

    [one_client] is that server while the handler of abc123 is still
    running.  There the socket setter raises: [AttributeError] leaves
    [__negotiate_client_id], the existing handler keeps socket 1, and
    the end of the loop of the new handler closes socket 2, the
    connection the client has just made. *)
Theorem reopened_handler_loses_socket :
  (negotiate_client_id Scenarios.one_client_stopped (Examples.quiet_socket 2)
                       Scenarios.peer
                       [Scenarios.negotiation_of Scenarios.abc]
   = Done Scenarios.reconnected
   /\ conns Scenarios.reconnected = [(Scenarios.abc, 0)]
   /\ exists existing discarded,
        objects Scenarios.reconnected = [existing; discarded]
        /\ outbound_message_queue (base existing)
           = [Examples.m1; Examples.m2]
        /\ Connection.should_run (base existing) = true
        /\ running (base existing) = true
        /\ fd (sock (base existing)) = 2
        /\ fd (sock (base discarded)) = 2
        /\ Connection.should_run (base discarded) = false
        /\ running (base discarded) = true
        /\ sock_closed Scenarios.reconnected (base existing) = false
        /\ nth_error (objects Scenarios.reconnected_later) 0 = Some existing
        /\ sock_closed Scenarios.reconnected_later (base existing) = true)
  /\ (exists srv',
        Scenarios.early_reconnect = Raised AttributeError srv'
        /\ conns srv' = [(Scenarios.abc, 0)]
        /\ exists existing discarded,
             objects srv' = [existing; discarded]
             /\ Connection.should_run (base existing) = true
             /\ fd (sock (base existing)) = 1
             /\ fd (sock (base discarded)) = 2
             /\ Connection.should_run (base discarded) = false
             /\ sock_closed srv' (base discarded) = false
             /\ sock_closed Scenarios.early_reconnect_later (base discarded)
                = true).
Proof.
  split.
  - split; [reflexivity|]. split; [reflexivity|].
    do 2 eexists. split; [reflexivity|].
    repeat split; reflexivity.
  - eexists. split; [reflexivity|]. split; [reflexivity|].
    do 2 eexists. split; [reflexivity|].
    repeat split; reflexivity.
Qed.
End NegotiationProperties.

(* ================================================================== *)
(** * [connect] on the client *)

Module ConnectProperties.
Import Json Connection Py Client ClientInv ClientFacts Examples Scenarios.
Import Aux.

Lemma bind_step_passes w c :
  bind_passes w c ->
  (if binds (with_conn (set_state c (Z.lor STATE_OK STATE_CONNECTING))
                       (Some (ConnectionHandler_init (new_socket w))))
   then bind_raises w else None) = None.
Proof.
  intros [H|H]; rewrite binds_c2; [now rewrite H|].
  rewrite H. now destruct (binds c).
Qed.

Lemma connect_finish_failed w c :
  start_ok w = false ->
  exists c', connect_finish w c = (false, c')
             /\ state c' = failed_status false /\ conn c' = None.
Proof.
  intros H. unfold connect_finish. rewrite H.
  eexists. split; [reflexivity|]. apply fail_connect_spec.
Qed.

Lemma connect_finish_started w c h0 :
  start_ok w = true -> conn c = Some h0 ->
  exists c' h,
    connect_finish w c = (true, c')
    /\ state c' = Z.lor STATE_OK STATE_CONNECTED
    /\ conn c' = Some h
    /\ h = send (start h0) (negotiation c).
Proof.
  intros H Hc. unfold connect_finish, handler_of. rewrite H, Hc.
  eexists. eexists. split; [reflexivity|].
  cbn [trigger with_state with_consumer state conn].
  rewrite state_set_state, conn_set_state. cbn. auto.
Qed.

(** The failures of [connect].  Past its checks, a failure of
    the bind, of the connect (other than a refusal) or of the start makes
    [connect] return failure, with the status connect-failed |
    not-connected (plus unexpected-closure for a timeout) and no handler
    left.  A refused connection is only logged: [connect] goes on as
    after a successful connect.  No error of a socket call leaves
    [connect] as an exception. *)
Lemma connect_failures w c :
  ready c ->
  (forall e,
      binds c = true -> bind_raises w = Some e ->
      exists c', connect w c = (inl false, c')
                 /\ state c' = failed_status (is_timeout e)
                 /\ conn c' = None)
  /\ (forall e,
        bind_passes w c -> connect_raises w = Some e ->
        e <> ConnectionRefusedError ->
        exists c', connect w c = (inl false, c')
                   /\ state c' = failed_status (is_timeout e)
                   /\ conn c' = None)
  /\ (bind_passes w c ->
      connect_raises w = None \/
      connect_raises w = Some ConnectionRefusedError ->
      start_ok w = false ->
      exists c', connect w c = (inl false, c')
                 /\ state c' = failed_status false
                 /\ conn c' = None)
  /\ (bind_passes w c ->
      connect_raises w = Some ConnectionRefusedError ->
      start_ok w = true ->
      exists c' h,
        connect w c = (inl true, c')
        /\ state c' = Z.lor STATE_OK STATE_CONNECTED
        /\ conn c' = Some h
        /\ Connection.should_run h = true
        /\ outbound_message_queue h = [negotiation c])
  /\ (forall e c', connect w c <> (inr e, c')).
Proof.
  intros Hr. rewrite (connect_ready w c Hr). unfold connect_body.
  split; [|split; [|split; [|split]]].
  - intros e Hb He. rewrite binds_c2, Hb, He.
    destruct e; eexists; (split; [reflexivity|]); apply fail_connect_spec.
  - intros e Hb He Hne. rewrite (bind_step_passes w c Hb), He.
    destruct e; try contradiction;
      eexists; (split; [reflexivity|]); apply fail_connect_spec.
  - intros Hb Hc Hs. rewrite (bind_step_passes w c Hb).
    destruct Hc as [-> | ->].
    + destruct (connect_finish_failed w
                  (with_conn (set_state c (Z.lor STATE_OK STATE_CONNECTING))
                     (Some (ConnectionHandler_init (new_socket w)))) Hs)
        as (c' & E & H1 & H2).
      rewrite E. eauto.
    + destruct (connect_finish_failed w
                  (with_log
                     (with_conn (set_state c (Z.lor STATE_OK STATE_CONNECTING))
                        (Some (ConnectionHandler_init (new_socket w))))
                     "Connection refused. Reconnecting...") Hs)
        as (c' & E & H1 & H2).
      rewrite E. eauto.
  - intros Hb Hc Hs. rewrite (bind_step_passes w c Hb), Hc.
    destruct (connect_finish_started w
                (with_log
                   (with_conn (set_state c (Z.lor STATE_OK STATE_CONNECTING))
                      (Some (ConnectionHandler_init (new_socket w))))
                   "Connection refused. Reconnecting...")
                (ConnectionHandler_init (new_socket w)) Hs eq_refl)
      as (c' & h & E & H1 & H2 & H3).
    rewrite E. exists c', h. repeat split; try assumption.
    + subst h. reflexivity.
    + subst h. unfold negotiation. cbn.
      now rewrite client_id_set_state.
  - intros e c'.
    destruct (if binds _ then bind_raises w else None) as [[]|];
      try discriminate.
    destruct (connect_raises w) as [[]|]; try discriminate;
      destruct (connect_finish w _); discriminate.
Qed.

(** C3, as the code has it.  With the address, the port or the client id
    unset, [connect] raises [AttributeError] and touches nothing.  With
    the three set, a status that has needs-init or lacks not-connected
    makes it return failure; only the log grows: no handler is built, the
    status is unchanged and no event is fired. *)
Theorem connect_preconditions w c :
  (is_None (address_ c) || is_None (port_ c) || is_None (client_id_ c)
   = true ->
   connect w c = (inr AttributeError, c))
  /\ (configured c ->
      has_flag (state c) STATE_NEEDS_INIT = true \/
      has_flag (state c) STATE_NOT_CONNECTED = false ->
      exists c',
        connect w c = (inl false, c')
        /\ conn c' = conn c /\ state c' = state c /\ fired c' = fired c
        /\ exists msg, c' = with_log c msg).
Proof.
  split.
  - intros H. unfold connect.
    destruct (is_None (address_ c)); [reflexivity|].
    destruct (is_None (port_ c)); [reflexivity|].
    destruct (is_None (client_id_ c)); [reflexivity | discriminate].
  - intros (Ha & Hp & Hi) H. unfold connect. rewrite Ha, Hp, Hi.
    destruct (has_flag (state c) STATE_NEEDS_INIT) eqn:Hn.
    + eexists. split; [reflexivity|]. cbn. eauto.
    + destruct H as [H|H]; [discriminate|]. rewrite H. cbn [negb].
      eexists. split; [reflexivity|]. cbn. eauto.
Qed.

(** C9.  The [client_id] property reads the address field: after the
    address is set to [a] and the client id to [cid], the property gives
    [a], while the negotiation message that [connect] queues carries
    [cid]. *)
Theorem client_id_reads_address c a cid c1 c2 :
  set_address c a = inl c1 ->
  set_client_id c1 cid = inl c2 ->
  client_id c2 = a
  /\ client_id_ c2 = cid
  /\ payload (negotiation c2) = JObj [(of_string "id", cid)]
  /\ forall w c3,
       connect w c2 = (inl true, c3) ->
       exists h, conn c3 = Some h
                 /\ outbound_message_queue h = [negotiation c2].
Proof.
  unfold set_address, set_client_id.
  destruct (has_flag (state c) STATE_RUNNING); [discriminate|].
  intros H1. injection H1 as <-.
  destruct (has_flag _ STATE_RUNNING); [discriminate|].
  intros H2. injection H2 as <-.
  assert (Ha : forall x, address_ (check_inited x) = address_ x).
  { intros x. unfold check_inited.
    destruct (_ && _); apply address_set_state. }
  assert (Hc : forall x, client_id_ (check_inited x) = client_id_ x).
  { intros x. unfold check_inited.
    destruct (_ && _); apply client_id_set_state. }
  split; [|split; [|split]].
  - unfold client_id. rewrite Ha. cbn. rewrite Ha. reflexivity.
  - rewrite Hc. reflexivity.
  - unfold negotiation. cbn [payload]. rewrite Hc. reflexivity.
  - intros w c3. set (c2 := check_inited _). unfold connect.
    destruct (is_None (address_ c2)); [discriminate|].
    destruct (is_None (port_ c2)); [discriminate|].
    destruct (is_None (client_id_ c2)); [discriminate|].
    destruct (has_flag (state c2) STATE_NEEDS_INIT); [discriminate|].
    destruct (negb (has_flag (state c2) STATE_NOT_CONNECTED));
      [discriminate|].
    assert (F : forall x h0 b c',
               conn x = Some h0 -> outbound_message_queue h0 = [] ->
               client_id_ x = client_id_ c2 ->
               connect_finish w x = (b, c') -> b = true ->
               exists h, conn c' = Some h
                         /\ outbound_message_queue h = [negotiation c2]).
    { intros x h0 b c' Hx Hq Hid. unfold connect_finish, handler_of.
      rewrite Hx. destruct (start_ok w).
      - intros E _. injection E as _ <-.
        cbn [trigger with_state with_consumer conn].
        rewrite conn_set_state. cbn [conn with_log with_conn].
        eexists. split; [reflexivity|].
        unfold send. cbn. rewrite Hq. unfold negotiation.
        now rewrite Hid.
      - intros E Hb. injection E as <- _. discriminate. }
    destruct (if binds _ then bind_raises w else None) as [[]|];
      try discriminate.
    destruct (connect_raises w) as [[]|]; try discriminate.
    + destruct (connect_finish w _) as [b c'] eqn:E.
      intros H. injection H as -> ->.
      eapply F; [| | |exact E|reflexivity]; try reflexivity.
      cbn. apply client_id_set_state.
    + destruct (connect_finish w _) as [b c'] eqn:E.
      intros H. injection H as -> ->.
      eapply F; [| | |exact E|reflexivity]; try reflexivity.
      cbn. apply client_id_set_state.
Qed.

(** C2, at a refused connection.  On a client with its address, port and
    client id set, a [connect] whose connection is refused returns
    success: the refusal is logged and nothing else, so the handler is
    started and kept, the negotiation is queued and the status becomes
    ok | connected.  [__reconnect] returns failure on the same refusal. *)
Theorem refused_connect_reports_success :
  exists c' h,
    connect refused set_up = (inl true, c')
    /\ state c' = Z.lor STATE_OK STATE_CONNECTED
    /\ conn c' = Some h
    /\ Connection.should_run h = true
    /\ outbound_message_queue h = [negotiation set_up]
    /\ fst (reconnect refused set_up) = false.
Proof.
  eexists. eexists. split; [vm_compute; reflexivity|].
  split; [reflexivity|]. split; [reflexivity|].
  split; [reflexivity|]. split; reflexivity.
Qed.
End ConnectProperties.

(* ================================================================== *)
(** * Reconnection backoff *)

Module BackoffProperties.
Import Json Connection Py Client ClientInv ClientFacts.
Import Aux.
Local Open Scope Q_scope.


Lemma sleep_seq_S s0 N :
  sleep_seq s0 (S N) = Qmin (sleep_seq s0 N * 2) 15.
Proof.
  revert s0. induction N as [|N IH]; intros s0; [reflexivity|].
  cbn [sleep_seq] in *. now rewrite IH.
Qed.

Lemma pow2_S N :
  inject_Z (2 ^ Z.of_nat (S N)) == inject_Z (2 ^ Z.of_nat N) * 2.
Proof.
  rewrite Nat2Z.inj_succ, Z.pow_succ_r by lia.
  rewrite inject_Z_mult. ring.
Qed.

Lemma pow2_pos N : 0 < inject_Z (2 ^ Z.of_nat N).
Proof.
  change 0 with (inject_Z 0). rewrite <- Zlt_Qlt.
  apply Z.pow_pos_nonneg; lia.
Qed.

Lemma sleep_seq_closed N : sleep_seq (1 # 10) N == backoff N.
Proof.
  unfold backoff. induction N as [|N IH].
  - cbn [sleep_seq]. change (inject_Z (2 ^ Z.of_nat 0)) with 1.
    destruct (Q.min_spec ((1 # 10) * 1) 15) as [[_ E]|[H _]]; [|lra].
    rewrite E. lra.
  - rewrite sleep_seq_S.
    pose proof (pow2_S N) as Hp.
    set (s := sleep_seq (1 # 10) N) in *.
    set (p := inject_Z (2 ^ Z.of_nat N)) in *.
    set (p' := inject_Z (2 ^ Z.of_nat (S N))) in *.
    destruct (Q.min_spec ((1 # 10) * p) 15) as [[H1 E1]|[H1 E1]];
      rewrite E1 in IH;
      destruct (Q.min_spec (s * 2) 15) as [[H2 E2]|[H2 E2]];
      destruct (Q.min_spec ((1 # 10) * p') 15) as [[H3 E3]|[H3 E3]];
      rewrite E2, E3; lra.
Qed.

Lemma reconnect_fails w c :
  connect_raises w <> None \/ start_ok w = false ->
  fst (reconnect w c) = false.
Proof.
  intros H. unfold reconnect.
  destruct (if binds _ then bind_raises w else None); [reflexivity|].
  destruct (connect_raises w); [reflexivity|].
  destruct H as [H | ->]; [contradiction | reflexivity].
Qed.

(** Every wait of the loop uses the sleep time of its index. *)
Lemma reconnect_loop_waits script : forall s c waits,
  exists new,
    snd (reconnect_loop script s c waits) = waits ++ new
    /\ forall N w, nth_error new N = Some w -> w = sleep_seq s N.
Proof.
  induction script as [|a script IH]; intros s c waits.
  - exists []. cbn. rewrite app_nil_r. split; [reflexivity|].
    intros [|N] w H; discriminate H.
  - cbn [reconnect_loop].
    destruct (abort_in_wait a).
    + exists [s]. cbn [snd]. split; [reflexivity|].
      intros [|[|N]] w H; try discriminate H.
      injection H as <-. reflexivity.
    + destruct (reconnect (network a) c) as [ok c1].
      destruct ok.
      * exists [s]. cbn [snd]. split; [reflexivity|].
        intros [|[|N]] w H; try discriminate H.
        injection H as <-. reflexivity.
      * destruct (IH (Qmin (s * 2) 15) c1 (waits ++ [s])) as (new & E & Hn).
        exists (s :: new). rewrite E, <- app_assoc. split; [reflexivity|].
        intros [|N] w H.
        -- injection H as <-. reflexivity.
        -- cbn [nth_error] in H. cbn [sleep_seq]. now apply Hn.
Qed.

(** After [N] failed attempts there is a further wait. *)
Lemma reconnect_loop_next script : forall s c waits N,
  (N < length script)%nat ->
  Forall failed_attempt (firstn N script) ->
  nth_error (snd (reconnect_loop script s c waits)) (length waits + N)
  = Some (sleep_seq s N).
Proof.
  induction script as [|a script IH]; intros s c waits N HN Hf.
  - cbn in HN. lia.
  - cbn [reconnect_loop]. destruct N as [|N].
    + rewrite Nat.add_0_r.
      assert (G : forall r, nth_error ((waits ++ [s]) ++ r) (length waits)
                            = Some s).
      { intros r. rewrite <- app_assoc.
        rewrite nth_error_app2, Nat.sub_diag by lia. reflexivity. }
      destruct (abort_in_wait a);
        [cbn [snd]; rewrite <- (app_nil_r (waits ++ [s])); apply G|].
      destruct (reconnect (network a) c) as [ok c1]. destruct ok.
      * cbn [snd]. rewrite <- (app_nil_r (waits ++ [s])). apply G.
      * destruct (reconnect_loop_waits script (Qmin (s * 2) 15) c1
                    (waits ++ [s])) as (new & E & _).
        rewrite E. apply G.
    + cbn [firstn] in Hf. inversion Hf as [|? ? [Ha Hc] Hr]; subst.
      rewrite Ha.
      pose proof (reconnect_fails (network a) c Hc) as Hfail.
      destruct (reconnect (network a) c) as [ok c1]. cbn [fst] in Hfail.
      subst ok.
      specialize (IH (Qmin (s * 2) 15) c1 (waits ++ [s]) N).
      rewrite length_app in IH. cbn [length] in IH, HN.
      replace (length waits + S N)%nat with (length waits + 1 + N)%nat
        by lia.
      apply IH; [lia | exact Hr].
Qed.

(** C7.  The wait before reconnect attempt [N + 1] uses the sleep time
    [min(0.1 * 2^N, 15)]: it starts at 0.1 and doubles after each
    attempt, capped at 15.  The first part holds for every wait of every
    run; the second says that the wait is there after [N] failed
    attempts.  (The constant 0.1 is the rational 1/10; doubling and the
    cap are exact on binary floats as well.) *)
Theorem reconnect_backoff script c :
  attempt_reconnect c = true ->
  (forall N w,
      nth_error (snd (reconnect_wrapper script c)) N = Some w ->
      w == backoff N)
  /\ (forall N,
        (N < length script)%nat ->
        Forall failed_attempt (firstn N script) ->
        exists w,
          nth_error (snd (reconnect_wrapper script c)) N = Some w
          /\ w == backoff N).
Proof.
  intros Hr. unfold reconnect_wrapper. rewrite Hr. cbn [negb].
  split.
  - intros N w H.
    destruct (reconnect_loop_waits script (1 # 10)
                (set_state c (Z.lor (Z.lor STATE_RECONNECTING
                                           STATE_CONNECTING) STATE_OK)) [])
      as (new & E & Hn).
    rewrite E in H. cbn [app] in H.
    rewrite (Hn N w H). apply sleep_seq_closed.
  - intros N HN Hf. exists (sleep_seq (1 # 10) N).
    split; [|apply sleep_seq_closed].
    apply (reconnect_loop_next script (1 # 10) _ [] N HN Hf).
Qed.
End BackoffProperties.

(* ================================================================== *)
(** * The scenarios, run *)

Module ScenarioChecks.
Import Json JsonDecoder Connection Py Server Client.
Import ServerInv ClientInv Examples Scenarios.
Import ServerFacts NegotiationProperties ClientFacts ConnectProperties BackoffProperties.

(** *** C10 *)

Lemma negotiation_needs_truthy_id_witness :
  Server.client_id (ClientHandler_init (quiet_socket 5) peer
                                [negotiation_of (JStr [])]) = JNull
  /\ exists srv',
       negotiate_client_id one_client (quiet_socket 5) peer
                           [negotiation_of (JStr [])] = Done srv'
       /\ conns srv' = conns one_client.
Proof.
  pose proof (negotiation_needs_truthy_id (quiet_socket 5) peer
                [negotiation_of (JStr [])]) as H.
  cbv zeta in H. destruct H as (_ & He & _ & _ & _ & Hs).
  assert (E : Server.client_id (ClientHandler_init (quiet_socket 5) peer
                           [negotiation_of (JStr [])]) = JNull).
  { apply (He (negotiation_of (JStr [])) []); reflexivity. }
  split; [exact E|].
  destruct (Hs one_client E) as (srv' & E1 & E2 & _).
  exists srv'. auto.
Defined.

(** *** Reconnection *)

Lemma one_client_consistent : consistent one_client.
Proof.
  split.
  - unfold well_formed. vm_compute. repeat constructor.
  - vm_compute. split; [constructor | exact I].
Qed.

Lemma one_client_stopped_consistent : consistent one_client_stopped.
Proof.
  split.
  - unfold well_formed. vm_compute. repeat constructor.
  - vm_compute. split; [constructor | exact I].
Qed.

Lemma dedup_on_reconnect_witness :
  conns reconnected = conns one_client_stopped
  /\ entries_for abc (conns reconnected) = 1
  /\ exists new,
       nth_error (objects reconnected) 0 = Some new
       /\ outbound_message_queue (base new) = [m1; m2]
       /\ sock (base new) = quiet_socket 2.
Proof.
  unfold reconnected.
  pose proof (dedup_on_reconnect one_client_stopped (quiet_socket 2) peer
                [negotiation_of abc] (of_string "abc123")
                one_client_stopped_consistent eq_refl) as H.
  cbv zeta in H. destruct H as (H & _).
  destruct (H 0 eq_refl)
    as (E1 & E2 & _ & _ & old & new & Ho & Hn & Hq & _ & Hs & _).
  split; [exact E1|]. split; [exact E2|].
  exists new. split; [exact Hn|].
  injection Ho as <-.
  split; [exact Hq|].
  destruct (Hs eq_refl) as (_ & S & _). exact S.
Defined.

(** While the handler of the id is still running, the socket setter
    refuses the new socket and the handler keeps the old one. *)
Lemma running_handler_not_reopened : ~ reopens_always.
Proof.
  intros H.
  destruct (H one_client (quiet_socket 2) peer [negotiation_of abc]
              (of_string "abc123") 0 one_client_consistent
              eq_refl eq_refl) as (h & Hn & Hs).
  vm_compute in Hn. injection Hn as <-. discriminate Hs.
Qed.

(** *** [connect] *)

Lemma set_up_ready : ready set_up.
Proof. repeat split. Qed.

Lemma timed_out_connect_fails :
  exists c',
    connect timed_out set_up = (inl false, c')
    /\ state c' = failed_status true
    /\ conn c' = None.
Proof.
  refine (proj1 (proj2 (connect_failures timed_out set_up set_up_ready))
            SocketTimeout _ _ _).
  - right. reflexivity.
  - reflexivity.
  - discriminate.
Defined.

(** The refusal is no failure: after a refused connection [connect] returns
    success, with the status ok | connected and the handler kept. *)
Lemma refused_connect_succeeds : ~ refusal_returns_failure.
Proof.
  intros H.
  destruct (H refused set_up set_up_ready (or_intror eq_refl) eq_refl)
    as (c' & E & _).
  vm_compute in E. discriminate E.
Qed.

(** *** C3 *)

Lemma connected_configured : configured connected.
Proof. repeat split. Qed.

Lemma connect_preconditions_witness :
  connect all_fine (Client_init true)
  = (inr AttributeError, Client_init true)
  /\ exists c',
       connect all_fine connected = (inl false, c')
       /\ conn c' = conn connected /\ state c' = state connected
       /\ fired c' = fired connected.
Proof.
  split.
  - apply (proj1 (connect_preconditions all_fine (Client_init true))).
    reflexivity.
  - destruct (proj2 (connect_preconditions all_fine connected)
                connected_configured (or_intror eq_refl))
      as (c' & E & H1 & H2 & H3 & _).
    exists c'. auto.
Defined.

(** C3 fails as stated: with a field unset [connect] raises
    [AttributeError]. *)
Lemma unset_field_raises : ~ unset_field_returns_failure.
Proof.
  intros H. destruct (H all_fine (Client_init true) eq_refl) as (c' & E).
  vm_compute in E. discriminate E.
Qed.

(** *** C9 *)

Lemma client_id_reads_address_witness :
  exists c1 c2,
    set_address (Client_init true) (JStr (of_string "127.0.0.1")) = inl c1
    /\ set_client_id c1 abc = inl c2
    /\ Client.client_id c2 = JStr (of_string "127.0.0.1")
    /\ client_id_ c2 = abc.
Proof.
  eexists. eexists. split; [reflexivity|]. split; [reflexivity|].
  pose proof (client_id_reads_address (Client_init true)
                (JStr (of_string "127.0.0.1")) abc _ _
                eq_refl eq_refl) as (H1 & H2 & _).
  split; [exact H1 | exact H2].
Defined.

(** *** C7 *)

Lemma reconnect_backoff_witness :
  exists w,
    nth_error (snd (reconnect_wrapper server_down set_up)) 8 = Some w
    /\ (w == backoff 8)%Q.
Proof.
  refine (proj2 (reconnect_backoff server_down set_up eq_refl) 8 _ _).
  - cbn. lia.
  - unfold server_down. cbn [repeat firstn].
    repeat (apply Forall_cons; [split; [reflexivity | left; discriminate]|]).
    apply Forall_nil.
Defined.

Lemma backoff_values :
  (backoff 0 == 1 # 10)%Q /\ (backoff 3 == 8 # 10)%Q
  /\ (backoff 7 == 128 # 10)%Q /\ (backoff 8 == 15)%Q.
Proof. repeat split; vm_compute; reflexivity. Qed.
End ScenarioChecks.

(* ================================================================== *)
(** * What one step of a handler touches *)

Module StepFacts.
Import Json JsonDecoder Connection Valid Runs Loop.
Import Aux TextFacts Utf8Facts DumpsFacts CodecFacts RoundTrip SendFacts.

Lemma rest_of_refl {A} (l : list A) : rest_of l l.
Proof. now exists []. Qed.

Lemma rest_of_trans {A} (a b c : list A) :
  rest_of a b -> rest_of b c -> rest_of a c.
Proof.
  intros [t1 ->] [t2 ->]. exists (t1 ++ t2). now rewrite app_assoc.
Qed.

Lemma rest_of_skipn {A} n (l : list A) : rest_of l (skipn n l).
Proof. exists (firstn n l). symmetry. apply firstn_skipn. Qed.

Lemma rest_of_cons {A} (x : A) l : rest_of (x :: l) l.
Proof. now exists [x]. Qed.

Lemma recv1_rest ev inc n r inc' :
  recv1 ev inc n = (r, inc') -> rest_of inc inc'.
Proof.
  destruct ev; cbn [recv1]; [destruct inc| | |]; intros H;
    injection H as _ <-; try apply rest_of_refl.
  apply rest_of_skipn.
Qed.

Lemma recv_header_rest script : forall inc got r sc inc',
  recv_header script inc got = (r, sc, inc') ->
  rest_of inc inc' /\ rest_of script sc.
Proof.
  induction script as [|ev script IH]; intros inc got r sc inc' H;
    cbn [recv_header] in H;
    destruct (HEADER_LEN_BYTES <=? length got).
  - injection H as _ <- <-. split; apply rest_of_refl.
  - injection H as _ <- <-. split; apply rest_of_refl.
  - injection H as _ <- <-. split; apply rest_of_refl.
  - destruct (recv1 ev inc (HEADER_LEN_BYTES - length got)) as [rr inc1] eqn:E.
    apply recv1_rest in E.
    destruct rr as [[|y ys]|e].
    + injection H as _ <- <-. split; [exact E | apply rest_of_cons].
    + destruct (IH _ _ _ _ _ H) as [H1 H2]. split.
      * eapply rest_of_trans; eassumption.
      * eapply rest_of_trans; [apply rest_of_cons | exact H2].
    + destruct e; injection H as _ <- <-;
        (split; [exact E | apply rest_of_cons]).
Qed.

Lemma recv_body_rest script : forall inc msglen got r sc inc',
  recv_body script inc msglen got = (r, sc, inc') ->
  rest_of inc inc' /\ rest_of script sc.
Proof.
  induction script as [|ev script IH]; intros inc msglen got r sc inc' H;
    cbn [recv_body] in H;
    destruct (body_want msglen (length got)) as [n| |].
  - injection H as _ <- <-. split; apply rest_of_refl.
  - injection H as _ <- <-. split; apply rest_of_refl.
  - injection H as _ <- <-. split; apply rest_of_refl.
  - destruct (recv1 ev inc n) as [rr inc1] eqn:E.
    apply recv1_rest in E.
    destruct rr as [[|y ys]|e].
    + injection H as _ <- <-. split; [exact E | apply rest_of_cons].
    + destruct (IH _ _ _ _ _ _ H) as [H1 H2]. split.
      * eapply rest_of_trans; eassumption.
      * eapply rest_of_trans; [apply rest_of_cons | exact H2].
    + injection H as _ <- <-. split; [exact E | apply rest_of_cons].
  - injection H as _ <- <-. split; apply rest_of_refl.
  - injection H as _ <- <-. split; apply rest_of_refl.
Qed.

Lemma after_recv_side h sc inc :
  rest_of (incoming (sock h)) inc -> rest_of (recv_script (sock h)) sc ->
  recv_side_only h (after_recv h sc inc).
Proof. intros H1 H2. repeat split; assumption. Qed.

Lemma recv_queue_tick_side h :
  recv_side_only h (snd (recv_queue_tick h))
  /\ (inbound_message_queue (snd (recv_queue_tick h))
      = inbound_message_queue h
      \/ exists m,
           fst (recv_queue_tick h) = Return true
           /\ inbound_message_queue (snd (recv_queue_tick h))
              = inbound_message_queue h ++ [m]).
Proof.
  unfold recv_queue_tick.
  destruct (recv_header (recv_script (sock h)) (incoming (sock h)) [])
    as [[r sc] inc] eqn:E.
  destruct (recv_header_rest _ _ _ _ _ _ E) as [H1 H2].
  destruct r as [raw | | | e]; cbn [fst snd];
    try (split; [now apply after_recv_side | now left]).
  destruct (parse_header raw) as [msglen subj| |e];
    try (cbn [fst snd]; split; [now apply after_recv_side | now left]).
  destruct (recv_body sc inc msglen []) as [[r2 sc2] inc2] eqn:E2.
  destruct (recv_body_rest _ _ _ _ _ _ _ E2) as [H3 H4].
  assert (G1 : rest_of (incoming (sock h)) inc2)
    by (eapply rest_of_trans; eassumption).
  assert (G2 : rest_of (recv_script (sock h)) sc2)
    by (eapply rest_of_trans; eassumption).
  destruct r2 as [body | | | e]; cbn [fst snd];
    try (split; [now apply after_recv_side | now left]).
  destruct (deserialize subj body) as [msg|]; cbn [fst snd].
  - split; [now apply after_recv_side|]. right. exists msg. auto.
  - split; [now apply after_recv_side | now left].
Qed.

End StepFacts.

Module SendSideFacts.
Import Json JsonDecoder Connection Valid Runs Loop.
Import Aux TextFacts Utf8Facts DumpsFacts CodecFacts RoundTrip SendFacts.
Import StepFacts.

Lemma grows_refl {A} (l : list A) : grows l l.
Proof. exists []. now rewrite app_nil_r. Qed.

Lemma grows_trans {A} (a b c : list A) : grows a b -> grows b c -> grows a c.
Proof. intros [x ->] [y ->]. exists (x ++ y). now rewrite app_assoc. Qed.

Lemma firstn_plus {A} n m (l : list A) :
  firstn (n + m) l = firstn n l ++ firstn m (skipn n l).
Proof.
  revert l. induction n as [|n IH]; intros l; [reflexivity|].
  destruct l as [|x l]; cbn [plus firstn skipn app].
  - now rewrite firstn_nil.
  - now rewrite IH.
Qed.

(** What [send_all] has written is a prefix of the data, the whole of it
    exactly when it reports success. *)
Lemma send_all_prefix script : forall data w r sc w',
  send_all script data w = (r, sc, w') ->
  exists j,
    w' = w ++ firstn j data
    /\ rest_of script sc
    /\ (r = WriteDone -> j = length data)
    /\ (r <> WriteDone -> j < length data).
Proof.
  induction script as [|ev script IH]; intros data w r sc w' H.
  - destruct data as [|x data]; cbn [send_all] in H; injection H as <- <- <-.
    + exists 0. rewrite app_nil_r. repeat split; try apply rest_of_refl.
      congruence.
    + exists 0. rewrite app_nil_r. cbn [length].
      repeat split; try apply rest_of_refl; try discriminate. lia.
  - destruct data as [|x data]; cbn [send_all] in H.
    + injection H as <- <- <-. exists 0. rewrite app_nil_r.
      repeat split; try apply rest_of_refl. congruence.
    + destruct ev as [k| |]; cbn [send1] in H.
      * cbn [length Nat.min] in H.
        destruct (IH _ _ _ _ _ H) as (j & E & Hr & Hd & Hn).
        exists (S (Nat.min k (length data)) + j).
        rewrite firstn_plus, app_assoc. split; [exact E|].
        split; [eapply rest_of_trans; [apply rest_of_cons | exact Hr]|].
        rewrite length_skipn in *. cbn [length] in *.
        split; intros G; [specialize (Hd G) | specialize (Hn G)]; lia.
      * injection H as <- <- <-. exists 0. rewrite app_nil_r. cbn [length].
        repeat split; try apply rest_of_cons; try discriminate. lia.
      * injection H as <- <- <-. exists 0. rewrite app_nil_r. cbn [length].
        repeat split; try apply rest_of_cons; try discriminate. lia.
Qed.

Lemma after_send_side h q sc w :
  grows (wire (sock h)) w -> rest_of (send_script (sock h)) sc ->
  send_side_only h (after_send (set_outbound h q) sc w).
Proof. intros H1 H2. repeat split; assumption. Qed.

Section WithRepr.
Variable fr : pyfloat -> text.

Lemma send_queue_tick_side h :
  send_side_only h (snd (send_queue_tick fr h)).
Proof.
  assert (R : send_side_only h h).
  { repeat split; try apply grows_refl; apply rest_of_refl. }
  unfold send_queue_tick.
  destruct (outbound_message_queue h) as [|m q] eqn:Hq; [exact R|].
  assert (R1 : send_side_only h (set_outbound h q)).
  { repeat split; try apply grows_refl; apply rest_of_refl. }
  destruct (serialize fr m) as [body|]; [|exact R1].
  destruct (pack_header fr (length body) (subject m)) as [hdr|e];
    [|exact R1].
  cbn [sock set_outbound].
  destruct (send_all (send_script (sock h)) hdr (wire (sock h)))
    as [[r sc] w] eqn:E.
  destruct (send_all_prefix _ _ _ _ _ _ E) as (j & -> & Hr & _).
  assert (G : grows (wire (sock h)) (wire (sock h) ++ firstn j hdr))
    by (now eexists).
  destruct r as [| |e]; cbn [snd].
  - destruct (send_all sc body (wire (sock h) ++ firstn j hdr))
      as [[r2 sc2] w2] eqn:E2.
    destruct (send_all_prefix _ _ _ _ _ _ E2) as (j2 & -> & Hr2 & _).
    assert (G2 : grows (wire (sock h))
                   ((wire (sock h) ++ firstn j hdr) ++ firstn j2 body)).
    { eapply grows_trans; [exact G | now eexists]. }
    assert (Hr3 : rest_of (send_script (sock h)) sc2)
      by (eapply rest_of_trans; eassumption).
    destruct r2; cbn [snd]; repeat split; assumption.
  - repeat split; assumption.
  - repeat split; assumption.
Qed.


End WithRepr.
End SendSideFacts.

Module RecvFacts.
Import Json JsonDecoder Connection Valid Runs Loop.
Import Aux TextFacts Utf8Facts DumpsFacts CodecFacts RoundTrip SendFacts.
Import StepFacts SendSideFacts.

(** Chunks that arrive in full are gathered one after the other. *)
Lemma recv_header_chunks ks : forall data more got tail,
  length data = list_sum (List.map S ks) ->
  length got + length data <= HEADER_LEN_BYTES ->
  recv_header (List.map RecvData ks ++ tail) (data ++ more) got
  = recv_header tail more (got ++ data).
Proof.
  induction ks as [|k ks IH]; intros data more got tail Hl Hb.
  - destruct data; [|discriminate]. now rewrite app_nil_r.
  - change (list_sum (List.map S (k :: ks)))
      with (S k + list_sum (List.map S ks)) in Hl.
    destruct data as [|x d]; [discriminate|].
    cbn [List.map app recv_header].
    replace (HEADER_LEN_BYTES <=? length got) with false
      by (symmetry; apply Nat.leb_gt; cbn [length] in *; lia).
    cbn [recv1].
    replace (Nat.min (S k) (HEADER_LEN_BYTES - length got)) with (S k)
      by (cbn [length] in *; lia).
    cbn [firstn skipn].
    cbn [length] in Hl, Hb.
    assert (F : firstn k (d ++ more) = firstn k d).
    { rewrite firstn_app. replace (k - length d) with 0 by lia.
      cbn [firstn]. now rewrite app_nil_r. }
    assert (S' : skipn k (d ++ more) = skipn k d ++ more).
    { rewrite skipn_app. replace (k - length d) with 0 by lia.
      reflexivity. }
    rewrite F, S'.
    rewrite (IH (skipn k d) more (got ++ x :: firstn k d) tail).
    + rewrite <- app_assoc. cbn [app]. now rewrite firstn_skipn.
    + rewrite length_skipn. lia.
    + rewrite length_app, length_skipn. cbn [length].
      rewrite length_firstn. lia.
Qed.

Lemma recv_header_full tail more got :
  length got = HEADER_LEN_BYTES ->
  recv_header tail more got = (ReadDone got, tail, more).
Proof.
  intros H. destruct tail; cbn [recv_header]; rewrite H; reflexivity.
Qed.

(** The header handed over in one piece. *)
Lemma recv_header_one_chunk k tail hdr more :
  length hdr = HEADER_LEN_BYTES ->
  HEADER_LEN_BYTES <= S k ->
  recv_header (RecvData k :: tail) (hdr ++ more) []
  = (ReadDone hdr, tail, more).
Proof.
  intros Hl Hk. destruct hdr as [|x hd] eqn:Eh; [discriminate Hl|].
  cbn [recv_header length].
  change (HEADER_LEN_BYTES <=? 0) with false. cbv iota.
  rewrite Nat.sub_0_r. cbn [app recv1].
  replace (Nat.min (S k) HEADER_LEN_BYTES) with (length (x :: hd))
    by (rewrite Hl; lia).
  change (x :: hd ++ more) with ((x :: hd) ++ more).
  rewrite take_app, drop_app. cbn [app].
  now rewrite recv_header_full.
Qed.

(** The header of a stream that is delivered steadily. *)
Lemma recv_header_block h hdr more extra :
  incoming (sock h) = hdr ++ more ->
  length hdr = HEADER_LEN_BYTES ->
  steady (HEADER_LEN_BYTES + extra) (recv_script (sock h)) ->
  exists sc,
    recv_header (recv_script (sock h)) (incoming (sock h)) []
    = (ReadDone hdr, sc, more)
    /\ steady extra sc.
Proof.
  intros Hi Hl Hs.
  destruct (recv_header_steady HEADER_LEN_BYTES (recv_script (sock h))
              (hdr ++ more) []) with (extra := extra)
    as (sc & E & Hs'); try assumption.
  - reflexivity.
  - cbn [length]. lia.
  - rewrite length_app. cbn [length]. lia.
  - exists sc. split; [|exact Hs'].
    rewrite Hi, E. rewrite <- Hl, take_app, drop_app. reflexivity.
Qed.

(** One receive step over the frame of a message, the stream going on. *)
Lemma recv_queue_tick_frame_more fr m frame h more extra :
  wire_message fr m ->
  encode fr m = Some frame ->
  incoming (sock h) = frame ++ more ->
  steady (length frame + extra) (recv_script (sock h)) ->
  exists h',
    recv_queue_tick h = (Return true, h') /\
    inbound_message_queue h' = inbound_message_queue h ++ [m] /\
    incoming (sock h') = more /\
    steady extra (recv_script (sock h')).
Proof.
  intros Hm He Hi Hs.
  destruct (encode_inv fr m frame He) as (hdr & body & Hser & Hpk & ->).
  destruct m as [subj pl]. unfold wire_message in Hm.
  cbn [subject payload] in *.
  destruct subj as [| | | |s| |]; try contradiction.
  destruct pl as [| | | | | |l]; try contradiction.
  destruct Hm as [Hsub Hflat].
  pose proof (pack_header_length fr _ _ _ Hpk) as Hlen.
  pose proof (parse_header_pack fr _ _ _ Hsub Hpk) as Hph.
  pose proof (deserialize_serialize fr (JStr s) l body Hflat Hser) as Hde.
  rewrite length_app, Hlen, <- Nat.add_assoc in Hs.
  rewrite <- app_assoc in Hi.
  destruct (recv_header_block h hdr (body ++ more) (length body + extra)
              Hi Hlen Hs) as (sc1 & E1 & Hs1).
  destruct (recv_body_steady (length body) (length body) sc1 (body ++ more)
              []) with (extra := extra) as (sc2 & E2 & Hs2).
  - cbn [length]. lia.
  - cbn [length]. lia.
  - rewrite length_app. cbn [length]. lia.
  - exact Hs1.
  - rewrite take_app, drop_app in E2. cbn [app] in E2.
    unfold recv_queue_tick. rewrite E1, Hph, E2, Hde.
    eexists. split; [reflexivity|]. cbn. auto.
Qed.

Lemma frames_cons fr m ms bytes :
  frames fr (m :: ms) = Some bytes ->
  exists f fs, encode fr m = Some f /\ frames fr ms = Some fs
               /\ bytes = f ++ fs.
Proof.
  cbn [frames]. destruct (encode fr m) as [f|]; [|discriminate].
  destruct (frames fr ms) as [fs|]; [|discriminate].
  intros H. injection H as <-. eauto.
Qed.

(** As many receive steps as there are frames read the messages in the
    order of the frames. *)
Lemma recv_steps_frames fr ms : forall h bytes more extra,
  Forall (wire_message fr) ms ->
  frames fr ms = Some bytes ->
  incoming (sock h) = bytes ++ more ->
  steady (length bytes + extra) (recv_script (sock h)) ->
  exists h',
    recv_steps (length ms) h = (Return true, h') /\
    inbound_message_queue h' = inbound_message_queue h ++ ms /\
    incoming (sock h') = more /\
    steady extra (recv_script (sock h')).
Proof.
  induction ms as [|m ms IH]; intros h bytes more extra Hw Hf Hi Hs.
  - cbn in Hf. injection Hf as <-. cbn [app length plus] in *.
    exists h. rewrite app_nil_r. auto.
  - inversion Hw as [|? ? Hm Hms]; subst.
    destruct (frames_cons fr m ms bytes Hf) as (f & fs & He & Hfs & ->).
    rewrite <- app_assoc in Hi.
    rewrite length_app, <- Nat.add_assoc in Hs.
    destruct (recv_queue_tick_frame_more fr m f h (fs ++ more)
                (length fs + extra) Hm He Hi Hs)
      as (h1 & E1 & Hin1 & Hinc1 & Hs1).
    destruct (IH h1 fs more extra Hms Hfs Hinc1 Hs1)
      as (h2 & E2 & Hin2 & Hinc2 & Hs2).
    exists h2. cbn [length recv_steps]. rewrite E1, E2.
    split; [reflexivity|]. rewrite Hin2, Hin1, <- app_assoc. auto.
Qed.

End RecvFacts.

Module LoopFacts.
Import Json JsonDecoder Connection Valid Runs Loop.
Import Aux TextFacts Utf8Facts DumpsFacts CodecFacts RoundTrip SendFacts.
Import StepFacts SendSideFacts RecvFacts.

Section WithRepr.
Variable fr : pyfloat -> text.

Lemma main_loop_stopped turns h :
  should_run h = false ->
  main_loop fr turns h = Closed (set_thread_alive h false).
Proof. intros H. destruct turns; cbn [main_loop]; now rewrite H. Qed.

Lemma main_loop_flags turns : forall h,
  match main_loop fr turns h with
  | Closed h' => should_run h' = false /\ thread_alive h' = false
  | Died _ h' => should_run h' = true /\ thread_alive h' = false
  | Turning h' => should_run h' = true /\ thread_alive h' = thread_alive h
  end.
Proof.
  induction turns as [|k IH]; intros h; cbn [main_loop];
    destruct (should_run h) eqn:R; try (split; [exact R | reflexivity]).
  destruct (recv_queue_tick_side h) as [(_ & Hr & Ht & _) _].
  destruct (recv_queue_tick h) as [t h1]. cbn [snd] in *.
  destruct t as [[|]|e].
  - destruct (send_queue_tick_side fr h1) as (_ & Hr2 & Ht2 & _).
    destruct (send_queue_tick fr h1) as [t2 h2]. cbn [snd] in *.
    destruct t2 as [[|]|e].
    + specialize (IH h2). destruct (main_loop fr k h2); try exact IH.
      destruct IH as [I1 I2]. split; [exact I1 | congruence].
    + rewrite main_loop_stopped by reflexivity. split; reflexivity.
    + split; [cbn; congruence | reflexivity].
  - rewrite main_loop_stopped by reflexivity. split; reflexivity.
  - split; [cbn; congruence | reflexivity].
Qed.

Lemma pops_rest_of (q q' : list Message) :
  q' = q \/ q' = tl q -> rest_of q q'.
Proof.
  intros [-> | ->]; [apply rest_of_refl|].
  destruct q; [apply rest_of_refl | apply rest_of_cons].
Qed.

(** What a run of the loop does to the queues and the streams. *)
Lemma main_loop_mono turns : forall h,
  rest_of (outbound_message_queue h)
          (outbound_message_queue (handler_at (main_loop fr turns h)))
  /\ grows (inbound_message_queue h)
           (inbound_message_queue (handler_at (main_loop fr turns h)))
  /\ rest_of (incoming (sock h))
             (incoming (sock (handler_at (main_loop fr turns h))))
  /\ grows (wire (sock h)) (wire (sock (handler_at (main_loop fr turns h)))).
Proof.
  assert (Same : forall h : ConnectionHandler,
    rest_of (outbound_message_queue h) (outbound_message_queue h)
    /\ grows (inbound_message_queue h) (inbound_message_queue h)
    /\ rest_of (incoming (sock h)) (incoming (sock h))
    /\ grows (wire (sock h)) (wire (sock h))).
  { intros h. repeat split; try apply rest_of_refl; apply grows_refl. }
  induction turns as [|k IH]; intros h; cbn [main_loop];
    destruct (should_run h) eqn:R; cbn [handler_at];
    try apply Same; try apply (Same (set_thread_alive h false)).
  destruct (recv_queue_tick_side h)
    as [(Ho & _ & _ & Hw & _ & Hi & _) Hin].
  assert (Gin : grows (inbound_message_queue h)
                      (inbound_message_queue (snd (recv_queue_tick h)))).
  { destruct Hin as [-> | (m & _ & ->)]; [apply grows_refl | now eexists]. }
  destruct (recv_queue_tick h) as [t h1]. cbn [snd] in *.
  assert (Stop : forall x : ConnectionHandler,
    outbound_message_queue (handler_at (main_loop fr k (stop false x)))
    = outbound_message_queue x
    /\ inbound_message_queue (handler_at (main_loop fr k (stop false x)))
       = inbound_message_queue x
    /\ sock (handler_at (main_loop fr k (stop false x))) = sock x).
  { intros x. rewrite main_loop_stopped by reflexivity. cbn. auto. }
  destruct t as [[|]|e]; cbn [handler_at].
  - destruct (send_queue_tick_side fr h1)
      as (Hin2 & _ & _ & Hi2 & _ & Hw2 & _).
    pose proof (send_queue_tick_pops fr h1) as Hp.
    destruct (send_queue_tick fr h1) as [t2 h2]. cbn [snd] in *.
    specialize (Hp t2 h2 eq_refl). apply pops_rest_of in Hp.
    assert (Step : rest_of (outbound_message_queue h)
                           (outbound_message_queue h2)
                   /\ grows (inbound_message_queue h)
                            (inbound_message_queue h2)
                   /\ rest_of (incoming (sock h)) (incoming (sock h2))
                   /\ grows (wire (sock h)) (wire (sock h2))).
    { rewrite Hin2, Hi2, <- Ho. rewrite Hw in Hw2. auto. }
    destruct Step as (S1 & S2 & S3 & S4).
    destruct t2 as [[|]|e]; cbn [handler_at].
    + destruct (IH h2) as (I1 & I2 & I3 & I4).
      repeat split;
        [eapply rest_of_trans | eapply grows_trans
         | eapply rest_of_trans | eapply grows_trans]; eassumption.
    + destruct (Stop h2) as (-> & -> & ->). auto.
    + cbn. auto.
  - destruct (Stop h1) as (-> & -> & ->). rewrite Ho, Hw.
    repeat split; try apply rest_of_refl; try apply grows_refl; assumption.
  - cbn. rewrite Ho, Hw.
    repeat split; try apply rest_of_refl; try apply grows_refl; assumption.
Qed.

End WithRepr.
End LoopFacts.

(* ================================================================== *)
(** * The steps and the loop of a handler: properties *)

Module HandlerProperties.
Import Json JsonDecoder Connection Valid Runs Examples Loop StepExamples.
Import Aux TextFacts Utf8Facts EscapeFacts NumberFacts DumpsFacts CodecFacts.
Import RoundTrip SendFacts StepFacts SendSideFacts RecvFacts LoopFacts.

(** X1.  Whatever the peer and the socket do, a run of the loop of a
    handler only takes messages from the head of the outbound queue (it
    neither adds nor reorders), only adds messages at the tail of the
    inbound queue, only consumes the incoming stream from its front and
    only appends to what is on the wire. *)
Theorem loop_only_consumes_and_appends fr turns h :
  rest_of (outbound_message_queue h)
          (outbound_message_queue (handler_at (main_loop fr turns h)))
  /\ grows (inbound_message_queue h)
           (inbound_message_queue (handler_at (main_loop fr turns h)))
  /\ rest_of (incoming (sock h))
             (incoming (sock (handler_at (main_loop fr turns h))))
  /\ grows (wire (sock h)) (wire (sock (handler_at (main_loop fr turns h)))).
Proof. apply main_loop_mono. Qed.

(** X2.  How the loop ends decides whether the handler can be given a new
    socket.  After a regular end (the loop saw [should_run] cleared and
    closed the socket) the [sock] setter accepts.  After an exception has
    ended the thread, [should_run] is still set, so the setter refuses
    with [AttributeError] although no thread is alive; only a call of
    [stop] makes the handler usable again.  While the loop turns the
    setter refuses as well. *)
Theorem loop_end_and_reopening fr turns h s :
  match main_loop fr turns h with
  | Closed h' =>
      running h' = false
      /\ set_sock h' s = inl (set_sock_field h' s)
  | Died _ h' =>
      running h' = false
      /\ set_sock h' s = inr AttributeError
      /\ set_sock (stop true h') s = inl (set_sock_field (stop true h') s)
  | Turning h' => set_sock h' s = inr AttributeError
  end.
Proof.
  pose proof (main_loop_flags fr turns h) as H.
  destruct (main_loop fr turns h) as [h'|e h'|h']; destruct H as [H1 H2];
    unfold set_sock, running; cbn [stop should_run set_should_run
                                   set_thread_alive thread_alive].
  - rewrite H1, H2. auto.
  - rewrite H1, H2. auto.
  - now rewrite H1.
Qed.

(** X3.  When the peer closes the connection, the loop stops the handler
    and ends with the socket closed; the messages that were waiting in
    both queues are kept. *)
Theorem peer_close_stops_loop fr turns h rest :
  should_run h = true ->
  recv_script (sock h) = RecvClosed :: rest ->
  exists h',
    main_loop fr (S turns) h = Closed h'
    /\ should_run h' = false
    /\ outbound_message_queue h' = outbound_message_queue h
    /\ inbound_message_queue h' = inbound_message_queue h
    /\ incoming (sock h') = incoming (sock h)
    /\ wire (sock h') = wire (sock h).
Proof.
  intros R Hs. cbn [main_loop]. rewrite R.
  unfold recv_queue_tick. rewrite Hs.
  cbn [recv_header]. cbn [Nat.leb HEADER_LEN_BYTES length recv1].
  rewrite main_loop_stopped by reflexivity.
  eexists. split; [reflexivity|]. cbn. auto.
Qed.

Lemma peer_close_stops_loop_witness :
  exists h',
    main_loop no_floats 1 (send (listening [] [RecvClosed]) m1) = Closed h'
    /\ should_run h' = false
    /\ outbound_message_queue h' = [m1].
Proof.
  destruct (peer_close_stops_loop no_floats 0
              (send (listening [] [RecvClosed]) m1) [])
    as (h' & E & H1 & H2 & _); [reflexivity | reflexivity |].
  exists h'. auto.
Defined.

(** X4.  A timeout while the header is being gathered ends the step
    quietly: it returns [True] and queues nothing, but the bytes of the
    header that had arrived are gone from the stream, so the next step
    starts in the middle of the frame. *)
Theorem header_timeout_loses_bytes h ks data more rest :
  incoming (sock h) = data ++ more ->
  length data = list_sum (List.map S ks) ->
  length data < HEADER_LEN_BYTES ->
  recv_script (sock h) = List.map RecvData ks ++ RecvTimeout :: rest ->
  exists h',
    recv_queue_tick h = (Return true, h')
    /\ inbound_message_queue h' = inbound_message_queue h
    /\ incoming (sock h') = more
    /\ recv_script (sock h') = rest.
Proof.
  intros Hi Hl Hb Hs. unfold recv_queue_tick. rewrite Hi, Hs.
  rewrite recv_header_chunks by (cbn [length]; lia).
  cbn [app recv_header].
  replace (HEADER_LEN_BYTES <=? length data) with false
    by (symmetry; apply Nat.leb_gt; lia).
  cbn [recv1]. eexists. split; [reflexivity|]. cbn. auto.
Qed.

Lemma header_timeout_loses_bytes_witness :
  exists h',
    recv_queue_tick
      (listening hello_frame [RecvData 9; RecvData 19; RecvTimeout])
    = (Return true, h')
    /\ inbound_message_queue h' = []
    /\ incoming (sock h') = skipn 30 hello_frame.
Proof.
  destruct (header_timeout_loses_bytes
              (listening hello_frame [RecvData 9; RecvData 19; RecvTimeout])
              [9; 19] (firstn 30 hello_frame) (skipn 30 hello_frame) [])
    as (h' & E & H1 & H2 & _).
  - vm_compute. reflexivity.
  - vm_compute. reflexivity.
  - vm_compute. lia.
  - reflexivity.
  - exists h'. auto.
Defined.

(** X5.  A timeout while the body is being read is not caught: once the
    header has said that a body follows, a silent socket makes the step
    raise [socket.timeout].  The exception ends the loop thread, with
    [should_run] still set. *)
Theorem body_timeout_ends_thread fr turns h hdr more n subj k rest :
  incoming (sock h) = hdr ++ more ->
  length hdr = HEADER_LEN_BYTES ->
  parse_header hdr = HeaderOk (JInt (Zpos n)) subj ->
  HEADER_LEN_BYTES <= S k ->
  recv_script (sock h) = RecvData k :: RecvTimeout :: rest ->
  exists h',
    recv_queue_tick h = (Raise SocketTimeout, h')
    /\ inbound_message_queue h' = inbound_message_queue h
    /\ incoming (sock h') = more
    /\ should_run h' = should_run h
    /\ (should_run h = true ->
        main_loop fr (S turns) h
        = Died SocketTimeout (set_thread_alive h' false)).
Proof.
  intros Hi Hl Hp Hk Hs.
  assert (E : recv_queue_tick h
              = (Raise SocketTimeout, after_recv h rest more)).
  { unfold recv_queue_tick. rewrite Hi, Hs.
    rewrite recv_header_one_chunk by assumption.
    rewrite Hp. cbn [recv_body body_want length].
    unfold want_int. cbn [Z.of_nat Z.ltb Z.compare recv1]. reflexivity. }
  eexists. split; [exact E|]. repeat split.
  intros R. cbn [main_loop]. rewrite R, E. reflexivity.
Qed.

Lemma body_timeout_ends_thread_witness :
  exists h',
    main_loop no_floats 1
      (listening plain_block [RecvData 63; RecvTimeout])
    = Died SocketTimeout h'
    /\ should_run h' = true.
Proof.
  destruct (body_timeout_ends_thread no_floats 0
              (listening plain_block [RecvData 63; RecvTimeout])
              plain_block [] 2 (JStr (of_string "s")) 63 [])
    as (h' & _ & _ & _ & R & H).
  - reflexivity.
  - reflexivity.
  - vm_compute. reflexivity.
  - unfold HEADER_LEN_BYTES. lia.
  - reflexivity.
  - eexists. split; [apply H; reflexivity | exact R].
Defined.

(** X6.  A header whose ['length'] is no number (a string, [null], a list
    or a mapping) is accepted by the header check, but the body loop
    cannot compare it with a byte count: the step raises [TypeError]
    after the header has been consumed. *)
Theorem bad_length_raises h hdr more msglen subj :
  incoming (sock h) = hdr ++ more ->
  length hdr = HEADER_LEN_BYTES ->
  steady HEADER_LEN_BYTES (recv_script (sock h)) ->
  parse_header hdr = HeaderOk msglen subj ->
  match msglen with
  | JInt _ | JBool _ | JFloat _ => False
  | _ => True
  end ->
  exists h',
    recv_queue_tick h = (Raise TypeError, h')
    /\ inbound_message_queue h' = inbound_message_queue h
    /\ incoming (sock h') = more.
Proof.
  intros Hi Hl Hs Hp Hm.
  rewrite <- (Nat.add_0_r HEADER_LEN_BYTES) in Hs.
  destruct (recv_header_block h hdr more 0 Hi Hl Hs) as (sc & E & _).
  unfold recv_queue_tick. rewrite E, Hp.
  assert (W : body_want msglen (length (@nil byte)) = WantTypeError)
    by (destruct msglen; try contradiction; reflexivity).
  destruct sc; cbn [recv_body]; rewrite W;
    (eexists; split; [reflexivity|]; cbn; auto).
Qed.

Lemma bad_length_raises_witness :
  exists h',
    recv_queue_tick (listening string_length_block (repeat (RecvData 7) 64))
    = (Raise TypeError, h')
    /\ inbound_message_queue h' = []
    /\ incoming (sock h') = [].
Proof.
  apply (bad_length_raises
           (listening string_length_block (repeat (RecvData 7) 64))
           string_length_block [] (JStr (of_string "5"))
           (JStr (of_string "s"))).
  - reflexivity.
  - reflexivity.
  - vm_compute. exact I.
  - vm_compute. reflexivity.
  - exact I.
Defined.

(** X7.  A block of 64 bytes that is no valid header (but valid UTF-8) is
    dropped: the step returns [True], queues nothing and has consumed
    exactly the 64 bytes; what follows in the stream is taken as the next
    header. *)
Theorem malformed_header_skipped h hdr more :
  incoming (sock h) = hdr ++ more ->
  length hdr = HEADER_LEN_BYTES ->
  steady HEADER_LEN_BYTES (recv_script (sock h)) ->
  parse_header hdr = HeaderMalformed ->
  exists h',
    recv_queue_tick h = (Return true, h')
    /\ inbound_message_queue h' = inbound_message_queue h
    /\ incoming (sock h') = more.
Proof.
  intros Hi Hl Hs Hp.
  rewrite <- (Nat.add_0_r HEADER_LEN_BYTES) in Hs.
  destruct (recv_header_block h hdr more 0 Hi Hl Hs) as (sc & E & _).
  unfold recv_queue_tick. rewrite E, Hp.
  eexists. split; [reflexivity|]. cbn. auto.
Qed.

Lemma malformed_header_skipped_witness :
  exists h',
    recv_queue_tick
      (listening (noise_block ++ hello_frame) (repeat (RecvData 15) 64))
    = (Return true, h')
    /\ inbound_message_queue h' = []
    /\ incoming (sock h') = hello_frame.
Proof.
  apply (malformed_header_skipped
           (listening (noise_block ++ hello_frame) (repeat (RecvData 15) 64))
           noise_block hello_frame).
  - reflexivity.
  - reflexivity.
  - vm_compute. exact I.
  - vm_compute. reflexivity.
Defined.

End HandlerProperties.

Module WireProperties.
Import Json JsonDecoder Connection Valid Runs Examples Loop StepExamples.
Import Aux TextFacts Utf8Facts EscapeFacts NumberFacts DumpsFacts CodecFacts.
Import RoundTrip SendFacts StepFacts SendSideFacts RecvFacts LoopFacts.



Lemma escape_plain c : plain c -> escape_char c = [c].
Proof.
  intros (Hr & Hq & Hb). unfold escape_char.
  repeat (match goal with
          | |- context [(c =? ?k)%N] =>
              replace (c =? k)%N with false
                by (symmetry; apply N.eqb_neq; lia)
          end).
  replace ((32 <=? c) && (c <=? 126))%N with true; [reflexivity|].
  symmetry. apply andb_true_iff. split; apply N.leb_le; lia.
Qed.

Lemma escaped_plain s : Forall plain s -> escaped s = s.
Proof.
  induction 1 as [|c s Hc _ IH]; [reflexivity|].
  unfold escaped in *. cbn [flat_map]. now rewrite escape_plain, IH.
Qed.

Section WithRepr.
Variable fr : pyfloat -> text.

Lemma header_json_length len s :
  length (header_json fr len (JStr s))
  = 27 + length (int_repr (Z.of_nat len)) + length (escaped s).
Proof.
  unfold header_json. cbn [dumps].
  set (kl := encode_basestring_ascii (of_string "length")).
  set (ks := encode_basestring_ascii (of_string "subject")).
  set (sep1 := key_separator). set (sep2 := item_separator).
  vm_compute in kl, ks, sep1, sep2. subst kl ks sep1 sep2.
  unfold encode_basestring_ascii. fold (escaped s).
  cbn [app length]. repeat (rewrite length_app; cbn [length]). lia.
Qed.

Lemma header_json_printable len s :
  Forall printable (header_json fr len (JStr s)).
Proof.
  unfold header_json. cbn [dumps].
  assert (Hsep : Forall printable key_separator
                 /\ Forall printable item_separator).
  { split; cbv; repeat constructor; discriminate. }
  destruct Hsep as [Hk Hi].
  constructor; [unfold printable; lia|].
  repeat (apply Forall_app; split);
    auto using basestring_printable, int_repr_printable.
  repeat constructor; unfold printable; lia.
Qed.

(** The header is refused exactly when its text is longer than 64. *)
Lemma pack_header_fits len s :
  pack_header fr len (JStr s)
  = if HEADER_LEN_BYTES <? length (header_json fr len (JStr s))
    then inr OverflowError
    else inl (ljust HEADER_LEN_BYTES x00
                (ascii_bytes (header_json fr len (JStr s)))).
Proof.
  unfold pack_header.
  rewrite encode_ascii
    by (apply printable_ascii, header_json_printable).
  now rewrite ascii_bytes_length.
Qed.

Lemma escape_char_cost c :
  length (escape_char c) = 1 \/ length (escape_char c) = 2
  \/ length (escape_char c) = 6 \/ length (escape_char c) = 12.
Proof.
  unfold escape_char, u_escape, hex4.
  repeat (match goal with
          | |- context [if ?b then _ else _] => destruct b
          end); cbn [length app]; auto.
Qed.

(** X9.  The room for the subject.  The header text has 27 characters
    of its own, the decimal digits of the body length and the escaped
    subject, in which a plain ASCII character takes 1 place, a quote, a
    backslash or one of the short escapes 2, any other character of the
    BMP 6 and a character above it 12.  The header is accepted exactly
    when this is at most 64; so a plain ASCII subject goes through iff
    its length plus the number of digits of the body length is at most
    37. *)
Theorem header_capacity len s :
  ((exists hdr, pack_header fr len (JStr s) = inl hdr)
   <-> 27 + length (int_repr (Z.of_nat len)) + length (escaped s)
       <= HEADER_LEN_BYTES)
  /\ (pack_header fr len (JStr s) = inr OverflowError
      <-> HEADER_LEN_BYTES
          < 27 + length (int_repr (Z.of_nat len)) + length (escaped s))
  /\ (forall c,
        length (escape_char c) = 1 \/ length (escape_char c) = 2
        \/ length (escape_char c) = 6 \/ length (escape_char c) = 12)
  /\ (Forall plain s ->
      ((exists hdr, pack_header fr len (JStr s) = inl hdr)
       <-> length s + length (int_repr (Z.of_nat len)) <= 37)).
Proof.
  assert (A : (exists hdr, pack_header fr len (JStr s) = inl hdr)
              <-> 27 + length (int_repr (Z.of_nat len)) + length (escaped s)
                  <= HEADER_LEN_BYTES).
  { rewrite pack_header_fits, header_json_length.
    destruct (HEADER_LEN_BYTES <? _) eqn:E;
      [apply Nat.ltb_lt in E | apply Nat.ltb_ge in E].
    - split; [intros [hdr H]; discriminate H | lia].
    - split; [intros _; exact E | eauto]. }
  split; [exact A|]. split; [|split; [apply escape_char_cost|]].
  - rewrite pack_header_fits, header_json_length.
    destruct (HEADER_LEN_BYTES <? _) eqn:E;
      [apply Nat.ltb_lt in E | apply Nat.ltb_ge in E].
    + tauto.
    + split; [discriminate | lia].
  - intros Hp. rewrite A, (escaped_plain s Hp).
    unfold HEADER_LEN_BYTES. lia.
Qed.

Lemma fold_send_queue ms : forall h,
  outbound_message_queue (fold_left send ms h)
  = outbound_message_queue h ++ ms
  /\ sock (fold_left send ms h) = sock h.
Proof.
  induction ms as [|m ms IH]; intros h; cbn [fold_left].
  - now rewrite app_nil_r.
  - destruct (IH (send h m)) as [E1 E2]. rewrite E1, E2.
    unfold send. cbn. now rewrite <- app_assoc.
Qed.

(** X10.  First in, first out, from one end of a connection to the
    other.  Messages queued with [send] in some order, written by the send
    steps of one handler and read from that stream by the receive steps of
    the handler at the other end, arrive on its inbound queue as the same
    messages in the same order, however the stream is cut into pieces on
    the way. *)
Theorem fifo_end_to_end ms bytes writer reader script :
  Forall (wire_message fr) ms ->
  frames fr ms = Some bytes ->
  outbound_message_queue writer = [] ->
  wire (sock writer) = [] ->
  accepting (length bytes) (send_script (sock writer)) ->
  incoming (sock reader) = [] ->
  steady (length bytes) script ->
  exists writer' reader',
    send_steps fr (length ms) (fold_left send ms writer)
    = (Return true, writer')
    /\ wire (sock writer') = bytes
    /\ recv_steps (length ms) (plug writer' reader script)
       = (Return true, reader')
    /\ inbound_message_queue reader' = inbound_message_queue reader ++ ms
    /\ incoming (sock reader') = [].
Proof.
  intros Hw Hf Hq Hwire Ha Hi Hs.
  destruct (fold_send_queue ms writer) as [E1 E2].
  rewrite Hq in E1. cbn [app] in E1.
  rewrite <- (Nat.add_0_r (length bytes)), <- E2 in Ha.
  destruct (send_steps_frames fr ms (fold_left send ms writer) bytes 0
              E1 Hf Ha) as (w' & Es & _ & Hw' & _).
  rewrite E2, Hwire in Hw'. cbn [app] in Hw'.
  destruct (recv_steps_frames fr ms (plug w' reader script) bytes [] 0 Hw Hf)
    as (r' & Er & Hin & Hinc & _).
  - cbn. rewrite Hi, Hw'. cbn [app]. now rewrite app_nil_r.
  - cbn. now rewrite Nat.add_0_r.
  - exists w', r'. auto.
Qed.

End WithRepr.

Lemma header_capacity_witness :
  (exists hdr, pack_header no_floats 2 (JStr subject36) = inl hdr)
  /\ ~ (exists hdr, pack_header no_floats 2 (JStr subject37) = inl hdr).
Proof.
  assert (P : forall n, Forall plain (repeat 97%N n)).
  { intros n. apply Forall_forall. intros x Hx.
    apply repeat_spec in Hx. subst. unfold plain. lia. }
  split.
  - apply (proj2 (proj2 (proj2 (header_capacity no_floats 2 subject36)))
             (P 36)).
    vm_compute. lia.
  - intros H.
    apply (proj2 (proj2 (proj2 (header_capacity no_floats 2 subject37)))
             (P 37)) in H.
    vm_compute in H. lia.
Defined.

Lemma small_messages_wire : Forall (wire_message no_floats) [m1; m2; m3].
Proof.
  repeat constructor; try (now apply wf_string_literal);
    try (intros []); try exact I;
    cbn [In fst snd List.map]; try tauto.
Qed.

Lemma fifo_end_to_end_witness :
  exists writer' reader',
    send_steps no_floats 3 (send (send (send writer m1) m2) m3)
    = (Return true, writer')
    /\ recv_steps 3
         (plug writer' (ConnectionHandler_init (quiet_socket 3))
               (repeat (RecvData 9) (length three_frames)))
       = (Return true, reader')
    /\ inbound_message_queue reader' = [m1; m2; m3].
Proof.
  destruct (fifo_end_to_end no_floats [m1; m2; m3] three_frames writer
              (ConnectionHandler_init (quiet_socket 3))
              (repeat (RecvData 9) (length three_frames))
              small_messages_wire)
    as (w' & r' & E1 & _ & E2 & H & _).
  - vm_compute. reflexivity.
  - reflexivity.
  - reflexivity.
  - vm_compute. exact I.
  - reflexivity.
  - vm_compute. exact I.
  - exists w', r'. auto.
Defined.
End WireProperties.

(* ================================================================== *)
(** * Facts about the directory and the handler store *)

Module DirectoryFacts.
Import Json Connection Py Server ServerInv ServerOps.

Lemma SFeqb_refl_finite s m e :
  SFeqb (S754_finite s m e) (S754_finite s m e) = true.
Proof.
  unfold SFeqb, SFcompare. destruct s; rewrite Z.compare_refl;
    try rewrite Pos.compare_cont_refl; try rewrite Pos.compare_refl;
    reflexivity.
Qed.

Lemma key_eq_refl k : hashable k = true -> key_eq k k = true.
Proof.
  destruct k as [|b|z|f|s|l|l]; cbn; intros H; try discriminate; auto.
  - destruct b; reflexivity.
  - apply Z.eqb_refl.
  - destruct f as [[]|[]| |]; try reflexivity.
    apply SFeqb_refl_finite.
  - apply TextFacts.text_eqb_refl.
Qed.

Lemma dir_find_none k d :
  dir_find k d = None -> Forall (fun kr => key_eq (fst kr) k = false) d.
Proof.
  induction d as [|[k' r'] d IH]; cbn [dir_find]; [constructor|].
  destruct (key_eq k' k) eqn:E; [discriminate|].
  intros H. constructor; [exact E | auto].
Qed.

Lemma distinct_keys_snoc d k r :
  distinct_keys d -> dir_find k d = None -> distinct_keys (d ++ [(k, r)]).
Proof.
  induction d as [|[k' r'] d IH]; cbn [distinct_keys dir_find app].
  - intros _ _. split; [constructor | exact I].
  - intros [Hk Hd]. destruct (key_eq k' k) eqn:E; [discriminate|].
    intros Hn. split; [|auto].
    apply Forall_app. split; [exact Hk|]. constructor; [exact E | constructor].
Qed.

Lemma dir_find_in k d r : dir_find k d = Some r -> In r (List.map snd d).
Proof.
  induction d as [|[k' r'] d IH]; cbn; [discriminate|].
  destruct (key_eq k' k); [intros H; injection H as ->; now left | auto].
Qed.

Lemma dir_find_snoc k d r :
  hashable k = true -> dir_find k d = None ->
  dir_find k (d ++ [(k, r)]) = Some r.
Proof.
  intros Hh. induction d as [|[k' r'] d IH]; cbn.
  - now rewrite key_eq_refl.
  - destruct (key_eq k' k); [discriminate | exact IH].
Qed.

Lemma well_formed_mono n m (d : list (json * nat)) :
  n <= m -> Forall (fun kr => snd kr < n) d -> Forall (fun kr => snd kr < m) d.
Proof.
  intros Hle H. eapply Forall_impl; [|exact H]. cbn. intros a Ha. lia.
Qed.

Lemma refs_below n (d : list (json * nat)) :
  Forall (fun kr => snd kr < n) d -> ~ In n (List.map snd d).
Proof.
  intros H Hin. apply in_map_iff in Hin as [kr [E Hin]].
  rewrite Forall_forall in H. specialize (H kr Hin). lia.
Qed.

Lemma NoDup_snoc {A} (l : list A) x : NoDup l -> ~ In x l -> NoDup (l ++ [x]).
Proof.
  intros Hl Hx. apply NoDup_app; [exact Hl | repeat constructor; intros [] | ].
  intros a Ha [<-|[]]. exact (Hx Ha).
Qed.

Lemma nth_error_app_old {A} (l : list A) x i :
  i < length l -> nth_error (l ++ [x]) i = nth_error l i.
Proof. intros H. now apply nth_error_app1. Qed.

(** *** A call on the handler behind a reference *)

Lemma on_handler_length f objs r :
  length (on_handler f objs r) = length objs.
Proof.
  unfold on_handler. destruct (nth_error objs r); [|reflexivity].
  apply ServerFacts.update_length.
Qed.

Lemma on_handler_other f objs r i :
  i <> r -> nth_error (on_handler f objs r) i = nth_error objs i.
Proof.
  intros H. unfold on_handler. destruct (nth_error objs r); [|reflexivity].
  apply ServerFacts.nth_error_update_neq. congruence.
Qed.

Lemma on_handler_same f objs r c :
  nth_error objs r = Some c ->
  nth_error (on_handler f objs r) r = Some (with_base c (f (base c))).
Proof.
  intros H. unfold on_handler. rewrite H.
  apply ServerFacts.nth_error_update_eq.
  apply nth_error_Some. congruence.
Qed.

Lemma each_length f (d : list (json * nat)) objs :
  length (fold_left (fun o kr => on_handler f o (snd kr)) d objs)
  = length objs.
Proof.
  revert objs. induction d as [|[k r] d IH]; intros objs; cbn;
    [reflexivity|].
  rewrite IH. apply on_handler_length.
Qed.

Lemma each_other f (d : list (json * nat)) objs i :
  ~ In i (List.map snd d) ->
  nth_error (fold_left (fun o kr => on_handler f o (snd kr)) d objs) i
  = nth_error objs i.
Proof.
  revert objs. induction d as [|[k r] d IH]; intros objs Hi; cbn;
    [reflexivity|].
  cbn in Hi. rewrite IH by tauto. apply on_handler_other. intros ->. tauto.
Qed.

Lemma each_once f (d : list (json * nat)) objs i c :
  NoDup (List.map snd d) -> In i (List.map snd d) ->
  nth_error objs i = Some c ->
  nth_error (fold_left (fun o kr => on_handler f o (snd kr)) d objs) i
  = Some (with_base c (f (base c))).
Proof.
  revert objs. induction d as [|[k r] d IH]; intros objs Hn Hi Hc;
    cbn in *; [contradiction|].
  inversion Hn as [|? ? Hr Hd]; subst.
  destruct (Nat.eq_dec r i) as [->|Hne].
  - rewrite each_other by exact Hr. now apply on_handler_same.
  - destruct Hi as [Hi|Hi]; [contradiction|].
    apply IH; auto. rewrite on_handler_other by congruence. exact Hc.
Qed.

Lemma tidy_objects srv objs :
  tidy srv -> length (objects srv) <= length objs ->
  tidy (with_objects srv objs).
Proof.
  intros [[Hw Hd] Hn] Hl. repeat split; cbn; auto.
  unfold well_formed in *. cbn. eapply well_formed_mono; eauto.
Qed.

Lemma for_each_conn_tidy f srv : tidy srv -> tidy (for_each_conn f srv).
Proof.
  intros H. unfold for_each_conn. apply tidy_objects; [exact H|].
  rewrite each_length. lia.
Qed.

(** *** Stopping the handlers *)

Lemma shut_handler_fields s r :
  conns (shut_handler s r) = conns s
  /\ interface (shut_handler s r) = interface s
  /\ port (shut_handler s r) = port s
  /\ Server.should_run (shut_handler s r) = Server.should_run s
  /\ objects (shut_handler s r)
     = on_handler (fun c => Connection.stop true
                              (Connection.send c shutdown_message))
                  (objects s) r
  /\ (forall x, In x (closed s) -> In x (closed (shut_handler s r)))
  /\ (forall c, nth_error (objects s) r = Some c ->
                running (base c) = true ->
                In (fd (sock (base c))) (closed (shut_handler s r))).
Proof.
  unfold shut_handler, on_handler.
  destruct (nth_error (objects s) r) as [c|] eqn:E; cbn.
  - repeat split; auto.
    + intros x Hx. destruct (running (base c)); [now right | exact Hx].
    + intros c' Hc Hr. injection Hc as <-. rewrite Hr. now left.
  - repeat split; auto. discriminate.
Qed.

Lemma shut_all_fields d : forall s,
  conns (shut_each d s) = conns s
  /\ interface (shut_each d s)
     = interface s
  /\ port (shut_each d s) = port s
  /\ Server.should_run (shut_each d s)
     = Server.should_run s
  /\ objects (shut_each d s)
     = fold_left
         (fun o kr =>
            on_handler (fun c => Connection.stop true
                                   (Connection.send c shutdown_message))
                       o (snd kr))
         d (objects s)
  /\ (forall x, In x (closed s) ->
                In x (closed (shut_each d s))).
Proof.
  induction d as [|[k r] d IH]; intros s.
  - repeat split; auto.
  - change (shut_each ((k, r) :: d) s) with (shut_each d (shut_handler s r)).
    cbn [fold_left snd].
    destruct (shut_handler_fields s r) as (F1 & F2 & F3 & F4 & F5 & F6 & _).
    destruct (IH (shut_handler s r)) as (G1 & G2 & G3 & G4 & G5 & G6).
    rewrite G1, G2, G3, G4, G5, F1, F2, F3, F4, F5.
    repeat split; auto.
Qed.


Lemma handler_of_bound srv k c :
  handler_for srv k = Some c ->
  exists r, dir_find k (conns srv) = Some r
            /\ nth_error (objects srv) r = Some c.
Proof.
  unfold handler_for. destruct (dir_find k (conns srv)); [|discriminate].
  eauto.
Qed.

End DirectoryFacts.

(* ================================================================== *)
(** * Facts about the operations of the server *)

Module ServerOpsFacts.
Import Json Connection Py Server ServerInv ServerOps DirectoryFacts.

(** What a negotiation does to the directory and to the store. *)
Lemma negotiate_shape srv client_sock client_addr arrived :
  let id := client_id (ClientHandler_init client_sock client_addr arrived) in
  let srv' := server_of (negotiate_client_id srv client_sock client_addr
                                             arrived) in
  (conns srv' = conns srv
   \/ (conns srv' = conns srv ++ [(id, length (objects srv))]
       /\ dir_find id (conns srv) = None
       /\ hashable id = true /\ is_None id = false
       /\ nth_error (objects srv') (length (objects srv))
          = Some (ClientHandler_init client_sock client_addr arrived)))
  /\ length (objects srv') = S (length (objects srv))
  /\ interface srv' = interface srv /\ port srv' = port srv
  /\ Server.should_run srv' = Server.should_run srv
  /\ (forall i, i < length (objects srv) ->
                dir_find id (conns srv) <> Some i ->
                nth_error (objects srv') i = nth_error (objects srv) i).
Proof.
  intros id srv'. subst srv'. unfold negotiate_client_id.
  fold id.
  set (client := ClientHandler_init client_sock client_addr arrived).
  assert (Hlen : length (objects srv ++ [client]) = S (length (objects srv)))
    by (rewrite length_app; cbn; lia).
  assert (Hold : forall i x, i < length (objects srv) ->
            nth_error (update (objects srv ++ [client])
                              (length (objects srv)) x) i
            = nth_error (objects srv) i).
  { intros i x Hi. rewrite ServerFacts.nth_error_update_neq by lia.
    now apply nth_error_app_old. }
  destruct (is_None id) eqn:Enone.
  { cbn. rewrite ServerFacts.update_length.
    repeat split; auto. }
  destruct (hashable id) eqn:Eh; cbn [negb].
  2:{ cbn. repeat split; auto. intros i Hi _. now apply nth_error_app_old. }
  cbn [conns with_objects].
  destruct (dir_find id (conns srv)) as [e|] eqn:Ef.
  - cbn [objects with_objects].
    destruct (nth_error _ e) as [existing|] eqn:Ee.
    + destruct (reopen_with existing client_sock client_addr)
        as [existing' err] eqn:Er.
      destruct err; cbn; rewrite !ServerFacts.update_length;
        (split; [left; reflexivity|]); repeat split; auto;
        intros i Hi Hne;
        rewrite ServerFacts.nth_error_update_neq by congruence;
        now apply Hold.
    + cbn. rewrite ServerFacts.update_length. repeat split; auto.
  - cbn. rewrite (ServerFacts.dir_set_absent _ _ _ Ef).
    repeat split; auto.
    + right. repeat split; auto. apply ServerFacts.nth_error_snoc.
    + intros i Hi _. now apply nth_error_app_old.
Qed.

Lemma negotiate_tidy srv client_sock client_addr arrived :
  tidy srv ->
  tidy (server_of (negotiate_client_id srv client_sock client_addr arrived)).
Proof.
  intros [[Hw Hd] Hn].
  destruct (negotiate_shape srv client_sock client_addr arrived)
    as (Hc & Hl & _).
  unfold tidy, consistent, well_formed in *.
  destruct Hc as [Hc|(Hc & Hf & _)]; rewrite Hc, Hl.
  - repeat split; auto. eapply well_formed_mono; [|exact Hw]. lia.
  - repeat split.
    + apply Forall_app. split.
      * eapply well_formed_mono; [|exact Hw]. lia.
      * repeat constructor.
    + now apply distinct_keys_snoc.
    + rewrite map_app. cbn. apply NoDup_snoc; [exact Hn|].
      now apply refs_below.
Qed.

Lemma negotiate_keeps_entries srv client_sock client_addr arrived k r :
  dir_find k (conns srv) = Some r ->
  dir_find k (conns (server_of (negotiate_client_id srv client_sock
                                                    client_addr arrived)))
  = Some r.
Proof.
  intros H.
  destruct (negotiate_shape srv client_sock client_addr arrived)
    as ([Hc|(Hc & _)] & _); rewrite Hc; auto.
  now apply ServerFacts.dir_find_app_l.
Qed.

(** [send] to one client *)
Lemma send_one srv to msg :
  well_formed srv -> eq_str to (of_string "*") = false ->
  hashable to = true ->
  match dir_find to (conns srv) with
  | None => send srv to msg = (inl false, srv)
  | Some r =>
      exists c, nth_error (objects srv) r = Some c
        /\ send srv to msg
           = (inl true,
              with_objects srv
                (update (objects srv) r
                        (with_base c (Connection.send (base c) msg))))
  end.
Proof.
  intros Hw Hs Hh. unfold send. rewrite Hs, Hh. cbn [negb].
  destruct (dir_find to (conns srv)) as [r|] eqn:Ef; [|reflexivity].
  pose proof (ServerFacts.dir_find_bound _ _ _ _ Hw Ef) as Hr.
  destruct (nth_error (objects srv) r) as [c|] eqn:Ec.
  - exists c. split; [reflexivity|]. unfold on_handler. now rewrite Ec.
  - apply nth_error_None in Ec. lia.
Qed.

Lemma send_tidy srv to msg : tidy srv -> tidy (snd (send srv to msg)).
Proof.
  intros H. unfold send.
  destruct (eq_str to (of_string "*")); cbn [snd].
  - now apply for_each_conn_tidy.
  - destruct (negb (hashable to)); [exact H|].
    destruct (dir_find to (conns srv)); [|exact H].
    destruct (nth_error (objects srv) n); [|exact H].
    cbn [snd]. apply tidy_objects; [exact H|].
    rewrite on_handler_length. lia.
Qed.

Lemma send_settings srv to msg :
  conns (snd (send srv to msg)) = conns srv
  /\ interface (snd (send srv to msg)) = interface srv
  /\ port (snd (send srv to msg)) = port srv
  /\ Server.should_run (snd (send srv to msg)) = Server.should_run srv.
Proof.
  unfold send.
  destruct (eq_str to (of_string "*")); [cbn; auto|].
  destruct (negb (hashable to)); [cbn; auto|].
  destruct (dir_find to (conns srv)); [|cbn; auto].
  destruct (nth_error (objects srv) n); cbn; auto.
Qed.

(** [__set_should_run] *)
Lemma set_should_run_fields hst v :
  Server.should_run (server (set_should_run hst v)) = v
  /\ conns (server (set_should_run hst v)) = conns (server hst)
  /\ objects (server (set_should_run hst v)) = objects (server hst)
  /\ interface (server (set_should_run hst v)) = interface (server hst)
  /\ port (server (set_should_run hst v)) = port (server hst)
  /\ accept_thread (set_should_run hst v) = accept_thread hst
  /\ accept_socket (set_should_run hst v) = accept_socket hst
  /\ status_callbacks (set_should_run hst v) = status_callbacks hst.
Proof.
  unfold set_should_run.
  destruct (Bool.eqb (Server.should_run (server hst)) v) eqn:E; cbn.
  - apply Bool.eqb_prop in E. auto 10.
  - auto 10.
Qed.

Lemma set_should_run_calls hst v :
  status_calls (set_should_run hst v)
  = status_calls hst
    ++ (if Bool.eqb (Server.should_run (server hst)) v then []
        else List.map (fun i => (i, negb v, v))
                      (seq 0 (status_callbacks hst))).
Proof.
  unfold set_should_run.
  destruct (Bool.eqb (Server.should_run (server hst)) v); cbn;
    [now rewrite app_nil_r | reflexivity].
Qed.

Lemma set_should_run_calls_ok hst v :
  Forall (call_ok (status_callbacks hst)) (status_calls hst) ->
  Forall (call_ok (status_callbacks hst))
         (status_calls (set_should_run hst v)).
Proof.
  intros H. rewrite set_should_run_calls. apply Forall_app. split; [exact H|].
  destruct (Bool.eqb _ _); [constructor|].
  apply Forall_forall. intros c Hc.
  apply in_map_iff in Hc as [i [<- Hi]]. apply in_seq in Hi.
  split; cbn; [lia | reflexivity].
Qed.

Lemma set_should_run_tidy hst v :
  tidy (server hst) -> tidy (server (set_should_run hst v)).
Proof.
  intros H. unfold set_should_run. destruct (Bool.eqb _ _); exact H.
Qed.

Lemma negotiate_new srv client_sock client_addr arrived :
  let client := ClientHandler_init client_sock client_addr arrived in
  is_None (client_id client) = false ->
  hashable (client_id client) = true ->
  dir_find (client_id client) (conns srv) = None ->
  negotiate_client_id srv client_sock client_addr arrived
  = Done (with_conns (with_objects srv (objects srv ++ [client]))
            (conns srv ++ [(client_id client, length (objects srv))])).
Proof.
  intros client Hn Hh Hf. unfold negotiate_client_id. fold client.
  rewrite Hn, Hh. cbn [negb conns with_objects]. rewrite Hf.
  now rewrite (ServerFacts.dir_set_absent _ _ _ Hf).
Qed.

Lemma negotiate_unhashable srv client_sock client_addr arrived :
  let client := ClientHandler_init client_sock client_addr arrived in
  is_None (client_id client) = false ->
  hashable (client_id client) = false ->
  negotiate_client_id srv client_sock client_addr arrived
  = Raised TypeError (with_objects srv (objects srv ++ [client])).
Proof.
  intros client Hn Hh. unfold negotiate_client_id. fold client.
  now rewrite Hn, Hh.
Qed.

Lemma call_ok_more n m c : n <= m -> call_ok n c -> call_ok m c.
Proof. intros Hle [H1 H2]. split; [lia | exact H2]. Qed.

Lemma host_ok_Host_init : host_ok Host_init.
Proof.
  unfold host_ok, tidy, consistent, well_formed. cbn.
  repeat split; try constructor; try discriminate; try congruence.
Qed.

Lemma host_ok_intro hst :
  tidy (server hst) ->
  (Server.should_run (server hst) = true ->
   is_None (interface (server hst)) = false
   /\ is_None (port (server hst)) = false
   /\ accept_thread hst <> NotStarted) ->
  (accept_thread hst = NotStarted -> conns (server hst) = []) ->
  (accept_thread hst <> NotStarted -> accept_socket hst <> NoSocket) ->
  Forall (call_ok (status_callbacks hst)) (status_calls hst) ->
  host_ok hst.
Proof. unfold host_ok. auto. Qed.

Lemma start_ok b hst : host_ok hst -> host_ok (snd (start b hst)).
Proof.
  intros H. unfold start.
  destruct (is_None (interface (server hst))) eqn:Ei; [exact H|].
  destruct (is_None (port (server hst))) eqn:Ep; [exact H|].
  pose proof H as (Ht & Hr & Hn & Hs & Hc).
  destruct b as [e|]; cbn [snd].
  { apply host_ok_intro; cbn; auto. discriminate. }
  set (h0 := with_socket hst Listening).
  destruct (set_should_run_fields h0 true)
    as (F1 & F2 & F3 & F4 & F5 & F6 & F7 & F8).
  pose proof (set_should_run_calls_ok h0 true Hc) as Hc'.
  pose proof (set_should_run_tidy h0 true Ht) as Ht'.
  cbn in F2, F4, F5, F6, F7, F8.
  destruct (accept_thread (set_should_run h0 true)) eqn:Et; cbn [snd];
    apply host_ok_intro;
    cbn [server accept_thread accept_socket status_callbacks
         status_calls with_thread];
    rewrite ?F2, ?F4, ?F5, ?F7, ?F8, ?Et; auto;
    try discriminate; try congruence.
  - intros _. repeat split; auto. discriminate.
  - intros _. repeat split; auto. discriminate.
  - intros _. repeat split; auto. discriminate.
Qed.

Lemma shut_all_tidy srv :
  tidy srv ->
  tidy (shut_each (conns srv) srv).
Proof.
  intros [[Hw Hd] Hn].
  destruct (shut_all_fields (conns srv) srv) as (G1 & _ & _ & _ & G5 & _).
  unfold tidy, consistent, well_formed. rewrite G1, G5, each_length.
  auto.
Qed.

Lemma stop_ok hst : host_ok hst -> host_ok (snd (stop hst)).
Proof.
  intros H. pose proof H as (Ht & Hr & Hn & Hs & Hc). unfold stop.
  destruct (set_should_run_fields hst false)
    as (F1 & F2 & F3 & F4 & F5 & F6 & F7 & F8).
  pose proof (set_should_run_calls_ok hst false Hc) as Hc'.
  pose proof (set_should_run_tidy hst false Ht) as Ht'.
  destruct (shut_all_fields (conns (server (set_should_run hst false)))
                            (server (set_should_run hst false)))
    as (G1 & G2 & G3 & G4 & _).
  destruct (accept_thread (set_should_run hst false)) eqn:Et; cbn [snd].
  { apply host_ok_intro; rewrite ?F1, ?F2, ?F7, ?F8, ?Et; auto;
      try discriminate; try congruence. }
  all: cbn [accept_socket with_thread];
    assert (Hsock : accept_socket (set_should_run hst false) <> NoSocket)
      by (rewrite F7; apply Hs; congruence);
    destruct (accept_socket (set_should_run hst false)) eqn:Es;
      [congruence| | |]; cbn [snd];
      apply host_ok_intro;
      cbn [server accept_thread accept_socket
           status_callbacks status_calls with_thread
           with_socket with_server];
      rewrite ?F8; auto; try discriminate;
      try (apply shut_all_tidy; exact Ht');
      rewrite ?G4, ?F1; discriminate.
Qed.

Lemma accepted_ok hst client_sock client_addr arrived :
  host_ok hst -> host_ok (accepted hst client_sock client_addr arrived).
Proof.
  intros H. pose proof H as (Ht & Hr & Hn & Hs & Hc). unfold accepted.
  destruct (accept_thread hst) eqn:Et; try exact H.
  destruct (Server.should_run (server hst)) eqn:Er; try exact H.
  destruct (Hr eq_refl) as (Hi & Hp & _).
  assert (Hdead : host_ok (with_thread hst Ended)).
  { apply host_ok_intro; cbn; auto; try discriminate;
      try (intros _; repeat split; auto; discriminate).
    intros _. apply Hs. congruence. }
  destruct (accept_socket hst) eqn:Es; try exact Hdead.
  pose proof (negotiate_tidy (server hst) client_sock client_addr arrived Ht)
    as Ht'.
  destruct (negotiate_shape (server hst) client_sock client_addr arrived)
    as (_ & _ & Gi & Gp & Gr & _).
  destruct (negotiate_client_id (server hst) client_sock client_addr arrived)
    as [s|e s]; cbn [server_of] in *.
  - apply host_ok_intro; cbn; rewrite ?Gi, ?Gp, ?Et, ?Es; auto;
      try discriminate;
      try (intros _; repeat split; auto; discriminate).
  - assert (Hlive : host_ok (with_server hst s)).
    { apply host_ok_intro; cbn; rewrite ?Gi, ?Gp, ?Et, ?Es; auto;
        try discriminate;
        try (intros _; repeat split; auto; discriminate). }
    assert (Hend : host_ok (with_thread (with_server hst s) Ended)).
    { apply host_ok_intro; cbn; rewrite ?Gi, ?Gp, ?Es; auto;
        try discriminate;
        try (intros _; repeat split; auto; discriminate). }
    destruct e; assumption.
Qed.

Lemma apply_op_ok hst o : host_ok hst -> host_ok (apply_op hst o).
Proof.
  intros H. pose proof H as (Ht & Hr & Hn & Hs & Hc).
  destruct o; cbn [apply_op].
  - apply host_ok_intro; cbn; auto.
    eapply Forall_impl; [|exact Hc]. intros c. apply call_ok_more. lia.
  - unfold set_interface.
    destruct (Server.should_run (server hst)) eqn:Er; [exact H|].
    apply host_ok_intro; cbn; auto; try apply Ht. discriminate.
  - unfold set_port.
    destruct (Server.should_run (server hst)) eqn:Er; [exact H|].
    apply host_ok_intro; cbn; auto; try apply Ht. discriminate.
  - now apply start_ok.
  - now apply stop_ok.
  - destruct (send_settings (server hst) to msg) as (G1 & G2 & G3 & G4).
    apply host_ok_intro; cbn; rewrite ?G1, ?G2, ?G3, ?G4; auto.
    apply send_tidy; exact Ht.
  - now apply accepted_ok.
Qed.

Lemma run_ok ops hst : host_ok hst -> host_ok (run ops hst).
Proof.
  revert hst. induction ops as [|o ops IH]; intros hst H; cbn; auto.
  apply IH. now apply apply_op_ok.
Qed.

End ServerOpsFacts.

(* ================================================================== *)
(** * Properties of the server *)

Module ServerProperties.
Import Json Connection Py Server ServerInv ServerOps ServerExamples.
Import DirectoryFacts ServerOpsFacts Examples Scenarios.

(** X11.  [Server.send] to one client: an id that is not in the directory
    gives [False] and changes nothing; an id that is there gives [True],
    puts the message at the tail of the outbound queue of that client's
    handler, and leaves the directory and the handler of every other
    client as they were. *)
Theorem send_routes_by_id srv to msg :
  tidy srv -> eq_str to (of_string "*") = false -> hashable to = true ->
  match handler_for srv to with
  | None => send srv to msg = (inl false, srv)
  | Some c =>
      fst (send srv to msg) = inl true
      /\ conns (snd (send srv to msg)) = conns srv
      /\ handler_for (snd (send srv to msg)) to
         = Some (with_base c (Connection.send (base c) msg))
      /\ (forall k, dir_find k (conns srv) <> dir_find to (conns srv) ->
                    handler_for (snd (send srv to msg)) k = handler_for srv k)
  end.
Proof.
  intros [[Hw Hd] Hn] Hs Hh.
  pose proof (send_one srv to msg Hw Hs Hh) as H.
  unfold handler_for.
  destruct (dir_find to (conns srv)) as [r|] eqn:Ef; [|exact H].
  destruct H as (c & Hc & ->). rewrite Hc. cbn [fst snd conns with_objects].
  rewrite Ef. cbn [objects with_objects].
  repeat split.
  - apply ServerFacts.nth_error_update_eq. apply nth_error_Some. congruence.
  - intros k Hk. destruct (dir_find k (conns srv)) as [r'|]; [|reflexivity].
    apply ServerFacts.nth_error_update_neq. congruence.
Qed.

Lemma two_clients_tidy : tidy (server two_clients).
Proof.
  split; [split|].
  - unfold well_formed. vm_compute. repeat constructor.
  - vm_compute. repeat split; repeat constructor.
  - vm_compute. repeat constructor; cbn; intuition discriminate.
Qed.

Lemma send_routes_by_id_witness :
  fst (send (server two_clients) xyz m1) = inl true
  /\ fst (send (server two_clients) (JStr (of_string "nobody")) m1)
     = inl false.
Proof.
  split.
  - pose proof (send_routes_by_id (server two_clients) xyz m1
                  two_clients_tidy eq_refl eq_refl) as H.
    change (handler_for (server two_clients) xyz)
      with (Some (ClientHandler_init (quiet_socket 3) peer
                                     [negotiation_of xyz])) in H.
    apply H.
  - pose proof (send_routes_by_id (server two_clients)
                  (JStr (of_string "nobody")) m1
                  two_clients_tidy eq_refl eq_refl) as H.
    change (handler_for (server two_clients) (JStr (of_string "nobody")))
      with (@None ClientHandler) in H.
    now rewrite H.
Defined.

(** X12.  [Server.send] to ['*']: the result is [True], every handler of
    the directory gets the message once at the tail of its outbound
    queue, and a handler that is not in the directory (a client whose
    negotiation failed) gets nothing.  A client whose id is ['*'] is
    reached this way only. *)
Theorem broadcast_reaches_each_once srv msg :
  tidy srv ->
  fst (send srv (JStr (of_string "*")) msg) = inl true
  /\ conns (snd (send srv (JStr (of_string "*")) msg)) = conns srv
  /\ (forall k c,
        handler_for srv k = Some c ->
        handler_for (snd (send srv (JStr (of_string "*")) msg)) k
        = Some (with_base c (Connection.send (base c) msg)))
  /\ (forall i,
        ~ In i (List.map snd (conns srv)) ->
        nth_error (objects (snd (send srv (JStr (of_string "*")) msg))) i
        = nth_error (objects srv) i).
Proof.
  intros [[Hw Hd] Hn].
  change (send srv (JStr (of_string "*")) msg)
    with (@inl bool exn true,
          for_each_conn (fun c => Connection.send c msg) srv).
  cbn [fst snd]. unfold for_each_conn. cbn [conns objects with_objects].
  repeat split.
  - intros k c Hc. apply handler_of_bound in Hc as (r & Hf & Hc).
    unfold handler_for. cbn [conns objects with_objects]. rewrite Hf.
    apply each_once; auto. now apply dir_find_in with k.
  - intros i Hi. now apply each_other.
Qed.

Lemma broadcast_reaches_each_once_witness :
  handler_for (snd (send (server two_clients) (JStr (of_string "*")) m1)) abc
  = Some (with_base (ClientHandler_init (quiet_socket 1) peer
                                        [negotiation_of abc])
            (Connection.send
               (base (ClientHandler_init (quiet_socket 1) peer
                                         [negotiation_of abc])) m1)).
Proof.
  apply (broadcast_reaches_each_once (server two_clients) m1
                                     two_clients_tidy).
  reflexivity.
Defined.

(** X13.  Whatever a connecting client sends, [__negotiate_client_id]
    leaves the directory a proper one (keys pairwise different, no
    handler under two keys), keeps every entry that was there, adds at
    most the entry of the new id, and touches no handler other than the
    one registered under that id. *)
Theorem negotiation_keeps_directory srv client_sock client_addr arrived :
  tidy srv ->
  let id := client_id (ClientHandler_init client_sock client_addr arrived) in
  let srv' := server_of (negotiate_client_id srv client_sock client_addr
                                             arrived) in
  tidy srv'
  /\ (forall k r, dir_find k (conns srv) = Some r ->
                  dir_find k (conns srv') = Some r)
  /\ (conns srv' = conns srv
      \/ conns srv' = conns srv ++ [(id, length (objects srv))]
         /\ dir_find id (conns srv) = None /\ truthy id = true)
  /\ (forall k c, handler_for srv k = Some c ->
                  dir_find k (conns srv) <> dir_find id (conns srv) ->
                  handler_for srv' k = Some c).
Proof.
  intros Ht id srv'. subst srv'.
  destruct (negotiate_shape srv client_sock client_addr arrived)
    as (Hc & _ & _ & _ & _ & Ho).
  fold id in Hc, Ho.
  split; [now apply negotiate_tidy|].
  split; [intros k r; apply negotiate_keeps_entries|].
  split.
  - destruct Hc as [Hc|(Hc & Hf & _ & Hn & _)]; [now left|right].
    repeat split; auto.
    subst id. rewrite ServerFacts.init_client_id in *.
    destruct (negotiated_id (hd_error arrived)) as [| | | | | |] eqn:E;
      try discriminate;
      (destruct (ServerFacts.negotiated_id_some _ _ E)
        as (m & _ & _ & _ & T); [discriminate | exact T]).
  - intros k c Hk Hne. apply handler_of_bound in Hk as (r & Hf & Hk).
    unfold handler_for.
    rewrite (negotiate_keeps_entries srv client_sock client_addr arrived
                                     k r Hf).
    rewrite Ho; auto.
    + apply nth_error_Some. congruence.
    + congruence.
Qed.

Lemma negotiation_keeps_directory_witness :
  tidy (server_of (negotiate_client_id (server two_clients) (quiet_socket 4)
                                       peer [negotiation_of (JInt 7)])).
Proof.
  apply (negotiation_keeps_directory (server two_clients) (quiet_socket 4)
                                     peer [negotiation_of (JInt 7)]
                                     two_clients_tidy).
Defined.

(** X14.  A client that has negotiated a new id can be written to under
    that id at once: [Server.send] with the id returns [True] and the
    message is the one message queued in the handler that owns the
    client's socket. *)
Theorem negotiate_then_send srv client_sock client_addr arrived msg :
  let id := client_id (ClientHandler_init client_sock client_addr arrived) in
  let srv' := server_of (negotiate_client_id srv client_sock client_addr
                                             arrived) in
  tidy srv ->
  is_None id = false -> hashable id = true ->
  eq_str id (of_string "*") = false ->
  dir_find id (conns srv) = None ->
  fst (send srv' id msg) = inl true
  /\ exists c,
       handler_for (snd (send srv' id msg)) id = Some c
       /\ sock (base c) = client_sock
       /\ outbound_message_queue (base c) = [msg]
       /\ Connection.should_run (base c) = true.
Proof.
  intros id srv' Ht Hn Hh Hs Hf. subst srv'.
  pose proof (negotiate_tidy srv client_sock client_addr arrived Ht) as Ht'.
  rewrite (negotiate_new srv client_sock client_addr arrived Hn Hh Hf) in *.
  cbn [server_of] in *. fold id in Ht' |- *.
  set (client := ClientHandler_init client_sock client_addr arrived) in *.
  set (srv1 := with_conns _ _) in *.
  assert (Hd : dir_find id (conns srv1) = Some (length (objects srv)))
    by (cbn; now apply dir_find_snoc).
  pose proof (send_one srv1 id msg (proj1 (proj1 Ht')) Hs Hh) as H.
  rewrite Hd in H. destruct H as (c & Hc & ->).
  cbn [fst snd]. split; [reflexivity|].
  cbn in Hc. rewrite ServerFacts.nth_error_snoc in Hc. injection Hc as <-.
  exists (with_base client (Connection.send (base client) msg)).
  unfold handler_for. cbn [conns with_objects objects]. rewrite Hd.
  split.
  - apply ServerFacts.nth_error_update_eq. cbn. rewrite length_app. cbn. lia.
  - destruct (ServerFacts.init_base client_sock client_addr arrived)
      as (R & S & Q).
    fold client in R, S, Q. cbn. rewrite Q. auto.
Qed.

Lemma negotiate_then_send_witness :
  fst (send (server_of (negotiate_client_id
                          (server two_clients) (quiet_socket 4) peer
                          [negotiation_of (JInt 7)]))
            (JInt 7) m1) = inl true.
Proof.
  apply (negotiate_then_send (server two_clients) (quiet_socket 4) peer
                             [negotiation_of (JInt 7)] m1 two_clients_tidy);
    reflexivity.
Defined.

(** X15.  A server can be started once.  On a configured server the
    first [start] returns [True] and [stop] returns [True]; a [start]
    after that raises [RuntimeError] (the thread object of [__init__]
    cannot be started again) after it has set the run flag: the server
    then reports "Running", has no accept thread, and takes no
    connection.  Each subscriber has been called on each of the three
    changes of the flag. *)
Theorem server_cannot_restart hst :
  is_None (interface (server hst)) = false ->
  is_None (port (server hst)) = false ->
  accept_thread hst = NotStarted ->
  Server.should_run (server hst) = false ->
  let h1 := snd (start None hst) in
  let h2 := snd (stop h1) in
  let h3 := snd (start None h2) in
  let ups := List.map (fun i => (i, false, true))
                      (seq 0 (status_callbacks hst)) in
  let downs := List.map (fun i => (i, true, false))
                        (seq 0 (status_callbacks hst)) in
  fst (start None hst) = inl true
  /\ accept_thread h1 = Alive
  /\ fst (stop h1) = inl true
  /\ status_str h2 = "Stopped"%string
  /\ fst (start None h2) = inr RuntimeError
  /\ status_str h3 = "Running"%string
  /\ accept_thread h3 = Ended
  /\ status_calls h3 = status_calls hst ++ ups ++ downs ++ ups
  /\ forall client_sock client_addr arrived,
       accepted h3 client_sock client_addr arrived = h3.
Proof.
  destruct hst as [[i p r d o cl] t l n calls]. cbn [server interface port
    Server.should_run accept_thread status_callbacks status_calls].
  intros Hi Hp -> ->.
  set (ups := List.map (fun i => (i, false, true)) (seq 0 n)).
  set (downs := List.map (fun i => (i, true, false)) (seq 0 n)).
  set (srv := fun run => {| interface := i; port := p; should_run := run;
                            conns := d; objects := o; closed := cl |}).
  assert (E1 : start None
                 {| server := srv false; accept_thread := NotStarted;
                    accept_socket := l; status_callbacks := n;
                    status_calls := calls |}
               = (inl true,
                  {| server := srv true; accept_thread := Alive;
                     accept_socket := Listening; status_callbacks := n;
                     status_calls := calls ++ ups |})).
  { unfold start. cbn [server interface port srv]. unfold srv.
    cbn [interface port]. rewrite Hi, Hp. reflexivity. }
  assert (E2 : stop {| server := srv true; accept_thread := Alive;
                       accept_socket := Listening; status_callbacks := n;
                       status_calls := calls ++ ups |}
               = (inl true,
                  {| server := shut_each d (srv false);
                     accept_thread := Ended;
                     accept_socket := ListenerClosed; status_callbacks := n;
                     status_calls := (calls ++ ups) ++ downs |}))
    by reflexivity.
  assert (E3 : start None
                 {| server := shut_each d (srv false);
                    accept_thread := Ended;
                    accept_socket := ListenerClosed; status_callbacks := n;
                    status_calls := (calls ++ ups) ++ downs |}
               = (inr RuntimeError,
                  {| server := with_settings (shut_each d (srv false))
                                             i p true;
                     accept_thread := Ended;
                     accept_socket := Listening; status_callbacks := n;
                     status_calls := ((calls ++ ups) ++ downs) ++ ups |})).
  { destruct (shut_all_fields d (srv false)) as (_ & G2 & G3 & G4 & _).
    unfold start. cbn [server]. rewrite G2, G3. cbn [srv interface port].
    rewrite Hi, Hp. cbn [with_socket accept_thread server].
    unfold set_should_run.
    cbn [server with_socket accept_thread accept_socket status_callbacks
         status_calls].
    rewrite G4. cbn [srv Server.should_run Bool.eqb].
    cbn [with_socket accept_thread accept_socket status_callbacks
         status_calls server].
    rewrite G2, G3. reflexivity. }
  fold (srv false). rewrite E1. cbn [fst snd]. rewrite E2. cbn [fst snd].
  rewrite E3. cbn [fst snd accept_thread status_calls].
  destruct (shut_all_fields d (srv false)) as (_ & _ & _ & G4 & _).
  unfold status_str. cbn [server]. rewrite G4.
  cbn [srv Server.should_run with_settings].
  repeat split; auto.
  now rewrite <- !app_assoc.
Qed.

Lemma server_cannot_restart_witness :
  fst (start None (snd (stop (snd (start None configured_host)))))
  = inr RuntimeError.
Proof.
  apply (server_cannot_restart configured_host); reflexivity.
Defined.

(** X16.  A negotiation whose id is a list or a dict ends the accept
    thread: the [TypeError] of the directory lookup is not caught.  The
    server goes on reporting "Running" but takes no further connection;
    the directory is as before, and the handler made for that connection
    is left running, in no directory. *)
Theorem unhashable_id_ends_accept_thread hst client_sock client_addr arrived :
  let client := ClientHandler_init client_sock client_addr arrived in
  let hst' := accepted hst client_sock client_addr arrived in
  accept_thread hst = Alive ->
  Server.should_run (server hst) = true ->
  accept_socket hst = Listening ->
  is_None (client_id client) = false ->
  hashable (client_id client) = false ->
  accept_thread hst' = Ended
  /\ status_str hst' = "Running"%string
  /\ conns (server hst') = conns (server hst)
  /\ nth_error (objects (server hst')) (length (objects (server hst)))
     = Some client
  /\ Connection.should_run (base client) = true
  /\ running (base client) = true
  /\ forall s a later, accepted hst' s a later = hst'.
Proof.
  intros client hst' Ht Hr Hl Hn Hh. subst hst'. unfold accepted.
  rewrite Ht, Hr, Hl.
  rewrite (negotiate_unhashable (server hst) client_sock client_addr arrived
                                Hn Hh).
  fold client. unfold status_str. cbn. rewrite Hr.
  repeat split; auto.
  - apply ServerFacts.nth_error_snoc.
  - apply (ServerFacts.init_base client_sock client_addr arrived).
  - unfold client, ClientHandler_init, Server.wait_for_recv.
    cbn. destruct arrived; reflexivity.
Qed.

Lemma unhashable_id_ends_accept_thread_witness :
  accept_thread (accepted started_host (quiet_socket 1) peer
                          [negotiation_of list_id]) = Ended.
Proof.
  apply (unhashable_id_ends_accept_thread started_host (quiet_socket 1) peer
           [negotiation_of list_id]); reflexivity.
Defined.



(** X18.  Whatever is done with a server from its creation on (calls of
    its methods in any order, with any arguments, and connections coming
    in with any messages): the directory is a proper one; a set run flag
    means that interface and port are set and that [start] got as far as
    the thread; nothing is registered before the first [start]; [stop]
    never fails on the missing socket; and subscribers are only called
    with an old value opposite to the new one. *)
Theorem server_invariants ops :
  let hst := run ops Host_init in
  host_ok hst /\ fst (stop hst) <> inr AttributeError.
Proof.
  intros hst.
  assert (H : host_ok hst) by (apply run_ok, host_ok_Host_init).
  split; [exact H|].
  destruct H as (_ & _ & _ & Hs & _). unfold stop.
  destruct (set_should_run_fields hst false)
    as (_ & _ & _ & _ & _ & F6 & F7 & _).
  rewrite F6.
  destruct (accept_thread hst) eqn:Et; [discriminate| |];
    cbn [accept_socket with_thread]; rewrite F7;
    (destruct (accept_socket hst); [exfalso; apply Hs; congruence| | |]);
    discriminate.
Qed.

Lemma server_invariants_witness :
  host_ok two_clients /\ fst (stop two_clients) <> inr AttributeError.
Proof.
  exact (server_invariants
           [OpSubscribe; OpSubscribe;
            OpSetInterface (JStr (of_string "*")); OpSetPort 30000;
            OpStart None;
            OpAccepted (quiet_socket 1) peer [negotiation_of abc];
            OpAccepted (quiet_socket 2) peer [];
            OpAccepted (quiet_socket 3) peer [negotiation_of xyz]]).
Defined.

End ServerProperties.

(* ================================================================== *)
(** * Facts about the operations of the client *)

Module ClientOpsFacts.
Import Json Connection Py Client ClientInv ClientOps.

Lemma set_state_fields c s :
  state (set_state c s) = s
  /\ conn (set_state c s) = conn c
  /\ address_ (set_state c s) = address_ c
  /\ port_ (set_state c s) = port_ c
  /\ client_id_ (set_state c s) = client_id_ c
  /\ attempt_reconnect (set_state c s) = attempt_reconnect c
  /\ recv_consumer_should_run (set_state c s) = recv_consumer_should_run c
  /\ recv_consumer_started (set_state c s) = recv_consumer_started c
  /\ interface_ (set_state c s) = interface_ c
  /\ bind_port_ (set_state c s) = bind_port_ c.
Proof.
  unfold set_state. destruct (state c =? s)%Z eqn:E; cbn; auto 12.
  apply Z.eqb_eq in E. auto 12.
Qed.


Lemma client_ok_same c c' :
  state c' = state c -> conn c' = conn c ->
  address_ c' = address_ c -> port_ c' = port_ c ->
  client_id_ c' = client_id_ c ->
  client_ok c -> client_ok c'.
Proof.
  unfold client_ok. intros -> -> -> -> ->. auto.
Qed.

Lemma client_ok_calm c : calm c -> client_ok c.
Proof.
  intros (H1 & H2 & H3). unfold client_ok. rewrite H1, H2, H3.
  repeat split; discriminate.
Qed.

Lemma client_ok_connected c :
  state c = Z.lor STATE_OK STATE_CONNECTED -> conn c <> None -> client_ok c.
Proof.
  intros Hs Hc. unfold client_ok. rewrite Hs. repeat split; auto.
  discriminate.
Qed.

Lemma calm_state c s :
  has_flag s STATE_RUNNING = false -> has_flag s STATE_NEEDS_INIT = false ->
  has_flag s STATE_CONNECTED = false -> state c = s -> calm c.
Proof. intros H1 H2 H3 Hs. unfold calm. rewrite Hs. auto. Qed.

(** *** Flags under [__check_inited] *)

Lemma has_flag_clear s f :
  Z.land (Z.lnot STATE_NEEDS_INIT) f = f ->
  has_flag (Z.land s (Z.lnot STATE_NEEDS_INIT)) f = has_flag s f.
Proof.
  intros H. unfold has_flag. now rewrite <- Z.land_assoc, H.
Qed.

Lemma has_flag_set s f :
  Z.land STATE_NEEDS_INIT f = 0%Z ->
  has_flag (Z.lor s STATE_NEEDS_INIT) f = has_flag s f.
Proof.
  intros H. unfold has_flag. now rewrite Z.land_lor_distr_l, H, Z.lor_0_r.
Qed.

Lemma has_flag_cleared s :
  has_flag (Z.land s (Z.lnot STATE_NEEDS_INIT)) STATE_NEEDS_INIT = false.
Proof.
  unfold has_flag. rewrite <- Z.land_assoc.
  change (Z.land (Z.lnot STATE_NEEDS_INIT) STATE_NEEDS_INIT) with 0%Z.
  now rewrite Z.land_0_r.
Qed.

Lemma check_inited_ok c :
  has_flag (state c) STATE_RUNNING = false ->
  (has_flag (state c) STATE_CONNECTED = true -> conn c <> None) ->
  client_ok (check_inited c).
Proof.
  intros Hr Hc. unfold check_inited.
  destruct (negb (is_None (address_ c)) && negb (is_None (port_ c))
            && negb (is_None (client_id_ c))) eqn:E;
    match goal with
    | |- client_ok (set_state _ ?s) =>
        destruct (set_state_fields c s) as (F1 & F2 & F3 & F4 & F5 & _)
    end;
    unfold client_ok; rewrite F1, F2, F3, F4, F5.
  - rewrite !has_flag_clear by reflexivity. rewrite has_flag_cleared.
    repeat split; auto. discriminate.
  - rewrite !has_flag_set by reflexivity.
    repeat split; auto. intros _.
    destruct (is_None (address_ c)), (is_None (port_ c)),
      (is_None (client_id_ c)); cbn in *; congruence.
Qed.

Lemma setter_ok c f :
  client_ok c ->
  state f = state c -> conn f = conn c ->
  client_ok (or_unchanged
               (if has_flag (state c) STATE_RUNNING then inr PyException
                else inl (check_inited f)) c).
Proof.
  intros H Hs Hc. pose proof H as (H1 & H2 & _). rewrite H1. cbn.
  apply check_inited_ok; rewrite Hs, ?Hc; auto.
Qed.

(** *** [connect] *)

Lemma fail_connect_calm b c : calm (fail_connect b c).
Proof.
  destruct (ClientFacts.fail_connect_spec b c) as (Hs & _).
  eapply calm_state; [| | |exact Hs]; now destruct b.
Qed.

Lemma fail_connect_fields b c :
  address_ (fail_connect b c) = address_ c
  /\ port_ (fail_connect b c) = port_ c
  /\ client_id_ (fail_connect b c) = client_id_ c.
Proof.
  unfold fail_connect. cbn [with_conn address_ port_ client_id_].
  match goal with
  | |- context [set_state c ?s] =>
      destruct (set_state_fields c s) as (_ & _ & F3 & F4 & F5 & _)
  end.
  auto.
Qed.

Lemma connect_finish_ok w c : client_ok (snd (connect_finish w c)).
Proof.
  unfold connect_finish. destruct (start_ok w); cbn [snd].
  - apply client_ok_connected.
    + cbn [trigger with_state with_consumer state].
      apply ClientFacts.state_set_state.
    + cbn [trigger with_state with_consumer conn].
      rewrite ClientFacts.conn_set_state. discriminate.
  - apply client_ok_calm, fail_connect_calm.
Qed.

Lemma connect_ok w c : client_ok c -> client_ok (snd (connect w c)).
Proof.
  intros H. unfold connect.
  destruct (is_None (address_ c)); [exact H|].
  destruct (is_None (port_ c)); [exact H|].
  destruct (is_None (client_id_ c)); [exact H|].
  destruct (has_flag (state c) STATE_NEEDS_INIT);
    [revert H; now apply client_ok_same|].
  destruct (negb (has_flag (state c) STATE_NOT_CONNECTED));
    [revert H; now apply client_ok_same|].
  cbv zeta.
  match goal with
  | |- context [if ?b then bind_raises w else None] =>
      destruct (if b then bind_raises w else None) as [e|]
  end.
  { destruct e; cbn [snd]; apply client_ok_calm, fail_connect_calm. }
  destruct (connect_raises w) as [e|].
  - destruct e; cbn [snd]; try (apply client_ok_calm, fail_connect_calm).
    match goal with
    | |- context [connect_finish w ?x] =>
        pose proof (connect_finish_ok w x) as Hf;
        destruct (connect_finish w x)
    end.
    exact Hf.
  - match goal with
    | |- context [connect_finish w ?x] =>
        pose proof (connect_finish_ok w x) as Hf;
        destruct (connect_finish w x)
    end.
    exact Hf.
Qed.

(** *** [disconnect] and [__server_shut_down] *)

Lemma disconnect_ok c : client_ok c -> client_ok (snd (fst (disconnect c))).
Proof.
  intros H. unfold disconnect.
  destruct (negb (has_flag (state (trigger c EvDisconnect)) STATE_CONNECTED)).
  { cbn [fst snd]. revert H. now apply client_ok_same. }
  destruct (conn (stop_consumer (trigger c EvDisconnect) false));
    cbn [fst snd]; apply client_ok_calm;
    (eapply calm_state; [| | |apply ClientFacts.state_set_state]);
    reflexivity.
Qed.

Lemma server_shut_down_calm c : calm (server_shut_down c).
Proof.
  unfold server_shut_down. cbv zeta.
  eapply calm_state; [| | |apply ClientFacts.state_set_state]; reflexivity.
Qed.

(** *** The consumer thread *)

Lemma reconnect_state w c :
  state (snd (reconnect w c)) = state c
  /\ conn (snd (reconnect w c)) <> None.
Proof.
  unfold reconnect. cbv zeta.
  match goal with
  | |- context [if ?b then bind_raises w else None] =>
      destruct (if b then bind_raises w else None)
  end; [cbn; split; [reflexivity | discriminate]|].
  destruct (connect_raises w); [cbn; split; [reflexivity | discriminate]|].
  destruct (start_ok w); cbn; split; reflexivity || discriminate.
Qed.

Lemma reconnect_loop_ok script sleeptime c waits :
  calm c -> client_ok (snd (fst (reconnect_loop script sleeptime c waits))).
Proof.
  revert sleeptime c waits.
  induction script as [|a script IH]; intros sleeptime c waits Hc;
    cbn [reconnect_loop].
  - cbn. now apply client_ok_calm.
  - cbv zeta. destruct (abort_in_wait a).
    + cbn [fst snd]. apply client_ok_calm.
      eapply calm_state; [| | |apply ClientFacts.state_set_state];
        reflexivity.
    + destruct (reconnect_state (network a) c) as (Hs & Hn).
      destruct (reconnect (network a) c) as [ok c'] eqn:E.
      cbn [snd] in Hs, Hn. destruct ok.
      * cbn [fst snd]. apply client_ok_connected.
        -- cbn [with_log trigger with_state state].
           apply ClientFacts.state_set_state.
        -- cbn [with_log trigger with_state conn].
           now rewrite ClientFacts.conn_set_state.
      * apply IH. destruct Hc as (H1 & H2 & H3).
        rewrite <- Hs in H1, H2, H3. now repeat split.
Qed.

Lemma reconnect_wrapper_ok script c :
  client_ok c -> client_ok (snd (fst (reconnect_wrapper script c))).
Proof.
  intros H. unfold reconnect_wrapper.
  destruct (negb (attempt_reconnect c)); [exact H|].
  apply reconnect_loop_ok.
  eapply calm_state; [| | |apply ClientFacts.state_set_state]; reflexivity.
Qed.

Lemma consume_ok c : client_ok c -> client_ok (client_at (consume c)).
Proof.
  intros H. unfold consume. destruct (conn c) as [h|] eqn:Ec; [|exact H].
  destruct (recv h) as [[msg|] h'] eqn:Er.
  - destruct (eq_str (subject msg) (of_string "shutdown")); cbn [client_at].
    + apply client_ok_calm, server_shut_down_calm.
    + destruct H as (H1 & H2 & H3). unfold client_ok. cbn.
      repeat split; auto. discriminate.
  - cbn [client_at]. destruct H as (H1 & H2 & H3). unfold client_ok. cbn.
    repeat split; auto. discriminate.
Qed.

Lemma consumer_turn_ok script c :
  client_ok c -> client_ok (client_at (consumer_turn script c)).
Proof.
  intros H. unfold consumer_turn.
  destruct (negb (recv_consumer_should_run c)); [exact H|].
  destruct (conn c) as [h|] eqn:Ec; [|exact H].
  destruct (negb (running h)); [|now apply consume_ok].
  destruct (negb (attempt_reconnect c)).
  { cbn [client_at]. revert H. now apply client_ok_same. }
  match goal with
  | |- context [reconnect_wrapper script ?x] =>
      assert (Hx : client_ok x) by (revert H; now apply client_ok_same);
      pose proof (reconnect_wrapper_ok script x Hx) as Hw;
      destruct (reconnect_wrapper script x) as [[[[|]|] c'] ws]
  end; cbn [fst snd] in Hw; cbn [client_at]; auto.
  apply consume_ok. revert Hw. now apply client_ok_same.
Qed.

Lemma client_step_ok c o : client_ok c -> client_ok (client_step c o).
Proof.
  intros H. destruct o; cbn [client_step].
  - now apply setter_ok.
  - now apply setter_ok.
  - now apply setter_ok.
  - now apply setter_ok.
  - now apply setter_ok.
  - revert H. now apply client_ok_same.
  - now apply connect_ok.
  - now apply disconnect_ok.
  - destruct (recv_consumer_started c); [|exact H].
    now apply consumer_turn_ok.
  - destruct (conn c) eqn:Ec; [|exact H].
    destruct H as (H1 & H2 & H3). unfold client_ok. cbn.
    repeat split; auto. discriminate.
Qed.

Lemma client_run_ok ops c : client_ok c -> client_ok (client_run ops c).
Proof.
  revert c. induction ops as [|o ops IH]; intros c H; cbn; auto.
  apply IH. now apply client_step_ok.
Qed.

Lemma Client_init_ok b : client_ok (Client_init b).
Proof. unfold client_ok. cbn. repeat split; auto. discriminate. Qed.

(** *** Turns of the consumer thread *)

Lemma consumer_turn_ordinary c h m q :
  recv_consumer_should_run c = true -> running h = true ->
  inbound_message_queue h = m :: q -> ordinary m ->
  consumer_turn [] (with_conn c (Some h))
  = Goes (Some m) (with_conn c (Some (set_inbound h q))).
Proof.
  intros Hr Hh Hq Hm. unfold consumer_turn. cbn [with_conn
    recv_consumer_should_run conn]. rewrite Hr, Hh. cbn [negb].
  unfold consume. cbn [with_conn conn]. unfold recv. rewrite Hq.
  unfold ordinary in Hm. rewrite Hm. reflexivity.
Qed.

Lemma consumer_turns_ordinary pre : forall c h tail n,
  recv_consumer_should_run c = true -> running h = true ->
  inbound_message_queue h = pre ++ tail -> Forall ordinary pre ->
  consumer_turns (length pre + n) (with_conn c (Some h))
  = (pre ++ fst (consumer_turns n (with_conn c (Some (set_inbound h tail)))),
     snd (consumer_turns n (with_conn c (Some (set_inbound h tail))))).
Proof.
  induction pre as [|m pre IH]; intros c h tail n Hr Hh Hq Hp.
  - cbn [length Nat.add app] in *.
    destruct h as [s r t o i]. cbn in Hq. subst i.
    unfold set_inbound. cbn. now destruct (consumer_turns n _).
  - inversion Hp as [|? ? Hm Hp']; subst.
    cbn [length Nat.add consumer_turns].
    rewrite (consumer_turn_ordinary c h m (pre ++ tail) Hr Hh Hq Hm).
    rewrite (IH c (set_inbound h (pre ++ tail)) tail n Hr Hh eq_refl Hp').
    reflexivity.
Qed.

End ClientOpsFacts.

(* ================================================================== *)
(** * Properties of the client *)

Module ClientProperties.
Import Json Connection Py Client ClientInv ClientOps ClientOpsFacts.
Import Examples Scenarios ClientExamples.

(** X19.  Whatever is done with a client from its creation on (setters,
    [connect], [disconnect] in any order and with any arguments, turns of
    the consumer thread, work of the handler): the running flag is never
    set, so no setter ever refuses; a status with the connected flag has
    a handler, so [disconnect] returns [True] exactly when that flag is
    set; and the needs-init flag is only set while a field is unset, so
    [connect] raises before its test of that flag can fire. *)
Theorem client_invariants b ops :
  let c := client_run ops (Client_init b) in
  client_ok c
  /\ (forall a, exists c', set_address c a = inl c')
  /\ (forall i, exists c', set_interface c i = inl c')
  /\ (forall cid, exists c', set_client_id c cid = inl c')
  /\ (forall p, exists c', set_port c p = inl c')
  /\ (forall p, exists c', set_bind_port c p = inl c')
  /\ fst (fst (disconnect c)) = has_flag (state c) STATE_CONNECTED
  /\ (forall w, fst (connect w c) = inr AttributeError
                \/ has_flag (state c) STATE_NEEDS_INIT = false).
Proof.
  intros c.
  assert (H : client_ok c) by (apply client_run_ok, Client_init_ok).
  clearbody c. split; [exact H|]. destruct H as (Hr & Hc & Hn).
  unfold set_address, set_interface, set_client_id, set_port, set_bind_port.
  rewrite Hr. do 5 (split; [eauto|]).
  split.
  - unfold disconnect. cbn [trigger with_state state].
    destruct (has_flag (state c) STATE_CONNECTED) eqn:E; cbn [negb];
      [|reflexivity].
    cbn [stop_consumer with_consumer conn trigger with_state].
    destruct (conn c) eqn:Ec; [reflexivity|]. now elim Hc.
  - intros w. unfold connect.
    destruct (is_None (address_ c)) eqn:Ea; [now left|].
    destruct (is_None (port_ c)) eqn:Ep; [now left|].
    destruct (is_None (client_id_ c)) eqn:Ei; [now left|].
    right. destruct (has_flag (state c) STATE_NEEDS_INIT); [|reflexivity].
    specialize (Hn eq_refl). discriminate.
Qed.

Lemma client_invariants_witness :
  client_ok connected
  /\ fst (fst (disconnect connected)) = true.
Proof.
  pose proof (client_invariants true
                [OpSetAddress (JStr (of_string "127.0.0.1"));
                 OpSetPort 30000; OpSetClientId abc; OpConnect all_fine])
    as H.
  cbv zeta in H. destruct H as (H1 & _ & _ & _ & _ & _ & H2 & _).
  split; [exact H1 | exact H2].
Defined.




(** X21.  The consumer thread hands the received messages to the
    ['message'] callbacks one per turn, in the order of their arrival.
    A message with the subject ['shutdown'] is not handed on: it ends the
    session (no handler, status not-connected | ok) and the thread, and
    whatever was received after it is never delivered. *)
Theorem consumer_delivers_until_shutdown c h pre tail :
  recv_consumer_should_run c = true ->
  recv_consumer_started c = true ->
  conn c = Some h -> running h = true ->
  inbound_message_queue h = pre ++ tail ->
  Forall ordinary pre ->
  (tail = [] ->
   consumer_turns (length pre) c
   = (pre, Goes None (with_conn c (Some (set_inbound h [])))))
  /\ (forall sm rest k,
        tail = sm :: rest ->
        eq_str (subject sm) (of_string "shutdown") = true ->
        exists c',
          consumer_turns (length pre + S (S k)) c = (pre, Returns c')
          /\ state c' = Z.lor STATE_NOT_CONNECTED STATE_OK
          /\ conn c' = None
          /\ In EvServerShutdown (fired c')).
Proof.
  intros Hr Hst Hc Hh Hq Hp.
  assert (Ec : c = with_conn c (Some h))
    by (destruct c; cbn in *; now subst).
  split.
  - intros ->.
    replace (consumer_turns (length pre) c)
      with (consumer_turns (length pre) (with_conn c (Some h)))
      by (now rewrite <- Ec).
    pose proof (consumer_turns_ordinary pre c h [] 0 Hr Hh Hq Hp) as H.
    rewrite Nat.add_0_r in H. rewrite H. cbn. now rewrite app_nil_r.
  - intros sm rest k -> Hsm.
    replace (consumer_turns (length pre + S (S k)) c)
      with (consumer_turns (length pre + S (S k)) (with_conn c (Some h)))
      by (now rewrite <- Ec).
    rewrite (consumer_turns_ordinary pre c h (sm :: rest) (S (S k))
                                     Hr Hh Hq Hp).
    set (c1 := with_conn c (Some (set_inbound h (sm :: rest)))).
    set (c2 := server_shut_down
                 (with_log (with_conn c1 (Some (set_inbound h rest)))
                    "Server is shutting down. Closing connection")).
    assert (E1 : consumer_turn [] c1 = Goes None c2).
    { unfold consumer_turn, c1. cbn [with_conn recv_consumer_should_run
        conn]. rewrite Hr. cbn [negb running set_inbound thread_alive].
      unfold running in Hh. rewrite Hh. cbn [negb].
      unfold consume. cbn [with_conn conn]. unfold recv.
      cbn [set_inbound inbound_message_queue]. now rewrite Hsm. }
    assert (E2 : recv_consumer_should_run c2 = false).
    { unfold c2, server_shut_down. cbv zeta.
      match goal with
      | |- recv_consumer_should_run (set_state ?x ?s) = false =>
          destruct (set_state_fields x s)
            as (_ & _ & _ & _ & _ & _ & G & _); rewrite G
      end.
      cbn. now rewrite Hst. }
    exists c2. split.
    + cbn [consumer_turns]. rewrite E1.
      destruct k; cbn [consumer_turns]; unfold consumer_turn; rewrite E2;
        cbn; now rewrite app_nil_r.
    + unfold c2, server_shut_down. cbv zeta.
      rewrite ClientFacts.state_set_state, ClientFacts.conn_set_state.
      split; [reflexivity|]. split; [reflexivity|].
      unfold set_state.
      match goal with
      | |- context [(?a =? ?b)%Z] => destruct (a =? b)%Z
      end; cbn [fired with_state with_conn with_log stop_consumer
                with_consumer trigger];
        repeat (apply in_or_app; cbn; auto; left).
Qed.

Lemma consumer_delivers_until_shutdown_witness :
  exists c',
    consumer_turns 5 (receiving [m1; m2; shutdown_notice; m3])
    = ([m1; m2], Returns c')
    /\ conn c' = None.
Proof.
  destruct (conn (receiving [m1; m2; shutdown_notice; m3]))
    as [h|] eqn:Eh; [|discriminate Eh].
  pose proof (consumer_delivers_until_shutdown
                (receiving [m1; m2; shutdown_notice; m3]) h
                [m1; m2] [shutdown_notice; m3]
                eq_refl eq_refl Eh) as H.
  injection Eh as <-.
  destruct (H eq_refl eq_refl) as (_ & H2).
  { repeat constructor. }
  destruct (H2 shutdown_notice [m3] 1%nat eq_refl eq_refl)
    as (c' & E & _ & Hn & _).
  exists c'. split; [exact E | exact Hn].
Defined.

(** X22.  When the consumer thread finds the loop thread of the handler
    ended: with [attempt_reconnect] off it returns and the status stays
    as it was, connected flag included; with it on and a first attempt
    that succeeds, the client goes on with a new handler whose outbound
    queue holds the negotiation message and nothing else, so that what
    the old handler had received and not handed on, or queued and not
    sent, is gone. *)
Theorem dropped_connection c h :
  recv_consumer_should_run c = true ->
  conn c = Some h -> running h = false ->
  (attempt_reconnect c = false ->
   forall script,
     exists c',
       consumer_turn script c = Returns c'
       /\ state c' = state c /\ conn c' = Some h)
  /\ (attempt_reconnect c = true ->
      forall a script,
        abort_in_wait a = false ->
        bind_passes (network a) c ->
        connect_raises (network a) = None ->
        start_ok (network a) = true ->
        exists c',
          consumer_turn (a :: script) c = Goes None c'
          /\ state c' = Z.lor STATE_OK STATE_CONNECTED
          /\ conn c'
             = Some (send (start (ConnectionHandler_init
                                    (new_socket (network a))))
                          (negotiation c))).
Proof.
  intros Hr Hc Hh. split.
  - intros Ha script. eexists. split; [|split].
    + unfold consumer_turn. rewrite Hr, Hc, Hh, Ha. reflexivity.
    + reflexivity.
    + exact Hc.
  - intros Ha a script Hab Hb Hcr Hs.
    unfold consumer_turn. rewrite Hr, Hc, Hh, Ha. cbn [negb].
    unfold reconnect_wrapper. cbn [with_log attempt_reconnect].
    rewrite Ha. cbn [negb reconnect_loop]. rewrite Hab. cbv zeta.
    set (c0 := set_state _ _).
    destruct (set_state_fields
                (with_log c "Server connection closed, reconnecting...")
                (Z.lor (Z.lor STATE_RECONNECTING STATE_CONNECTING) STATE_OK))
      as (F1 & F2 & F3 & F4 & F5 & F6 & F7 & F8 & F9 & F10).
    fold c0 in F1, F2, F3, F4, F5, F6, F7, F8, F9, F10.
    cbn in F2, F3, F4, F5, F6, F7, F8, F9, F10.
    assert (Hbind : (if binds (with_conn c0
                                 (Some (ConnectionHandler_init
                                          (new_socket (network a)))))
                     then bind_raises (network a) else None) = None).
    { unfold binds. cbn [with_conn bind_port_ interface_].
      rewrite F9, F10. fold (binds c).
      destruct Hb as [-> | ->]; [reflexivity | now destruct (binds c)]. }
    unfold reconnect. cbv zeta. rewrite Hbind, Hcr, Hs.
    unfold consume.
    cbn [with_log trigger with_state with_consumer with_conn conn].
    rewrite ClientFacts.conn_set_state.
    cbn [with_consumer with_conn conn handler_of recv send start
         set_outbound set_thread_alive set_should_run
         inbound_message_queue ConnectionHandler_init].
    eexists. split; [reflexivity|]. split.
    + cbn [with_conn state with_log trigger with_state].
      apply ClientFacts.state_set_state.
    + cbn [with_conn conn]. unfold negotiation.
      cbn [with_conn client_id_]. now rewrite F5.
Qed.

Lemma dropped_connection_witness :
  (exists c', consumer_turn [] (dropped false) = Returns c'
              /\ state c' = Z.lor STATE_OK STATE_CONNECTED)
  /\ (exists c', consumer_turn [one_try] (dropped true) = Goes None c'
                 /\ conn c'
                    = Some (send (start (ConnectionHandler_init
                                           (quiet_socket 3)))
                                 (negotiation (dropped true)))).
Proof.
  split.
  - destruct (conn (dropped false)) as [h|] eqn:Eh; [|discriminate Eh].
    pose proof (dropped_connection (dropped false) h eq_refl Eh) as H.
    injection Eh as <-.
    destruct (H eq_refl) as (H1 & _).
    destruct (H1 eq_refl []) as (c' & E & S & _).
    exists c'. split; [exact E | exact S].
  - destruct (conn (dropped true)) as [h|] eqn:Eh; [|discriminate Eh].
    pose proof (dropped_connection (dropped true) h eq_refl Eh) as H.
    injection Eh as <-.
    destruct (H eq_refl) as (_ & H2).
    destruct (H2 eq_refl one_try [] eq_refl (or_intror eq_refl) eq_refl
                 eq_refl) as (c' & E & _ & C).
    exists c'. split; [exact E | exact C].
Defined.

End ClientProperties.

(* ================================================================== *)
(** * Properties of the state names *)

Module StateNameProperties.
Import Json Connection Py Client ClientOps.

Lemma flag_in_mask v state :
  Z.land state 0xFFF = 0%Z -> Z.land v 0xFFF = v -> Z.land v state = 0%Z.
Proof.
  intros Hs Hv. rewrite <- Hv, <- Z.land_assoc, (Z.land_comm 0xFFF), Hs.
  apply Z.land_0_r.
Qed.

Lemma mask_of_flags state :
  Z.land STATE_NEEDS_INIT state = 0%Z -> Z.land STATE_OK state = 0%Z ->
  Z.land STATE_RUNNING state = 0%Z ->
  Z.land STATE_NOT_CONNECTED state = 0%Z ->
  Z.land STATE_CONNECTING state = 0%Z ->
  Z.land STATE_CONNECTED state = 0%Z ->
  Z.land STATE_CONNECT_FAILED state = 0%Z ->
  Z.land STATE_RECONNECTING state = 0%Z ->
  Z.land STATE_RECONNECT_FAILED state = 0%Z ->
  Z.land STATE_DISCONNECTING state = 0%Z ->
  Z.land STATE_DISCONNECT_FAILED state = 0%Z ->
  Z.land STATE_UNEXP_CLOSED state = 0%Z ->
  Z.land state 0xFFF = 0%Z.
Proof.
  intros H1 H2 H3 H4 H5 H6 H7 H8 H9 H10 H11 H12.
  change 0xFFF%Z
    with (Z.lor STATE_NEEDS_INIT
         (Z.lor STATE_OK
         (Z.lor STATE_RUNNING
         (Z.lor STATE_NOT_CONNECTED
         (Z.lor STATE_CONNECTING
         (Z.lor STATE_CONNECTED
         (Z.lor STATE_CONNECT_FAILED
         (Z.lor STATE_RECONNECTING
         (Z.lor STATE_RECONNECT_FAILED
         (Z.lor STATE_DISCONNECTING
         (Z.lor STATE_DISCONNECT_FAILED STATE_UNEXP_CLOSED))))))))))).
  rewrite !Z.land_lor_distr_r, !(Z.land_comm state).
  now rewrite H1, H2, H3, H4, H5, H6, H7, H8, H9, H10, H11, H12.
Qed.

Lemma exact_name_in state table key :
  exact_name state table = Some key -> In (key, state) table.
Proof.
  induction table as [|[k v] table IH]; cbn [exact_name]; [discriminate|].
  destruct (Z.eqb_spec v state) as [->|_].
  - intros H. injection H as ->. now left.
  - intros H. right. now apply IH.
Qed.

Lemma names_known :
  Forall (fun kv => exact_name (snd kv) state_names <> None) state_names.
Proof. repeat constructor; discriminate. Qed.

Lemma partial_names_returns state table : forall out,
  Forall (fun kv => exact_name (snd kv) state_names <> None) table ->
  exists out', partial_names state table out = inl out'.
Proof.
  induction table as [|[key value] table IH]; intros out Hk;
    cbn [partial_names]; [eauto|].
  inversion Hk as [|? ? Hv Hk']; subst. cbn [snd] in Hv.
  destruct (Z.land value state =? 0)%Z; [now apply IH|].
  destruct (exact_name value state_names); [now apply IH | congruence].
Qed.

Lemma partial_names_grows state table : forall out,
  out <> EmptyString ->
  partial_names state table out <> inl EmptyString.
Proof.
  induction table as [|[key value] table IH]; intros out Ho;
    cbn [partial_names]; [congruence|].
  destruct (Z.land value state =? 0)%Z; [now apply IH|].
  destruct (exact_name value state_names); [|discriminate].
  apply IH. destruct out; [congruence | discriminate].
Qed.

Lemma partial_names_empty state table :
  partial_names state table EmptyString = inl EmptyString
  <-> Forall (fun kv => Z.land (snd kv) state = 0%Z) table.
Proof.
  induction table as [|[key value] table IH]; cbn [partial_names].
  - split; [constructor | reflexivity].
  - destruct (Z.eqb_spec (Z.land value state) 0) as [E|N].
    + rewrite IH. split.
      * intros H. now constructor.
      * intros H. now inversion H.
    + split.
      * intros H. exfalso.
        destruct (exact_name value state_names); [|discriminate].
        revert H. apply partial_names_grows. discriminate.
      * intros H. inversion H. contradiction.
Qed.

(** X23.  [ClientState.get_name] never raises; it returns the key itself
    for the value of an attribute; and it returns [None] exactly for the
    non-zero integers that have none of the twelve flags. *)
Theorem get_name_answers state :
  (exists r, get_name state = inl r)
  /\ (forall key, In (key, state) state_names ->
                  get_name state = inl (Some key))
  /\ (get_name state = inl None
      <-> state <> 0%Z /\ Z.land state 0xFFF = 0%Z).
Proof.
  split; [|split].
  - unfold get_name.
    destruct (exact_name state state_names); [eauto|].
    destruct (partial_names_returns state state_names EmptyString names_known)
      as (out & ->).
    destruct out; eauto.
  - intros key Hin. cbn in Hin.
    repeat (destruct Hin as [Hin|Hin];
            [injection Hin as <- <-; reflexivity|]).
    contradiction.
  - unfold get_name.
    destruct (exact_name state state_names) as [key|] eqn:Ex.
    + split; [discriminate|]. intros (Hz & Hm). exfalso.
      apply exact_name_in in Ex. cbn in Ex.
      repeat (destruct Ex as [Ex|Ex];
              [injection Ex as _ <-;
               first [now apply Hz | discriminate Hm]|]).
      contradiction.
    + assert (Hz : state <> 0%Z).
      { intros ->. discriminate Ex. }
      pose proof (partial_names_empty state state_names) as He.
      destruct (partial_names state state_names EmptyString)
        as [[|a out]|e].
      * split; [|reflexivity]. intros _. split; [exact Hz|].
        destruct He as (He & _). specialize (He eq_refl).
        unfold state_names in He.
        repeat match goal with
               | H : Forall _ (_ :: _) |- _ => inversion H; clear H; subst
               end.
        cbn [snd] in *. now apply mask_of_flags.
      * split; [discriminate|]. intros (_ & Hm).
        destruct He as (_ & He). discriminate He.
        unfold state_names.
        repeat (constructor;
                [cbn [snd]; apply flag_in_mask; [exact Hm | reflexivity]|]).
        constructor.
      * split; [discriminate|]. intros (_ & Hm).
        destruct He as (_ & He). discriminate He.
        unfold state_names.
        repeat (constructor;
                [cbn [snd]; apply flag_in_mask; [exact Hm | reflexivity]|]).
        constructor.
Qed.

Lemma get_name_answers_witness :
  get_name 0x20 = inl (Some "STATE_CONNECTED"%string)
  /\ get_name 0x1000 = inl None.
Proof.
  split.
  - apply (proj1 (proj2 (get_name_answers 0x20))). cbn. tauto.
  - apply (proj2 (proj2 (get_name_answers 0x1000))).
    split; [discriminate | reflexivity].
Defined.

End StateNameProperties.
